(** * ReportingDashboard: the synchronisation pipeline

    A shallow embedding of the parts of the ads-analytics back end that the
    specification's testable properties talk about:

    - [RateLimiter]   src/lib/redis.ts (class RateLimiter): the token
                      bucket kept in Redis
    - [JsDate]        the [Date] operations the workers use
    - [Js], [Prisma]  thrown values, async computations over the shared
                      state, and the calls to the relational store
    - [GoogleAds]     lib/google-ads.ts: [refreshAccessToken],
                      [getValidAccessToken], [queryGoogleAds]
    - [Cache], [Queue] the cache helper of src/lib/redis.ts and the
                      'ads-sync' queue of lib/queue.ts
    - [SyncProcessor] src/workers/sync-processor.ts: [processSyncJob] and
                      [splitDateRange]
    - [SyncRoutes]    the handler of POST /api/sync/manual
    - [Zoned]         [getDate], [setDate] and [splitDateRange] for a
                      process in any time zone
    - [RateLimiterCalls] calls of the limiter over time and
                      [waitForToken] (src/lib/redis.ts)
    - [Fetch]         [fetchCampaignPerformance],
                      [fetchAdGroupPerformance] and the rate-limited
                      [queryGoogleAds] (lib/google-ads.ts)
    - [AdminRoutes]   the handlers of DELETE /api/sync/jobs/:id and
                      DELETE /api/accounts/:id
    - [Schedule]      [scheduleDailySyncForAccount], [scheduleInitialSync]
                      (lib/queue.ts) and [triggerIntradaySync] (scheduler)
    - [Frame]         relations between the state before and after a run

    Conventions.  JavaScript and Lua numbers that hold counts and
    millisecond time stamps are integers ([Z]); token counts, which the
    refill makes fractional, are exact rationals ([Q]), so rounding of
    doubles is outside the model.  A promise that rejects (or a [throw])
    is the [Throw] outcome of a computation; the state reached before the
    throw is kept, as in the source.  Values that the environment supplies
    (clock readings, API responses, the crypto primitives) are parameters
    of the function that uses them. *)

From Stdlib Require Import ZArith QArith Qminmax Lia Lqa String Ascii List Bool.
From stdpp Require Import gmap strings.
Import ListNotations.

Local Open Scope string_scope.
Local Open Scope list_scope.
Local Open Scope Z_scope.

(* ===================================================================== *)
(** * Token bucket (src/lib/redis.ts, class RateLimiter)                  *)
(* ===================================================================== *)

Module RateLimiter.

(** The private fields of the class. *)
Record t := mk {
  key : string;
  maxTokens : Q;
  refillRate : Q          (* tokens per second *)
}.

(** [new RateLimiter(key, maxTokens, refillRate)] *)
Definition create (key : string) (maxTokens refillRate : Q) : t :=
  mk ("ratelimit:" +:+ key) maxTokens refillRate.

(** The two Redis keys of a bucket ([KEYS[1]] and [KEYS[2]]). *)
Definition bucketKey (l : t) : string := key l.
Definition lastUpdateKey (l : t) : string := key l +:+ ":lastUpdate".

(** The numeric keys of the shared Redis instance.  A key that is absent
    makes [GET] return a false value, so [GET ... or ARGV[i]] falls back
    to the argument. *)
Abbreviation Redis := (gmap string Q).

(** Lines 90-98 of the script: the token count after the elapsed-time
    refill, clamped to the capacity. *)
Definition refill (l : t) (now : Q) (redis : Redis) : Q :=
  let tokens := default (maxTokens l) (redis !! bucketKey l) in
  let lastUpdate := default now (redis !! lastUpdateKey l) in
  let elapsed := ((now - lastUpdate) / 1000)%Q in
  Qmin (maxTokens l) (tokens + elapsed * refillRate l)%Q.

(** [tryAcquire(tokens)]: one evaluation of the Lua script, which Redis
    runs atomically.  [now] is the caller's [Date.now()].  The two [SET]s
    happen only in the branch that returns 1. *)
Definition tryAcquire (l : t) (tokens : Q) (now : Z) (redis : Redis)
  : bool * Redis :=
  let avail := refill l (inject_Z now) redis in
  if Qle_bool tokens avail then
    (true, <[lastUpdateKey l := inject_Z now]>
             (<[bucketKey l := (avail - tokens)%Q]> redis))
  else
    (false, redis).

(** [n] calls of [tryAcquire], one after the other, all reading the same
    clock value.  Because each call is one atomic script, every
    interleaving of concurrent callers is such a sequence. *)
Fixpoint tryAcquireN (l : t) (tokens : Q) (now : Z) (n : nat) (redis : Redis)
  : list bool * Redis :=
  match n with
  | O => ([], redis)
  | S n' =>
      let '(r, redis1) := tryAcquire l tokens now redis in
      let '(rs, redis2) := tryAcquireN l tokens now n' redis1 in
      (r :: rs, redis2)
  end.

(** The stored token count is between 0 and the capacity. *)
Definition bucket_ok (l : t) (redis : Redis) : Prop :=
  match redis !! bucketKey l with
  | Some tk => (0 <= tk /\ tk <= maxTokens l)%Q
  | None => True
  end.

(** The bucket is full at time [now]: what the refill makes available is
    the whole capacity. *)
Definition fullAt (l : t) (now : Z) (redis : Redis) : Prop :=
  (refill l (inject_Z now) redis == maxTokens l)%Q.

(** Two ways of being full: nothing is stored yet, or the capacity is
    stored ... *)
Definition storedFull (l : t) (redis : Redis) : Prop :=
  match redis !! bucketKey l with
  | Some tk => (tk == maxTokens l)%Q
  | None => True
  end.

(** ... and the last stored update, if any, is not in the future. *)
Definition notAhead (l : t) (now : Z) (redis : Redis) : Prop :=
  match redis !! lastUpdateKey l with
  | Some lu => (lu <= inject_Z now)%Q
  | None => True
  end.

End RateLimiter.

(** The limiter the API client uses: [new RateLimiter('google-ads', 60, 1)]. *)
Definition googleAdsRateLimiter : RateLimiter.t :=
  RateLimiter.create "google-ads" 60 1.

(* ===================================================================== *)
(** * The Date operations the workers use                                 *)
(* ===================================================================== *)

(** A [Date] is its time value: milliseconds since 1970-01-01T00:00Z.
    The calendar functions are the ones of the language definition
    ([Day], [DayFromYear], [YearFromTime], [MonthFromTime], [DateFromTime],
    [MakeDay]), on day numbers.  Two things are fixed by the model:
    - the process runs with a local time zone of constant offset (as with
      TZ=UTC), so that [d.setDate(d.getDate() + k)] moves the time value by
      exactly [k] days;
    - time values are unbounded integers; the limit of 10^8 days on either
      side of the epoch, past which a [Date] becomes invalid, is not
      represented.
    Module [Zoned] below lifts both: it has [getDate] and [setDate] on the
    local time of any zone, with the limit, and [splitDateRange_fixed]
    shows that the loop of this module is the loop of [Zoned] in a zone
    without daylight saving. *)

Module JsDate.

Definition msPerDay : Z := 86400000.

Definition Day (t : Z) : Z := t / msPerDay.

Definition DaysInYear (y : Z) : Z :=
  if negb (y mod 4 =? 0) then 365
  else if negb (y mod 100 =? 0) then 366
  else if negb (y mod 400 =? 0) then 365
  else 366.

Definition InLeapYear (y : Z) : Z := DaysInYear y - 365.

Definition DayFromYear (y : Z) : Z :=
  365 * (y - 1970) + (y - 1969) / 4 - (y - 1901) / 100 + (y - 1601) / 400.

(** The largest year whose first day is not after day [d]
    ([YearFromDay_spec] below): an estimate from the mean year length,
    corrected by one where needed. *)
Definition YearFromDay (d : Z) : Z :=
  let y0 := 1970 + (400 * d) / 146097 in
  if d <? DayFromYear y0 then y0 - 1
  else if DayFromYear (y0 + 1) <=? d then y0 + 1
  else y0.

(** Day within the year on which month [m] (0-based) starts. *)
Definition monthStart (leap m : Z) : Z :=
  match m with
  | 0 => 0 | 1 => 31 | 2 => 59 + leap | 3 => 90 + leap | 4 => 120 + leap
  | 5 => 151 + leap | 6 => 181 + leap | 7 => 212 + leap | 8 => 243 + leap
  | 9 => 273 + leap | 10 => 304 + leap | 11 => 334 + leap
  | _ => 365 + leap
  end.

Definition MonthFromDay (d : Z) : Z :=
  let y := YearFromDay d in
  let diy := d - DayFromYear y in
  let leap := InLeapYear y in
  if diy <? 31 then 0 else if diy <? 59 + leap then 1
  else if diy <? 90 + leap then 2 else if diy <? 120 + leap then 3
  else if diy <? 151 + leap then 4 else if diy <? 181 + leap then 5
  else if diy <? 212 + leap then 6 else if diy <? 243 + leap then 7
  else if diy <? 273 + leap then 8 else if diy <? 304 + leap then 9
  else if diy <? 334 + leap then 10 else 11.

Definition DateFromDay (d : Z) : Z :=
  let y := YearFromDay d in
  d - DayFromYear y - monthStart (InLeapYear y) (MonthFromDay d) + 1.

(** [MakeDay year month date] for a month in 0..11. *)
Definition MakeDay (year month date : Z) : Z :=
  DayFromYear year + monthStart (InLeapYear year) month + date - 1.

(** Decimal digits, as [toISOString] pads them. *)
Definition digit (n : Z) : ascii := ascii_of_nat (Z.to_nat (48 + n mod 10)).

Definition digitVal (c : ascii) : option Z :=
  let n := Z.of_nat (nat_of_ascii c) in
  if (48 <=? n) && (n <=? 57) then Some (n - 48) else None.

Definition pad2 (n : Z) : string :=
  String (digit (n / 10)) (String (digit n) EmptyString).

Definition pad4 (n : Z) : string :=
  String (digit (n / 1000)) (String (digit (n / 100)) (pad2 n)).

Definition pad6 (n : Z) : string :=
  String (digit (n / 100000)) (String (digit (n / 10000)) (pad4 n)).

(** Years 0..9999 print with four digits, the others with a sign and six. *)
Definition isoYear (y : Z) : string :=
  if (0 <=? y) && (y <=? 9999) then pad4 y
  else String (if y <? 0 then "-"%char else "+"%char) (pad6 (Z.abs y)).

(** [d.toISOString().split('T')[0]]: the UTC calendar date of [t]. *)
Definition toISODate (t : Z) : string :=
  let d := Day t in
  isoYear (YearFromDay d) +:+ "-" +:+ pad2 (MonthFromDay d + 1)
    +:+ "-" +:+ pad2 (DateFromDay d).

Definition num2 (a b : ascii) : option Z :=
  x ← digitVal a; y ← digitVal b; Some (10 * x + y).

(** [new Date(s).getTime()] for a date-only string "YYYY-MM-DD", which is
    read as midnight UTC; [None] is the invalid date (time value NaN).
    As Node does, a day of month up to 31 is accepted in every month and
    runs over into the next one.  The other string forms that [Date]
    understands are outside the model and are mapped to [None]. *)
Definition parseDate (s : string) : option Z :=
  match s with
  | String y1 (String y2 (String y3 (String y4 (String h1
      (String m1 (String m2 (String h2 (String d1 (String d2 EmptyString))))))))) =>
      if Ascii.eqb h1 "-"%char && Ascii.eqb h2 "-"%char then
        yh ← num2 y1 y2; yl ← num2 y3 y4; m ← num2 m1 m2; d ← num2 d1 d2;
        if (1 <=? m) && (m <=? 12) && (1 <=? d) && (d <=? 31)
        then Some (MakeDay (100 * yh + yl) (m - 1) d * msPerDay)
        else None
      else None
  | _ => None
  end.

(** [d.setDate(d.getDate() + k)] in a zone of constant offset and within
    the range of [Date]; [Zoned.addDays] is the operation in any zone. *)
Definition addDays (t k : Z) : Z := t + k * msPerDay.

End JsDate.

(* ===================================================================== *)
(** * Thrown values, computations, and the persistent state               *)
(* ===================================================================== *)

Module Js.

(** What a [catch] clause can receive. *)
Inductive JsError :=
| ErrorObject (message : string)      (* an instance of Error *)
| ZodError (message : string)         (* an instance of z.ZodError *)
| OtherThrown (value : string).       (* a thrown value that is no Error *)

(** [error instanceof Error ? error.message : dflt] *)
Definition messageOr (dflt : string) (e : JsError) : string :=
  match e with
  | ErrorObject m | ZodError m => m
  | OtherThrown _ => dflt
  end.

Inductive Result (A : Type) : Type :=
| Ok (a : A)
| Throw (e : JsError).

Arguments Ok {A} a.
Arguments Throw {A} e.

(** An async function over a mutable state [St]: it returns or throws, and
    in both cases leaves the state it has reached. *)
Definition M (St A : Type) : Type := St -> Result A * St.

Definition ret {St A} (a : A) : M St A := fun s => (Ok a, s).

Definition throw {St A} (e : JsError) : M St A := fun s => (Throw e, s).

Definition bind {St A B} (c : M St A) (k : A -> M St B) : M St B :=
  fun s =>
    match c s with
    | (Ok a, s') => k a s'
    | (Throw e, s') => (Throw e, s')
    end.

(** [try { c } catch (error) { h error }] *)
Definition tryCatch {St A} (c : M St A) (h : JsError -> M St A) : M St A :=
  fun s =>
    match c s with
    | (Ok a, s') => (Ok a, s')
    | (Throw e, s') => h e s'
    end.

Definition gets {St A} (f : St -> A) : M St A := fun s => (Ok (f s), s).

Definition modify {St} (f : St -> St) : M St unit := fun s => (Ok tt, f s).

(** [for (const x of l) { body x }]; a [continue] is a [ret tt]. *)
Fixpoint forEach {St A} (l : list A) (body : A -> M St unit) : M St unit :=
  match l with
  | [] => ret tt
  | x :: l' => bind (body x) (fun _ => forEach l' body)
  end.

End Js.

Import Js.

Notation "x <- c1 ;; c2" := (Js.bind c1 (fun x => c2))
  (at level 100, c1 at next level, right associativity).
Notation "c1 ;; c2" := (Js.bind c1 (fun _ => c2))
  (at level 100, right associativity).

(** ** Rows of the warehouse (the columns the modelled code reads or
       writes; primary keys that the store generates are numbered). *)

Inductive Provider := GOOGLE_ADS | META_ADS | TIKTOK_ADS.

#[global] Instance Provider_eq_dec : EqDecision Provider.
Proof. solve_decision. Defined.

#[global] Instance Provider_countable : Countable Provider.
Proof.
  refine (inj_countable'
    (fun p => match p with GOOGLE_ADS => 0 | META_ADS => 1 | TIKTOK_ADS => 2 end)%nat
    (fun n => match n with 0 => GOOGLE_ADS | 1 => META_ADS | _ => TIKTOK_ADS end)%nat
    _).
  now intros [].
Defined.

Module ConnectionStatus.
Inductive t := ACTIVE | EXPIRED | DISCONNECTED.
End ConnectionStatus.

Module SyncStatus.
Inductive t := PENDING | SYNCING | SYNCED | ERROR.
End SyncStatus.

Module SyncJobStatus.
Inductive t := PENDING | RUNNING | COMPLETED | FAILED | CANCELLED.
Definition eqb (a b : t) : bool :=
  match a, b with
  | PENDING, PENDING | RUNNING, RUNNING | COMPLETED, COMPLETED
  | FAILED, FAILED | CANCELLED, CANCELLED => true
  | _, _ => false
  end.
End SyncJobStatus.

Module DimensionStatus.
Inductive t := ENABLED | PAUSED | REMOVED | UNKNOWN.
End DimensionStatus.

Module Connection.
Record t := mk {
  accessTokenEnc : string;
  refreshTokenEnc : string;
  accessTokenExpiry : option Z;
  lastRefreshedAt : option Z;
  status : ConnectionStatus.t;
  errorMessage : option string
}.
End Connection.

Module AdAccount.
Record t := mk {
  organizationId : string;
  connectionId : string;
  externalId : string;
  provider : Provider;
  isEnabled : bool;
  syncStatus : SyncStatus.t;
  lastSyncedAt : option Z
}.
Definition set_syncStatus (s : SyncStatus.t) (a : t) : t :=
  mk (organizationId a) (connectionId a) (externalId a) (provider a)
     (isEnabled a) s (lastSyncedAt a).
Definition set_synced (now : Z) (a : t) : t :=
  mk (organizationId a) (connectionId a) (externalId a) (provider a)
     (isEnabled a) SyncStatus.SYNCED (Some now).
End AdAccount.

Module SyncJob.
Record t := mk {
  id : N;
  adAccountId : string;
  jobType : string;
  status : SyncJobStatus.t;
  dateFrom : Z;
  dateTo : Z;
  createdAt : Z;
  startedAt : option Z;
  completedAt : option Z;
  errorMessage : option string;
  metrics : option (nat * Z)          (* rowsProcessed, durationMs *)
}.
Definition set_running (now : Z) (j : t) : t :=
  mk (id j) (adAccountId j) (jobType j) SyncJobStatus.RUNNING (dateFrom j)
     (dateTo j) (createdAt j) (Some now) (completedAt j) (errorMessage j)
     (metrics j).
Definition set_completed (now : Z) (rows : nat) (durationMs : Z) (j : t) : t :=
  mk (id j) (adAccountId j) (jobType j) SyncJobStatus.COMPLETED (dateFrom j)
     (dateTo j) (createdAt j) (startedAt j) (Some now) (errorMessage j)
     (Some (rows, durationMs)).
Definition set_failed (now : Z) (message : string) (j : t) : t :=
  mk (id j) (adAccountId j) (jobType j) SyncJobStatus.FAILED (dateFrom j)
     (dateTo j) (createdAt j) (startedAt j) (Some now) (Some message)
     (metrics j).
(** PENDING or RUNNING. *)
Definition nonTerminal (j : t) : bool :=
  SyncJobStatus.eqb (status j) SyncJobStatus.PENDING
  || SyncJobStatus.eqb (status j) SyncJobStatus.RUNNING.
End SyncJob.

Module Campaign.
Record t := mk {
  id : N;
  name : string;
  status : DimensionStatus.t
}.
End Campaign.

Module AdGroup.
Record t := mk {
  id : N;
  campaignId : N;
  name : string;
  status : DimensionStatus.t
}.
End AdGroup.

(** The measure columns of a fact row. *)
Record Measures := mkMeasures {
  impressions : Z;
  clicks : Z;
  spend : Q;
  conversions : Q;
  conversionValue : Q
}.

Module MetricsFact.
Record t := mk {
  id : N;
  measures : Measures
}.
End MetricsFact.

(** The unique index [date_provider_adAccountId_campaignId_adGroupId_adId]. *)
Abbreviation FactKey := (Z * Provider * string * N * option N * option N)%type.

(** The payload of a task of the 'ads-sync' queue. *)
Inductive SyncJobType :=
  sync_account_daily | sync_account_intraday | backfill_range | manual_sync.

Module SyncJobData.
Record t := mk {
  type : SyncJobType;
  adAccountId : string;
  connectionId : string;
  customerId : string;
  dateFrom : string;
  dateTo : string;
  provider : Provider;
  organizationId : string;
  initiatedBy : option string
}.
End SyncJobData.

Module QueueJob.
Record t := mk {
  id : N;
  data : SyncJobData.t;
  priority : option Z;
  delay : option Z
}.
End QueueJob.

(** Everything the modelled handlers share: the tables of the relational
    store, the 'ads-sync' queue, the cache keys of Redis, and the console.
    [cacheError] and [queueError], when set, make every command on the
    cache client, respectively on the queue's own connection, reject. *)
Record World := mkWorld {
  connections : gmap string Connection.t;
  adAccounts : gmap string AdAccount.t;
  syncJobs : list SyncJob.t;
  campaigns : gmap (string * string) Campaign.t;
  adGroups : gmap (string * string) AdGroup.t;
  metricsFacts : gmap FactKey MetricsFact.t;
  nextId : N;
  syncQueue : list QueueJob.t;
  progress : gmap N Z;
  queueError : option JsError;
  cache : gmap string string;
  cacheError : option JsError;
  console : list string
}.

Definition with_connections (v : gmap string Connection.t) (w : World) : World :=
  mkWorld v (adAccounts w) (syncJobs w) (campaigns w) (adGroups w)
    (metricsFacts w) (nextId w) (syncQueue w) (progress w) (queueError w) (cache w)
    (cacheError w) (console w).

Definition with_adAccounts (v : gmap string AdAccount.t) (w : World) : World :=
  mkWorld (connections w) v (syncJobs w) (campaigns w) (adGroups w)
    (metricsFacts w) (nextId w) (syncQueue w) (progress w) (queueError w) (cache w)
    (cacheError w) (console w).

Definition with_syncJobs (v : list SyncJob.t) (w : World) : World :=
  mkWorld (connections w) (adAccounts w) v (campaigns w) (adGroups w)
    (metricsFacts w) (nextId w) (syncQueue w) (progress w) (queueError w) (cache w)
    (cacheError w) (console w).

Definition with_campaigns (v : gmap (string * string) Campaign.t) (w : World) : World :=
  mkWorld (connections w) (adAccounts w) (syncJobs w) v (adGroups w)
    (metricsFacts w) (nextId w) (syncQueue w) (progress w) (queueError w) (cache w)
    (cacheError w) (console w).

Definition with_adGroups (v : gmap (string * string) AdGroup.t) (w : World) : World :=
  mkWorld (connections w) (adAccounts w) (syncJobs w) (campaigns w) v
    (metricsFacts w) (nextId w) (syncQueue w) (progress w) (queueError w) (cache w)
    (cacheError w) (console w).

Definition with_metricsFacts (v : gmap FactKey MetricsFact.t) (w : World) : World :=
  mkWorld (connections w) (adAccounts w) (syncJobs w) (campaigns w) (adGroups w)
    v (nextId w) (syncQueue w) (progress w) (queueError w) (cache w)
    (cacheError w) (console w).

Definition with_nextId (v : N) (w : World) : World :=
  mkWorld (connections w) (adAccounts w) (syncJobs w) (campaigns w) (adGroups w)
    (metricsFacts w) v (syncQueue w) (progress w) (queueError w) (cache w)
    (cacheError w) (console w).

Definition with_syncQueue (v : list QueueJob.t) (w : World) : World :=
  mkWorld (connections w) (adAccounts w) (syncJobs w) (campaigns w) (adGroups w)
    (metricsFacts w) (nextId w) v (progress w) (queueError w) (cache w)
    (cacheError w) (console w).

Definition with_progress (v : gmap N Z) (w : World) : World :=
  mkWorld (connections w) (adAccounts w) (syncJobs w) (campaigns w) (adGroups w)
    (metricsFacts w) (nextId w) (syncQueue w) v (queueError w) (cache w)
    (cacheError w) (console w).

Definition with_cache (v : gmap string string) (w : World) : World :=
  mkWorld (connections w) (adAccounts w) (syncJobs w) (campaigns w) (adGroups w)
    (metricsFacts w) (nextId w) (syncQueue w) (progress w) (queueError w) v
    (cacheError w) (console w).

Definition with_console (v : list string) (w : World) : World :=
  mkWorld (connections w) (adAccounts w) (syncJobs w) (campaigns w) (adGroups w)
    (metricsFacts w) (nextId w) (syncQueue w) (progress w) (queueError w) (cache w)
    (cacheError w) v.

(** ** The store's operations (the Prisma calls of the source)

    The relational store is taken by its contract: each call is atomic,
    a unique key identifies at most one row, [upsert] updates the row
    found under the key or creates it, [update] needs the row to exist,
    and [updateMany] changes every row that matches. *)

Module Prisma.

(** A fresh primary key. *)
Definition newId : M World N :=
  fun w => (Ok (nextId w), with_nextId (nextId w + 1)%N w).

(** [new Date(s)] as an argument of a query: the client refuses an
    invalid date. *)
Definition dateArg (s : string) : M World Z :=
  match JsDate.parseDate s with
  | Some t => ret t
  | None => throw (ErrorObject "Invalid value provided. Expected DateTime, provided Invalid Date.")
  end.

Definition syncJob_updateMany (where_ : SyncJob.t -> bool)
    (data_ : SyncJob.t -> SyncJob.t) : M World unit :=
  modify (fun w =>
    with_syncJobs (map (fun j => if where_ j then data_ j else j) (syncJobs w)) w).

Definition syncJob_findFirst (where_ : SyncJob.t -> bool) : M World (option SyncJob.t) :=
  gets (fun w => List.find where_ (syncJobs w)).

Definition syncJob_create (mkRow : N -> SyncJob.t) : M World SyncJob.t :=
  i <- newId ;;
  modify (fun w => with_syncJobs (syncJobs w ++ [mkRow i]) w) ;;
  ret (mkRow i).

(** [update] of one row by primary key throws when the row is missing. *)
Definition adAccount_update (id : string) (data_ : AdAccount.t -> AdAccount.t)
  : M World unit :=
  fun w =>
    match adAccounts w !! id with
    | Some a => (Ok tt, with_adAccounts (<[id := data_ a]> (adAccounts w)) w)
    | None => (Throw (ErrorObject "Record to update not found."), w)
    end.

Definition connection_update (id : string) (data_ : Connection.t -> Connection.t)
  : M World unit :=
  fun w =>
    match connections w !! id with
    | Some c => (Ok tt, with_connections (<[id := data_ c]> (connections w)) w)
    | None => (Throw (ErrorObject "Record to update not found."), w)
    end.

(** [upsert] by a unique key: the row found is updated in place, and a
    row is created (with a fresh primary key) when there is none. *)
Definition campaign_upsert (key : string * string)
    (create : N -> Campaign.t) (update : Campaign.t -> Campaign.t) : M World unit :=
  fun w =>
    match campaigns w !! key with
    | Some c => (Ok tt, with_campaigns (<[key := update c]> (campaigns w)) w)
    | None =>
        (Ok tt, with_campaigns (<[key := create (nextId w)]> (campaigns w))
                  (with_nextId (nextId w + 1)%N w))
    end.

Definition campaign_findUnique (key : string * string) : M World (option Campaign.t) :=
  gets (fun w => campaigns w !! key).

Definition adGroup_upsert (key : string * string)
    (create : N -> AdGroup.t) (update : AdGroup.t -> AdGroup.t) : M World unit :=
  fun w =>
    match adGroups w !! key with
    | Some g => (Ok tt, with_adGroups (<[key := update g]> (adGroups w)) w)
    | None =>
        (Ok tt, with_adGroups (<[key := create (nextId w)]> (adGroups w))
                  (with_nextId (nextId w + 1)%N w))
    end.

Definition adGroup_findUnique (key : string * string) : M World (option AdGroup.t) :=
  gets (fun w => adGroups w !! key).

Definition metricsFact_upsert (key : FactKey)
    (create : N -> MetricsFact.t) (update : MetricsFact.t -> MetricsFact.t)
  : M World unit :=
  fun w =>
    match metricsFacts w !! key with
    | Some r => (Ok tt, with_metricsFacts (<[key := update r]> (metricsFacts w)) w)
    | None =>
        (Ok tt, with_metricsFacts (<[key := create (nextId w)]> (metricsFacts w))
                  (with_nextId (nextId w + 1)%N w))
    end.

End Prisma.

(* ===================================================================== *)
(** * Access tokens (lib/google-ads.ts)                                   *)
(* ===================================================================== *)

Module GoogleAds.

(** One row of performance data, as [fetchCampaignPerformance] and
    [fetchAdGroupPerformance] build it from the API response. *)
Module Metrics.
Record t := mk {
  date : string;
  customerId : string;
  campaignId : string;
  campaignName : string;
  adGroupId : option string;
  adGroupName : option string;
  adId : option string;
  impressions : Z;
  clicks : Z;
  cost : Q;
  conversions : Q;
  conversionValue : Q
}.
End Metrics.

Definition expiryBuffer : Z := 5 * 60 * 1000.

(** [!connection.accessTokenExpiry ||
     connection.accessTokenExpiry.getTime() < Date.now() + expiryBuffer] *)
Definition isExpired (now : Z) (c : Connection.t) : bool :=
  match Connection.accessTokenExpiry c with
  | None => true
  | Some expiry => expiry <? now + expiryBuffer
  end.

(** The [data] of the two [prisma.connection.update] calls. *)
Definition refreshed (enc : string) (expiryDate now : Z) (c : Connection.t)
  : Connection.t :=
  Connection.mk enc (Connection.refreshTokenEnc c) (Some expiryDate) (Some now)
    ConnectionStatus.ACTIVE None.

Definition expired (error : JsError) (c : Connection.t) : Connection.t :=
  Connection.mk (Connection.accessTokenEnc c) (Connection.refreshTokenEnc c)
    (Connection.accessTokenExpiry c) (Connection.lastRefreshedAt c)
    ConnectionStatus.EXPIRED (Some (messageOr "Token refresh failed" error)).

Definition liftResult {St A} (r : Result A) : M St A := fun s => (r, s).

Section Vault.

(** [decrypt] and [encrypt] of lib/encryption.ts (AES-256-GCM under the
    configured key); both throw when the key is missing, and [decrypt]
    when the ciphertext does not authenticate. *)
Variable decrypt : string -> Result string.
Variable encrypt : string -> Result string.

(** The provider's refresh-token exchange: the [access_token] and the
    [expiry_date] of the credentials it returns, if it returns. *)
Variable oauthRefresh : string -> Result (option string * option Z).

(** The search request sent to the API with a bearer token (customer id,
    access token, developer token, query); a response that is not ok is
    thrown as an error. *)
Variable Row : Type.
Variable searchStream : string -> string -> string -> string -> Result (list Row).

Definition refreshAccessToken (now : Z) (refreshToken : string)
  : M World (string * Z) :=
  credentials <- liftResult (oauthRefresh refreshToken) ;;
  match fst credentials with
  | None | Some "" => throw (ErrorObject "Failed to refresh access token")
  | Some accessToken =>
      ret (accessToken,
           match snd credentials with
           | Some e => if e =? 0 then now + 3600000 else e
           | None => now + 3600000
           end)
  end.

Definition getValidAccessToken (now : Z) (connectionId : string) : M World string :=
  connection <- gets (fun w => connections w !! connectionId) ;;
  match connection with
  | None => throw (ErrorObject "Connection not found")
  | Some connection =>
      accessToken <- liftResult (decrypt (Connection.accessTokenEnc connection)) ;;
      refreshToken <- liftResult (decrypt (Connection.refreshTokenEnc connection)) ;;
      if isExpired now connection then
        tryCatch
          (r <- refreshAccessToken now refreshToken ;;
           enc <- liftResult (encrypt (fst r)) ;;
           Prisma.connection_update connectionId (refreshed enc (snd r) now) ;;
           ret (fst r))
          (fun error =>
             Prisma.connection_update connectionId (expired error) ;;
             throw error)
      else ret accessToken
  end.

(** [queryGoogleAds]; [canProceed] is what [waitForToken(1, 30000)]
    answered and [developerToken] the configured developer token. *)
Definition queryGoogleAds (canProceed : bool) (developerToken : option string)
    (now : Z) (connectionId customerId query : string) : M World (list Row) :=
  if negb canProceed then
    throw (ErrorObject "Rate limit exceeded. Please try again later.")
  else
    accessToken <- getValidAccessToken now connectionId ;;
    match developerToken with
    | None | Some "" => throw (ErrorObject "GOOGLE_ADS_DEVELOPER_TOKEN is required")
    | Some token => liftResult (searchStream customerId accessToken token query)
    end.

End Vault.

End GoogleAds.

(* ===================================================================== *)
(** * The sync worker (src/workers/sync-processor.ts)                     *)
(* ===================================================================== *)

(** ** The cache helper and the queue (src/lib/redis.ts, lib/queue.ts) *)

Module Cache.

Fixpoint contains (needle hay : string) : bool :=
  if String.prefix needle hay then true
  else match hay with
       | EmptyString => false
       | String _ hay' => contains needle hay'
       end.

(** Does [key] match the glob [metrics:*<adAccountId>*]?  (The account id
    is a UUID, so it holds no glob character of its own.) *)
Definition matchesMetricsOf (adAccountId key : string) : bool :=
  String.prefix "metrics:" key
  && contains adAccountId (String.substring 8 (String.length key - 8) key).

(** [cache.delPattern(`metrics:*${adAccountId}*`)]: KEYS, then DEL of what
    was found. *)
Definition delPattern (adAccountId : string) : M World unit :=
  fun w =>
    match cacheError w with
    | Some e => (Throw e, w)
    | None =>
        (Ok tt,
         with_cache
           (filter (fun kv => matchesMetricsOf adAccountId (fst kv) = false) (cache w))
           w)
    end.

End Cache.

Module Queue.

(** [job.updateProgress(p)] *)
Definition updateProgress (jobId : N) (p : Z) : M World unit :=
  fun w =>
    match queueError w with
    | Some e => (Throw e, w)
    | None => (Ok tt, with_progress (<[jobId := p]> (progress w)) w)
    end.

(** [addSyncJob(data, { delay, priority, jobId })]: a task whose id is
    already in the queue is not added again. *)
Definition addSyncJob (data : SyncJobData.t) (delay priority : option Z)
    (jobId : option N) : M World unit :=
  fun w =>
    match queueError w with
    | Some e => (Throw e, w)
    | None =>
        match jobId with
        | Some i =>
            if existsb (fun q => N.eqb (QueueJob.id q) i) (syncQueue w)
            then (Ok tt, w)
            else (Ok tt,
                  with_syncQueue (syncQueue w ++ [QueueJob.mk i data priority delay]) w)
        | None =>
            (Ok tt,
             with_syncQueue
               (syncQueue w ++ [QueueJob.mk (nextId w) data priority delay])
               (with_nextId (nextId w + 1)%N w))
        end
    end.

End Queue.

Module SyncProcessor.

Record SyncResult := mkSyncResult {
  rowsProcessed : nat;
  dateRange : string * string;
  duration : Z
}.

Definition measuresOf (metric : GoogleAds.Metrics.t) : Measures :=
  mkMeasures (GoogleAds.Metrics.impressions metric)
             (GoogleAds.Metrics.clicks metric)
             (GoogleAds.Metrics.cost metric)
             (GoogleAds.Metrics.conversions metric)
             (GoogleAds.Metrics.conversionValue metric).

(** The [prisma.metricsFact.upsert] of both passes: [create] and [update]
    carry the same five measures. *)
Definition upsertFact (key : FactKey) (ms : Measures) : M World unit :=
  Prisma.metricsFact_upsert key
    (fun i => MetricsFact.mk i ms)
    (fun r => MetricsFact.mk (MetricsFact.id r) ms).

(** The handler keeps the local counter [totalRows] next to the world. *)
Definition inWorld {A} (c : M World A) : M (World * nat) A :=
  fun s => let '(r, w') := c (fst s) in (r, (w', snd s)).

Definition countRow : M (World * nat) unit :=
  modify (fun s => (fst s, S (snd s))).

(** [s || dflt] on an optional string. *)
Definition orElse (s : option string) (dflt : string) : string :=
  match s with
  | None | Some "" => dflt
  | Some v => v
  end.

Section ProcessSyncJob.

(** The two fetches of lib/google-ads.ts, each a rate-limited,
    authenticated API query that returns rows or throws. *)
Variable fetchCampaignPerformance :
  string -> string -> string -> string -> M World (list GoogleAds.Metrics.t).
Variable fetchAdGroupPerformance :
  string -> string -> string -> string -> M World (list GoogleAds.Metrics.t).

Variable job : QueueJob.t.

(** The clock when the handler starts and when it stores its outcome. *)
Variable startTime endTime : Z.

Let adAccountId := SyncJobData.adAccountId (QueueJob.data job).
Let connectionId := SyncJobData.connectionId (QueueJob.data job).
Let customerId := SyncJobData.customerId (QueueJob.data job).
Let dateFrom := SyncJobData.dateFrom (QueueJob.data job).
Let dateTo := SyncJobData.dateTo (QueueJob.data job).
Let provider := SyncJobData.provider (QueueJob.data job).

(** The [where] of the three [syncJob.updateMany] calls. *)
Definition thisJob (statuses : list SyncJobStatus.t) (from to : Z)
    (j : SyncJob.t) : bool :=
  String.eqb (SyncJob.adAccountId j) adAccountId
  && existsb (SyncJobStatus.eqb (SyncJob.status j)) statuses
  && (SyncJob.dateFrom j =? from) && (SyncJob.dateTo j =? to).

Definition markJob (statuses : list SyncJobStatus.t)
    (data_ : SyncJob.t -> SyncJob.t) : M World unit :=
  from <- Prisma.dateArg dateFrom ;;
  to <- Prisma.dateArg dateTo ;;
  Prisma.syncJob_updateMany (thisJob statuses from to) data_.

(** Body of the first loop (lines 53-118). *)
Definition campaignRow (metric : GoogleAds.Metrics.t) : M (World * nat) unit :=
  let key := (adAccountId, GoogleAds.Metrics.campaignId metric) in
  inWorld (Prisma.campaign_upsert key
    (fun i => Campaign.mk i (GoogleAds.Metrics.campaignName metric)
                DimensionStatus.UNKNOWN)
    (fun c => Campaign.mk (Campaign.id c) (GoogleAds.Metrics.campaignName metric)
                (Campaign.status c))) ;;
  campaign <- inWorld (Prisma.campaign_findUnique key) ;;
  match campaign with
  | None => ret tt
  | Some campaign =>
      date <- inWorld (Prisma.dateArg (GoogleAds.Metrics.date metric)) ;;
      inWorld (upsertFact
        (date, provider, adAccountId, Campaign.id campaign, None, None)
        (measuresOf metric)) ;;
      countRow
  end.

(** Body of the second loop (lines 132-213). *)
Definition adGroupRow (metric : GoogleAds.Metrics.t) : M (World * nat) unit :=
  match GoogleAds.Metrics.adGroupId metric with
  | None | Some "" => ret tt
  | Some adGroupId =>
      campaign <- inWorld (Prisma.campaign_findUnique
                   (adAccountId, GoogleAds.Metrics.campaignId metric)) ;;
      match campaign with
      | None => ret tt
      | Some campaign =>
          let name := orElse (GoogleAds.Metrics.adGroupName metric) "Unknown Ad Group" in
          inWorld (Prisma.adGroup_upsert (adAccountId, adGroupId)
            (fun i => AdGroup.mk i (Campaign.id campaign) name DimensionStatus.UNKNOWN)
            (fun g => AdGroup.mk (AdGroup.id g) (AdGroup.campaignId g) name
                        (AdGroup.status g))) ;;
          adGroup <- inWorld (Prisma.adGroup_findUnique (adAccountId, adGroupId)) ;;
          match adGroup with
          | None => ret tt
          | Some adGroup =>
              date <- inWorld (Prisma.dateArg (GoogleAds.Metrics.date metric)) ;;
              inWorld (upsertFact
                (date, provider, adAccountId, Campaign.id campaign,
                 Some (AdGroup.id adGroup), None)
                (measuresOf metric)) ;;
              countRow
          end
      end
  end.

Definition consoleWarn (line : string) : M World unit :=
  modify (fun w => with_console (console w ++ [line]) w).

(** The [try] block of [processSyncJob] up to the point where the job
    and the account are stored as done (lines 22-249). *)
Definition processSyncJob_pass : M (World * nat) SyncResult :=
  inWorld (markJob [SyncJobStatus.PENDING] (SyncJob.set_running startTime)) ;;
  inWorld (Prisma.adAccount_update adAccountId
             (AdAccount.set_syncStatus SyncStatus.SYNCING)) ;;
  campaignMetrics <- inWorld (fetchCampaignPerformance connectionId customerId
                                dateFrom dateTo) ;;
  forEach campaignMetrics campaignRow ;;
  inWorld (Queue.updateProgress (QueueJob.id job) 50) ;;
  tryCatch
    (adGroupMetrics <- inWorld (fetchAdGroupPerformance connectionId customerId
                                  dateFrom dateTo) ;;
     forEach adGroupMetrics adGroupRow)
    (fun err => inWorld (consoleWarn "Failed to fetch ad group metrics:")) ;;
  inWorld (Queue.updateProgress (QueueJob.id job) 100) ;;
  let duration := endTime - startTime in
  totalRows <- gets snd ;;
  inWorld (markJob [SyncJobStatus.RUNNING]
             (SyncJob.set_completed endTime totalRows duration)) ;;
  inWorld (Prisma.adAccount_update adAccountId (AdAccount.set_synced endTime)) ;;
  ret (mkSyncResult totalRows (dateFrom, dateTo) duration).

(** The whole [try] block: the cache invalidation and the [return]
    follow, still inside it (lines 251-258). *)
Definition processSyncJob_try : M (World * nat) SyncResult :=
  result <- processSyncJob_pass ;;
  inWorld (Cache.delPattern adAccountId) ;;
  ret result.

(** The [catch] block (lines 259-284). *)
Definition processSyncJob_catch (error : JsError) : M World SyncResult :=
  let errorMessage := messageOr "Unknown error" error in
  markJob [SyncJobStatus.PENDING; SyncJobStatus.RUNNING]
    (SyncJob.set_failed endTime errorMessage) ;;
  Prisma.adAccount_update adAccountId (AdAccount.set_syncStatus SyncStatus.ERROR) ;;
  throw error.

Definition processSyncJob : M World SyncResult :=
  tryCatch
    (fun w => let '(r, s) := processSyncJob_try (w, O) in (r, fst s))
    processSyncJob_catch.

End ProcessSyncJob.

(** ** [splitDateRange] *)

Record DateChunk := mkChunk { from : string; to : string }.

(** The [while] loop, with the dates moved by [JsDate.addDays] (a zone of
    constant offset); [Zoned.splitLoop] is the loop in any zone.  [fuel]
    bounds the number of times its test is evaluated, and [None] means
    the bound was reached. *)
Fixpoint splitLoop (fuel : nat) (chunkStart end_ maxDaysPerChunk : Z)
    (chunks : list DateChunk) : option (list DateChunk) :=
  match fuel with
  | O => None
  | S fuel' =>
      if chunkStart <=? end_ then
        let chunkEnd := JsDate.addDays chunkStart (maxDaysPerChunk - 1) in
        let chunkEnd := if end_ <? chunkEnd then end_ else chunkEnd in
        splitLoop fuel' (JsDate.addDays chunkEnd 1) end_ maxDaysPerChunk
          (chunks ++ [ {| from := JsDate.toISODate chunkStart;
                          to := JsDate.toISODate chunkEnd |} ])
      else Some chunks
  end.

(** A comparison with an invalid date is false, so the loop is not
    entered when either string does not parse. *)
Definition splitDateRange (fuel : nat) (startDate endDate : string)
    (maxDaysPerChunk : Z) : option (list DateChunk) :=
  match JsDate.parseDate startDate, JsDate.parseDate endDate with
  | Some start, Some end_ => splitLoop fuel start end_ maxDaysPerChunk []
  | _, _ => Some []
  end.

(** *** Reading a list of chunks as day spans *)

(** The day numbers of the two ends of a chunk. *)
Definition chunkDays (c : DateChunk) : option (Z * Z) :=
  f ← JsDate.parseDate (from c); t ← JsDate.parseDate (to c);
  Some (JsDate.Day f, JsDate.Day t).

Definition inSpan (d : Z) (sp : Z * Z) : Prop := fst sp <= d <= snd sp.

(** Each span starts the day after the one before it ends. *)
Fixpoint contiguous (l : list (Z * Z)) : Prop :=
  match l with
  | x :: (y :: _) as tl => fst y = snd x + 1 /\ contiguous tl
  | _ => True
  end.

(** No day lies in two spans. *)
Definition nonOverlapping (l : list (Z * Z)) : Prop :=
  forall (i j : nat) x y d,
    i <> j -> l !! i = Some x -> l !! j = Some y ->
    ~ (inSpan d x /\ inSpan d y).

(** The days of the spans are exactly the days [a..b]. *)
Definition covers (l : list (Z * Z)) (a b : Z) : Prop :=
  forall d, (exists sp, In sp l /\ inSpan d sp) <-> a <= d <= b.

(** The spans the loop walks through, on day numbers. *)
Fixpoint daySpans (m : Z) (n : nat) (a b : Z) : list (Z * Z) :=
  match n with
  | O => []
  | S n' =>
      if a <=? b then
        let c := Z.min (a + m - 1) b in (a, c) :: daySpans m n' (c + 1) b
      else []
  end.

Definition fmtSpan (sp : Z * Z) : DateChunk :=
  mkChunk (JsDate.toISODate (fst sp * JsDate.msPerDay))
          (JsDate.toISODate (snd sp * JsDate.msPerDay)).

(** [tiling m b a l]: the spans of [l] cut the days [a..b] into
    consecutive pieces of at most [m] days. *)
Inductive tiling (m b : Z) : Z -> list (Z * Z) -> Prop :=
| tiling_done : tiling m b (b + 1) []
| tiling_step a c l :
    a <= c <= b -> c - a + 1 <= m -> tiling m b (c + 1) l ->
    tiling m b a ((a, c) :: l).


End SyncProcessor.

(* ===================================================================== *)
(** * Manual sync (api/routes/sync.ts, POST /api/sync/manual)             *)
(* ===================================================================== *)

Module SyncRoutes.

Record ManualSyncBody := mkBody {
  accountId : string;
  dateFrom : string;
  dateTo : string
}.

(** The request once [authenticate], [requireOrganization] and
    [requireAdmin] have let it through. *)
Record Request := mkRequest {
  userId : string;
  organizationId : string;
  body : ManualSyncBody
}.

Inductive Json :=
| ErrorJson (error : string) (jobId : option N)
| ValidationJson
| QueuedJson (id : N) (status : SyncJobStatus.t) (dateFrom dateTo : Z).

Record Response := mkResponse {
  status : Z;
  json : Json
}.

Definition isDigit (c : ascii) : bool :=
  match JsDate.digitVal c with Some _ => true | None => false end.

(** The pattern /^\d{4}-\d{2}-\d{2}$/ *)
Definition isDateOnly (s : string) : bool :=
  match s with
  | String y1 (String y2 (String y3 (String y4 (String h1
      (String m1 (String m2 (String h2 (String d1 (String d2 EmptyString))))))))) =>
      isDigit y1 && isDigit y2 && isDigit y3 && isDigit y4
      && Ascii.eqb h1 "-"%char && isDigit m1 && isDigit m2
      && Ascii.eqb h2 "-"%char && isDigit d1 && isDigit d2
  | _ => false
  end.

Definition recentWindow : Z := 5 * 60 * 1000.

(** The [where] of the "recent running job" query. *)
Definition isRecentJob (now : Z) (accountId : string) (j : SyncJob.t) : bool :=
  String.eqb (SyncJob.adAccountId j) accountId
  && SyncJob.nonTerminal j
  && (now - recentWindow <=? SyncJob.createdAt j).

Section Routes.

(** [z.string().uuid()] *)
Variable isUuid : string -> bool.

Definition manualSyncSchema_parse (b : ManualSyncBody) : M World ManualSyncBody :=
  if isUuid (accountId b) && isDateOnly (dateFrom b) && isDateOnly (dateTo b)
  then ret b
  else throw (ZodError "Validation failed").

(** [prisma.adAccount.findFirst] with [include: { connection: true }]. *)
Definition findAccount (id organizationId : string)
  : M World (option (AdAccount.t * option Connection.t)) :=
  gets (fun w =>
    match adAccounts w !! id with
    | Some a =>
        if String.eqb (AdAccount.organizationId a) organizationId
           && AdAccount.isEnabled a
        then Some (a, connections w !! AdAccount.connectionId a)
        else None
    | None => None
    end).

Definition isActive (c : Connection.t) : bool :=
  match Connection.status c with
  | ConnectionStatus.ACTIVE => true
  | _ => false
  end.

Definition manualSync_try (now : Z) (req : Request) : M World Response :=
  data <- manualSyncSchema_parse (body req) ;;
  account <- findAccount (accountId data) (organizationId req) ;;
  match account with
  | None => ret (mkResponse 404 (ErrorJson "Account not found" None))
  | Some (account, None) =>
      throw (ErrorObject "Cannot read properties of null (reading 'status')")
  | Some (account, Some connection) =>
      if negb (isActive connection) then
        ret (mkResponse 400
               (ErrorJson "Connection is not active. Please reconnect." None))
      else
        recentJob <- Prisma.syncJob_findFirst (isRecentJob now (accountId data)) ;;
        match recentJob with
        | Some recentJob =>
            ret (mkResponse 400
                   (ErrorJson "A sync is already in progress or queued"
                      (Some (SyncJob.id recentJob))))
        | None =>
            from <- Prisma.dateArg (dateFrom data) ;;
            to <- Prisma.dateArg (dateTo data) ;;
            syncJob <- Prisma.syncJob_create (fun i =>
              SyncJob.mk i (accountId data) "MANUAL_SYNC" SyncJobStatus.PENDING
                from to now None None None None) ;;
            Prisma.adAccount_update (accountId data)
              (AdAccount.set_syncStatus SyncStatus.SYNCING) ;;
            Queue.addSyncJob
              (SyncJobData.mk manual_sync (accountId data)
                 (AdAccount.connectionId account) (AdAccount.externalId account)
                 (dateFrom data) (dateTo data) (AdAccount.provider account)
                 (organizationId req) (Some (userId req)))
              None (Some 1) (Some (SyncJob.id syncJob)) ;;
            ret (mkResponse 201
                   (QueuedJson (SyncJob.id syncJob) (SyncJob.status syncJob)
                      (SyncJob.dateFrom syncJob) (SyncJob.dateTo syncJob)))
        end
  end.

(** The [catch] clause.  Its [console.error] before the 500 answer is
    not kept: the console of this handler is not looked at. *)
Definition manualSync_catch (error : JsError) : M World Response :=
  match error with
  | ZodError _ => ret (mkResponse 400 ValidationJson)
  | _ => ret (mkResponse 500 (ErrorJson "Failed to trigger sync" None))
  end.

Definition manualSync (now : Z) (req : Request) : M World Response :=
  tryCatch (manualSync_try now req) manualSync_catch.

End Routes.

(** *** The rule of the specification, for comparison *)

(** Two inclusive date ranges share a day. *)
Definition overlaps (from1 to1 from2 to2 : Z) : Prop :=
  from1 <= to2 /\ from2 <= to1.

(** A sync job of the account that is PENDING or RUNNING and whose range
    overlaps the requested window [from..to]. *)
Definition blockingJob (accountId : string) (from to : Z) (j : SyncJob.t) : Prop :=
  SyncJob.adAccountId j = accountId /\
  SyncJob.nonTerminal j = true /\
  overlaps (SyncJob.dateFrom j) (SyncJob.dateTo j) from to.

(** The request was turned down and left no trace: no new job row and no
    new queue entry. *)
Definition rejectedWithoutJob (w : World) (out : Result Response * World) : Prop :=
  (exists r, fst out = Ok r /\ status r <> 201) /\
  syncJobs (snd out) = syncJobs w /\
  syncQueue (snd out) = syncQueue w.

(** The rule as the specification words it: a non-terminal job of the
    account on an overlapping window makes the request fail. *)
Definition overlapRule (isUuid : string -> bool) (now : Z) (req : Request)
    (w : World) : Prop :=
  forall from to j,
    JsDate.parseDate (dateFrom (body req)) = Some from ->
    JsDate.parseDate (dateTo (body req)) = Some to ->
    In j (syncJobs w) ->
    blockingJob (accountId (body req)) from to j ->
    rejectedWithoutJob w (manualSync isUuid now req w).

End SyncRoutes.

(* ===================================================================== *)
(** * Concrete scenarios used below                                       *)
(* ===================================================================== *)

Module Scenario.

Definition emptyWorld : World :=
  mkWorld ∅ ∅ [] ∅ ∅ ∅ 0%N [] ∅ None ∅ None [].

Definition accountId : string := "7f3c1d2e-5a4b-4c6d-8e9f-0a1b2c3d4e5f".
Definition connectionId : string := "0b9a8c7d-6e5f-4a3b-9c2d-1e0f9a8b7c6d".
Definition organizationId : string := "5d4c3b2a-1f0e-4d9c-8b7a-6f5e4d3c2b1a".

Definition connection : Connection.t :=
  Connection.mk "enc:access" "enc:refresh" (Some 1704070800000) None
    ConnectionStatus.ACTIVE None.

Definition account : AdAccount.t :=
  AdAccount.mk organizationId connectionId "1234567890" GOOGLE_ADS true
    SyncStatus.SYNCED None.

(** ** A stale PENDING job on the requested window *)

(** 2024-01-01 and 2024-01-07, midnight UTC. *)
Definition jan01 : Z := 1704067200000.
Definition jan07 : Z := 1704585600000.

(** A job queued at 12:00 on 2024-01-08 and never picked up. *)
Definition staleJob : SyncJob.t :=
  SyncJob.mk 0 accountId "MANUAL_SYNC" SyncJobStatus.PENDING jan01 jan07
    1704715200000 None None None None.

Definition staleWorld : World :=
  mkWorld {[ connectionId := connection ]} {[ accountId := account ]}
    [staleJob] ∅ ∅ ∅ 1%N [] ∅ None ∅ None [].

(** The same window requested again ten minutes later. *)
Definition tenMinutesLater : Z := 1704715800000.

Definition request : SyncRoutes.Request :=
  SyncRoutes.mkRequest "c1b2a3d4-0000-4000-8000-000000000001" organizationId
    (SyncRoutes.mkBody accountId "2024-01-01" "2024-01-07").

(** Eight, four, four, four and twelve hexadecimal digits: a shape every
    version of the validator's UUID check asks for. *)
Definition isHex (c : ascii) : bool :=
  let n := nat_of_ascii c in
  ((48 <=? n) && (n <=? 57) || (65 <=? n) && (n <=? 70)
   || (97 <=? n) && (n <=? 102))%nat.

Fixpoint hexGroups (groups : list nat) (s : string) : bool :=
  match groups with
  | [] => match s with EmptyString => true | _ => false end
  | O :: groups' =>
      match groups', s with
      | [], EmptyString => true
      | _ :: _, String c s' => Ascii.eqb c "-"%char && hexGroups groups' s'
      | _, _ => false
      end
  | S n :: groups' =>
      match s with
      | String c s' => isHex c && hexGroups (n :: groups') s'
      | EmptyString => false
      end
  end.

Definition isUuid (s : string) : bool := hexGroups [8; 4; 4; 4; 12]%nat s.

(** ** A sync whose cache invalidation fails *)

Definition pendingJob : SyncJob.t :=
  SyncJob.mk 0 accountId "DAILY_SYNC" SyncJobStatus.PENDING jan01 jan01
    1704153600000 None None None None.

Definition cacheDown : JsError := ErrorObject "Connection is closed.".

Definition cacheDownWorld : World :=
  mkWorld {[ connectionId := connection ]} {[ accountId := account ]}
    [pendingJob] ∅ ∅ ∅ 1%N [] ∅ None
    {[ "metrics:" +:+ organizationId +:+ ":{}" := "[]" ]}
    (Some cacheDown) [].

Definition queueJob : QueueJob.t :=
  QueueJob.mk 0
    (SyncJobData.mk sync_account_daily accountId connectionId "1234567890"
       "2024-01-01" "2024-01-01" GOOGLE_ADS organizationId None)
    None None.

(** One campaign row (impressions 100, clicks 5) and no ad-group rows. *)
Definition campaignRows : list GoogleAds.Metrics.t :=
  [ GoogleAds.Metrics.mk "2024-01-01" "1234567890" "111" "Brand" None None None
      100 5 (5 # 2) 1 20 ].

Definition fetchCampaigns (_ _ _ _ : string) : M World (list GoogleAds.Metrics.t) :=
  ret campaignRows.

Definition fetchNoAdGroups (_ _ _ _ : string) : M World (list GoogleAds.Metrics.t) :=
  ret [].

(** ** A connection whose refresh token was revoked *)

Definition noCrypt (s : string) : Result string := Ok s.

Definition revoked (_ : string) : Result (option string * option Z) :=
  Throw (ErrorObject "invalid_grant").

Definition noRows (_ _ _ _ : string) : Result (list unit) := Ok [].

Definition vaultWorld : World :=
  mkWorld {[ connectionId := connection ]} ∅ [] ∅ ∅ ∅ 0%N [] ∅ None ∅ None [].

End Scenario.

(* ===================================================================== *)
(** * Dates on local time                                                 *)
(* ===================================================================== *)

(** [getDate] and [setDate] work on the local time of the process, while
    [new Date("YYYY-MM-DD")] and [toISOString] work on UTC, and a [Date]
    whose time value leaves the range of 10^8 days around the epoch is
    invalid.  This module has the three of them as the language definition
    gives them, for any time zone, and with them [splitDateRange] once
    more, for a process in that zone. *)

Module Zoned.

(** The time zone of the process: the offset of local time from UTC, in
    milliseconds, at a UTC time value ([LocalTZA(t, true)]) and at a
    local time value ([LocalTZA(t, false)]). *)
Record Zone := mkZone {
  offsetOfUTC : Z -> Z;
  offsetOfLocal : Z -> Z
}.

(** A zone without daylight saving. *)
Definition fixed (offset : Z) : Zone :=
  mkZone (fun _ => offset) (fun _ => offset).

Definition utc : Zone := fixed 0.

(** America/New_York for the time values of 2024: UTC-5 until
    2024-03-10T07:00Z, UTC-4 until 2024-11-03T06:00Z, UTC-5 after.  A
    local time that is skipped or repeated is read with the offset in
    force before the change. *)
Definition newYork2024 : Zone :=
  mkZone
    (fun t => if t <? 1710054000000 then -18000000
              else if t <? 1730613600000 then -14400000
              else -18000000)
    (fun local => if local <? 1710039600000 then -18000000
                  else if local <? 1730599200000 then -14400000
                  else -18000000).

Definition LocalTime (zone : Zone) (t : Z) : Z := t + offsetOfUTC zone t.

Definition UTC (zone : Zone) (local : Z) : Z := local - offsetOfLocal zone local.

Definition TimeWithinDay (t : Z) : Z := t mod JsDate.msPerDay.

Definition maxTime : Z := 8640000000000000.

(** [TimeClip]; [None] is NaN, the time value of an invalid [Date]. *)
Definition TimeClip (t : Z) : option Z :=
  if Z.abs t <=? maxTime then Some t else None.

(** [d.getDate()] *)
Definition getDate (zone : Zone) (t : Z) : Z :=
  JsDate.DateFromDay (JsDate.Day (LocalTime zone t)).

(** [d.setDate(date)]: the new time value of [d]. *)
Definition setDate (zone : Zone) (t date : Z) : option Z :=
  let local := LocalTime zone t in
  let day := JsDate.MakeDay (JsDate.YearFromDay (JsDate.Day local))
               (JsDate.MonthFromDay (JsDate.Day local)) date in
  TimeClip (UTC zone (day * JsDate.msPerDay + TimeWithinDay local)).

(** [d.setDate(d.getDate() + k)] *)
Definition addDays (zone : Zone) (t k : Z) : option Z :=
  setDate zone t (getDate zone t + k).

Definition invalidTime : JsError := ErrorObject "Invalid time value".

(** The [while] loop of [splitDateRange].  [chunkStart] is a [Date] that
    may be invalid; [maxDaysPerChunk] is a whole number of days.  A
    comparison with an invalid date is false, and [toISOString] of one
    throws a RangeError.  [fuel] bounds the number of times the test is
    evaluated, and [None] means the bound was reached. *)
Fixpoint splitLoop (zone : Zone) (fuel : nat) (chunkStart : option Z)
    (end_ maxDaysPerChunk : Z) (chunks : list SyncProcessor.DateChunk)
  : option (Result (list SyncProcessor.DateChunk)) :=
  match fuel with
  | O => None
  | S fuel' =>
      match chunkStart with
      | Some start =>
          if start <=? end_ then
            match addDays zone start (maxDaysPerChunk - 1) with
            | Some chunkEnd =>
                let chunkEnd := if end_ <? chunkEnd then end_ else chunkEnd in
                splitLoop zone fuel' (addDays zone chunkEnd 1) end_ maxDaysPerChunk
                  (chunks ++ [ SyncProcessor.mkChunk (JsDate.toISODate start)
                                 (JsDate.toISODate chunkEnd) ])
            | None => Some (Throw invalidTime)
            end
          else Some (Ok chunks)
      | None => Some (Ok chunks)
      end
  end.

Definition splitDateRange (zone : Zone) (fuel : nat) (startDate endDate : string)
    (maxDaysPerChunk : Z) : option (Result (list SyncProcessor.DateChunk)) :=
  match JsDate.parseDate startDate, JsDate.parseDate endDate with
  | Some start, Some end_ => splitLoop zone fuel (Some start) end_ maxDaysPerChunk []
  | _, _ => Some (Ok [])
  end.

(** The largest chunk size for which no date of the loop leaves the
    range of [Date], for date strings of the years 0 to 9999. *)
Definition maxChunkDays : Z := 90000000.

End Zoned.

(* ===================================================================== *)
(** * Further operations of the same modules                              *)
(* ===================================================================== *)

(** ** Calls of the limiter over time, and [waitForToken]
       (src/lib/redis.ts) *)

Module RateLimiterCalls.

(** One [tryAcquire] per clock reading of [times], in that order. *)
Fixpoint tryAcquireAt (l : RateLimiter.t) (tokens : Q) (times : list Z)
    (redis : gmap string Q) : list bool * gmap string Q :=
  match times with
  | [] => ([], redis)
  | t :: times' =>
      let '(r, redis1) := RateLimiter.tryAcquire l tokens t redis in
      let '(rs, redis2) := tryAcquireAt l tokens times' redis1 in
      (r :: rs, redis2)
  end.

(** The clock does not go back. *)
Fixpoint ascending (times : list Z) : Prop :=
  match times with
  | t :: (t' :: _) as rest => t <= t' /\ ascending rest
  | _ => True
  end.

(** A bucket as the script leaves it, seen at time [t]: the stored count
    is within the capacity and the stored update is not after [t]. *)
Definition settled (l : RateLimiter.t) (t : Z) (redis : gmap string Q) : Prop :=
  RateLimiter.bucket_ok l redis /\ RateLimiter.notAhead l t redis.

(** The loop of [waitForToken].  [clock] holds the readings of
    [Date.now()] still to come: one for each test of the loop and one
    inside each [tryAcquire]; [None] means that the readings ran out
    before the loop ended. *)
Fixpoint waitLoop (l : RateLimiter.t) (tokens : Q) (maxWaitMs startTime : Z)
    (clock : list Z) (redis : gmap string Q) : option (bool * gmap string Q) :=
  match clock with
  | tTest :: tCall :: clock' =>
      if tTest - startTime <? maxWaitMs then
        let '(ok, redis1) := RateLimiter.tryAcquire l tokens tCall redis in
        if ok then Some (true, redis1)
        else waitLoop l tokens maxWaitMs startTime clock' redis1
      else Some (false, redis)
  | [tTest] =>
      if tTest - startTime <? maxWaitMs then None else Some (false, redis)
  | [] => None
  end.

(** [waitForToken(tokens, maxWaitMs)]; the first reading is [startTime]. *)
Definition waitForToken (l : RateLimiter.t) (tokens : Q) (maxWaitMs : Z)
    (clock : list Z) (redis : gmap string Q) : option (bool * gmap string Q) :=
  match clock with
  | startTime :: clock' => waitLoop l tokens maxWaitMs startTime clock' redis
  | [] => None
  end.

End RateLimiterCalls.

(** ** What a computation leaves alone *)

Module Frame.

(** Every run of [c] takes a state to one related to it by [R]. *)
Definition keeps {St A} (R : St -> St -> Prop) (c : M St A) : Prop :=
  forall s, R s (snd (c s)).

(** A job row and its later version: the identifying columns are the
    same, and a row that was COMPLETED, FAILED or CANCELLED is the same
    row. *)
Definition sameJob (j j' : SyncJob.t) : Prop :=
  SyncJob.id j' = SyncJob.id j /\
  SyncJob.adAccountId j' = SyncJob.adAccountId j /\
  SyncJob.jobType j' = SyncJob.jobType j /\
  SyncJob.dateFrom j' = SyncJob.dateFrom j /\
  SyncJob.dateTo j' = SyncJob.dateTo j /\
  SyncJob.createdAt j' = SyncJob.createdAt j /\
  (SyncJob.nonTerminal j = false -> j' = j).

Definition jobsKept (w w' : World) : Prop :=
  Forall2 sameJob (syncJobs w) (syncJobs w').

(** The accounts other than [acct] and the queue are as they were. *)
Definition othersKept (acct : string) (w w' : World) : Prop :=
  (forall id, id <> acct -> adAccounts w' !! id = adAccounts w !! id) /\
  syncQueue w' = syncQueue w.

(** No campaign, ad group or fact row is lost, and a row keeps its
    primary key; campaigns and ad groups also keep their status, and ad
    groups their campaign. *)
Definition rowsKept (w w' : World) : Prop :=
  (forall k c, campaigns w !! k = Some c ->
     exists c', campaigns w' !! k = Some c' /\
                Campaign.id c' = Campaign.id c /\
                Campaign.status c' = Campaign.status c) /\
  (forall k g, adGroups w !! k = Some g ->
     exists g', adGroups w' !! k = Some g' /\
                AdGroup.id g' = AdGroup.id g /\
                AdGroup.campaignId g' = AdGroup.campaignId g /\
                AdGroup.status g' = AdGroup.status g) /\
  (forall k r, metricsFacts w !! k = Some r ->
     exists r', metricsFacts w' !! k = Some r' /\
                MetricsFact.id r' = MetricsFact.id r).

Definition syncFrame (acct : string) (w w' : World) : Prop :=
  jobsKept w w' /\ othersKept acct w w' /\ rowsKept w w'.

(** A relation on worlds, read on the handler's state (the world and its
    row counter). *)
Definition onWorld (R : World -> World -> Prop) (s s' : World * nat) : Prop :=
  R (fst s) (fst s').

(** Nothing differs but the connection row [id]. *)
Definition connectionOnly (id : string) (w w' : World) : Prop :=
  with_connections (connections w) w' = w /\
  forall k, k <> id -> connections w' !! k = connections w !! k.

(** Nothing differs but the campaign, ad-group and fact tables and the
    key generator. *)
Definition warehouseOnly (w w' : World) : Prop :=
  with_campaigns (campaigns w)
    (with_adGroups (adGroups w)
       (with_metricsFacts (metricsFacts w) (with_nextId (nextId w) w'))) = w.

End Frame.

(** ** Two more handlers of the REST layer: DELETE /api/sync/jobs/:id and
       DELETE /api/accounts/:id *)

Module AdminRoutes.

Inductive Json :=
| ErrorJson (error : string)
| SuccessJson (message : option string).

Record Response := mkResponse {
  status : Z;
  json : Json
}.

Definition consoleError (line : string) : M World unit :=
  modify (fun w => with_console (console w ++ [line]) w).

(** The [data] of the cancelling update. *)
Definition cancelled (now : Z) (j : SyncJob.t) : SyncJob.t :=
  SyncJob.mk (SyncJob.id j) (SyncJob.adAccountId j) (SyncJob.jobType j)
    SyncJobStatus.CANCELLED (SyncJob.dateFrom j) (SyncJob.dateTo j)
    (SyncJob.createdAt j) (SyncJob.startedAt j) (Some now)
    (SyncJob.errorMessage j) (SyncJob.metrics j).

(** The [where] of the lookup: the id, an account of the caller's
    organization, and a status of PENDING or RUNNING. *)
Definition cancellable (w : World) (id : N) (organizationId : string)
    (j : SyncJob.t) : bool :=
  N.eqb (SyncJob.id j) id
  && match adAccounts w !! SyncJob.adAccountId j with
     | Some a => String.eqb (AdAccount.organizationId a) organizationId
     | None => false
     end
  && SyncJob.nonTerminal j.

(** [prisma.syncJob.update] by primary key. *)
Definition syncJob_update (id : N) (data_ : SyncJob.t -> SyncJob.t) : M World unit :=
  fun w =>
    if existsb (fun j => N.eqb (SyncJob.id j) id) (syncJobs w) then
      (Ok tt,
       with_syncJobs
         (map (fun j => if N.eqb (SyncJob.id j) id then data_ j else j) (syncJobs w))
         w)
    else (Throw (ErrorObject "Record to update not found."), w).

(** DELETE /api/sync/jobs/:id for a caller of [organizationId]. *)
Definition cancelJob (now : Z) (organizationId : string) (id : N) : M World Response :=
  tryCatch
    (job <- (fun w => Prisma.syncJob_findFirst (cancellable w id organizationId) w) ;;
     match job with
     | None => ret (mkResponse 404 (ErrorJson "Job not found or already completed"))
     | Some job =>
         syncJob_update (SyncJob.id job) (cancelled now) ;;
         ret (mkResponse 200 (SuccessJson (Some "Job cancelled")))
     end)
    (fun error =>
       consoleError "Cancel job error:" ;;
       ret (mkResponse 500 (ErrorJson "Failed to cancel job"))).

Definition set_isEnabled (b : bool) (a : AdAccount.t) : AdAccount.t :=
  AdAccount.mk (AdAccount.organizationId a) (AdAccount.connectionId a)
    (AdAccount.externalId a) (AdAccount.provider a) b
    (AdAccount.syncStatus a) (AdAccount.lastSyncedAt a).

(** DELETE /api/accounts/:id for a caller of [organizationId]: the
    account is disabled, not removed. *)
Definition deleteAccount (organizationId id : string) : M World Response :=
  tryCatch
    (account <- gets (fun w =>
       match adAccounts w !! id with
       | Some a =>
           if String.eqb (AdAccount.organizationId a) organizationId
           then Some a else None
       | None => None
       end) ;;
     match account with
     | None => ret (mkResponse 404 (ErrorJson "Account not found"))
     | Some _ =>
         Prisma.adAccount_update id (set_isEnabled false) ;;
         ret (mkResponse 200 (SuccessJson None))
     end)
    (fun error =>
       consoleError "Delete account error:" ;;
       ret (mkResponse 500 (ErrorJson "Failed to delete account"))).

End AdminRoutes.

(** ** Scheduling (lib/queue.ts and the scheduler) *)

Module Schedule.

(** [(d: Date) => d.toISOString().split('T')[0]] *)
Definition formatDate (d : Z) : string := JsDate.toISODate d.

(** [scheduleDailySyncForAccount(account)] at clock reading [now], in a
    process of time zone [zone].  The task's fields are evaluated in
    order, so [formatDate] of an invalid date throws before the queue is
    called. *)
Definition scheduleDailySyncForAccount (zone : Zoned.Zone) (now : Z) (id : string)
    (account : AdAccount.t) : M World unit :=
  let today := now in
  match Zoned.addDays zone today (-1) with
  | Some yesterday =>
      Queue.addSyncJob
        (SyncJobData.mk sync_account_daily id (AdAccount.connectionId account)
           (AdAccount.externalId account) (formatDate yesterday) (formatDate today)
           (AdAccount.provider account) (AdAccount.organizationId account) None)
        None None None
  | None => throw Zoned.invalidTime
  end.

(** [scheduleInitialSync(account, daysBack)] at clock reading [now]. *)
Definition scheduleInitialSync (zone : Zoned.Zone) (now : Z) (id : string)
    (account : AdAccount.t) (daysBack : Z) : M World unit :=
  let today := now in
  match Zoned.addDays zone today (- daysBack) with
  | Some startDate =>
      Queue.addSyncJob
        (SyncJobData.mk backfill_range id (AdAccount.connectionId account)
           (AdAccount.externalId account) (formatDate startDate) (formatDate today)
           (AdAccount.provider account) (AdAccount.organizationId account) None)
        None None None
  | None => throw Zoned.invalidTime
  end.

(** The accounts [triggerIntradaySync] works on: enabled, with a
    connection that is ACTIVE. *)
Definition eligible (w : World) (a : AdAccount.t) : bool :=
  AdAccount.isEnabled a
  && match connections w !! AdAccount.connectionId a with
     | Some c => SyncRoutes.isActive c
     | None => false
     end.

(** [prisma.adAccount.findMany] of the scheduler.  [storeError] is the
    error with which the store rejects the query, if it does. *)
Definition findEligible (storeError : option JsError)
  : M World (list (string * AdAccount.t)) :=
  match storeError with
  | Some e => throw e
  | None =>
      gets (fun w => List.filter (fun kv => eligible w (snd kv))
                       (map_to_list (adAccounts w)))
  end.

Definition consoleLog (line : string) : M World unit :=
  modify (fun w => with_console (console w ++ [line]) w).

Definition intradayJob (todayStr : string) (kv : string * AdAccount.t)
  : SyncJobData.t :=
  SyncJobData.mk sync_account_intraday (fst kv)
    (AdAccount.connectionId (snd kv)) (AdAccount.externalId (snd kv))
    todayStr todayStr (AdAccount.provider (snd kv))
    (AdAccount.organizationId (snd kv)) None.

(** [triggerIntradaySync()] at clock reading [now].  The query for the
    accounts is awaited outside any [try]; each [addSyncJob] is inside
    one.  (The line logged for an account that could not be queued also
    names the account and the error; the console keeps its fixed part.) *)
Definition triggerIntradaySync (storeError : option JsError) (now : Z)
  : M World unit :=
  consoleLog "Triggering intraday sync..." ;;
  accounts <- findEligible storeError ;;
  let todayStr := formatDate now in
  forEach accounts (fun kv =>
    tryCatch
      (Queue.addSyncJob (intradayJob todayStr kv) None None None)
      (fun error => consoleLog "Failed to queue intraday sync for account")).

End Schedule.

(** ** The two fetches and the rate-limited query (lib/google-ads.ts) *)

Module Fetch.

Definition nl : string := String (Ascii.ascii_of_nat 10) "".

Definition lines (l : list string) : string :=
  fold_right (fun line rest => line +:+ nl +:+ rest) "" l.

(** The query text of [fetchCampaignPerformance]. *)
Definition campaignQuery (startDate endDate : string) : string :=
  nl +:+ lines
    [ "    SELECT";
      "      segments.date,";
      "      customer.id,";
      "      campaign.id,";
      "      campaign.name,";
      "      campaign.status,";
      "      metrics.impressions,";
      "      metrics.clicks,";
      "      metrics.cost_micros,";
      "      metrics.conversions,";
      "      metrics.conversions_value";
      "    FROM campaign";
      "    WHERE segments.date BETWEEN '" +:+ startDate +:+ "' AND '"
        +:+ endDate +:+ "'";
      "    ORDER BY segments.date DESC" ] +:+ "  ".

(** The query text of [fetchAdGroupPerformance]. *)
Definition adGroupQuery (startDate endDate : string) : string :=
  nl +:+ lines
    [ "    SELECT";
      "      segments.date,";
      "      customer.id,";
      "      campaign.id,";
      "      campaign.name,";
      "      ad_group.id,";
      "      ad_group.name,";
      "      ad_group.status,";
      "      metrics.impressions,";
      "      metrics.clicks,";
      "      metrics.cost_micros,";
      "      metrics.conversions,";
      "      metrics.conversions_value";
      "    FROM ad_group";
      "    WHERE segments.date BETWEEN '" +:+ startDate +:+ "' AND '"
        +:+ endDate +:+ "'";
      "    ORDER BY segments.date DESC" ] +:+ "  ".

Section Fetches.

Variable decrypt encrypt : string -> Result string.
Variable oauthRefresh : string -> Result (option string * option Z).
Variable Row : Type.
Variable searchStream : string -> string -> string -> string -> Result (list Row).

(** What [results.map] makes of one row of the response in each of the
    two fetches (the fields read and the numbers parsed). *)
Variable campaignMetrics adGroupMetrics : Row -> GoogleAds.Metrics.t.

Variable developerToken : option string.

(** [fetchCampaignPerformance]; [canProceed] is what the rate limiter
    answered to its query and [now] the clock when the token is checked. *)
Definition fetchCampaignPerformance (canProceed : bool) (now : Z)
    (connectionId customerId startDate endDate : string)
  : M World (list GoogleAds.Metrics.t) :=
  results <- GoogleAds.queryGoogleAds decrypt encrypt oauthRefresh Row searchStream
               canProceed developerToken now connectionId customerId
               (campaignQuery startDate endDate) ;;
  ret (map campaignMetrics results).

(** [fetchAdGroupPerformance] *)
Definition fetchAdGroupPerformance (canProceed : bool) (now : Z)
    (connectionId customerId startDate endDate : string)
  : M World (list GoogleAds.Metrics.t) :=
  results <- GoogleAds.queryGoogleAds decrypt encrypt oauthRefresh Row searchStream
               canProceed developerToken now connectionId customerId
               (adGroupQuery startDate endDate) ;;
  ret (map adGroupMetrics results).

(** [queryGoogleAds] with its call of the rate limiter, on the store and
    the numeric keys of Redis together.  [clock] holds the readings of
    [Date.now()] that [waitForToken(1, 30000)] makes, and [now] the one
    of [getValidAccessToken]; [None] means that the readings ran out
    before [waitForToken] ended. *)
Definition queryGoogleAdsLimited (clock : list Z) (now : Z)
    (connectionId customerId query : string) (s : World * gmap string Q)
  : option (Result (list Row) * (World * gmap string Q)) :=
  match RateLimiterCalls.waitForToken googleAdsRateLimiter 1 30000 clock (snd s) with
  | Some (canProceed, redis) =>
      let '(r, w) := GoogleAds.queryGoogleAds decrypt encrypt oauthRefresh Row
                       searchStream canProceed developerToken now connectionId
                       customerId query (fst s) in
      Some (r, (w, redis))
  | None => None
  end.

End Fetches.

End Fetch.


(* ===================================================================== *)
(** * More concrete cases                                                 *)
(* ===================================================================== *)

Module Cases.

(** A cache with one entry computed for the account of [Scenario] and one
    computed for the whole organization. *)
Definition accountKey : string :=
  "metrics:" +:+ Scenario.organizationId +:+ ":accountIds=" +:+ Scenario.accountId.

Definition organizationKey : string :=
  "metrics:" +:+ Scenario.organizationId +:+ ":all".

Definition cachedWorld : World :=
  mkWorld {[ Scenario.connectionId := Scenario.connection ]}
    {[ Scenario.accountId := Scenario.account ]}
    [Scenario.pendingJob] ∅ ∅ ∅ 1%N [] ∅ None
    (<[ accountKey := "[1]" ]> {[ organizationKey := "[2]" ]})
    None [].

(** A provider that renews the access token until 02:00 on 2024-01-01. *)
Definition renewed (_ : string) : Result (option string * option Z) :=
  Ok (Some "ya29.renewed", Some 1704074400000).

(** A key under which the stored refresh token no longer authenticates. *)
Definition refreshUnreadable (s : string) : Result string :=
  if String.eqb s "enc:refresh"
  then Throw (ErrorObject "Unsupported state or unable to authenticate data")
  else Ok s.

(** The account of another organization. *)
Definition otherOrganization : string := "9e8d7c6b-5a49-4838-a727-161514131211".

(** The queue's connection is down. *)
Definition queueDown : JsError := ErrorObject "Connection is closed.".

Definition queueDownWorld : World :=
  mkWorld {[ Scenario.connectionId := Scenario.connection ]}
    {[ Scenario.accountId := Scenario.account ]}
    [] ∅ ∅ ∅ 0%N [] ∅ (Some queueDown) ∅ None [].

(** An account, its active connection, and nothing else. *)
Definition quietWorld : World :=
  mkWorld {[ Scenario.connectionId := Scenario.connection ]}
    {[ Scenario.accountId := Scenario.account ]}
    [] ∅ ∅ ∅ 0%N [] ∅ None ∅ None [].

(** A campaign fetch that fails as the API does on a revoked grant. *)
Definition fetchFails (_ _ _ _ : string) : M World (list GoogleAds.Metrics.t) :=
  throw (ErrorObject "Google Ads API error: UNAUTHENTICATED").

(** An ad-group row of a campaign that is not in the warehouse, and one
    without an ad-group id. *)
Definition orphanRow : GoogleAds.Metrics.t :=
  GoogleAds.Metrics.mk "2024-01-01" "1234567890" "999" "Gone"
    (Some "77") (Some "Group") None 10 1 1 0 0.

Definition unnamedRow : GoogleAds.Metrics.t :=
  GoogleAds.Metrics.mk "2024-01-01" "1234567890" "111" "Brand"
    None None None 10 1 1 0 0.

(** A sync during which the access token comes within five minutes of
    its expiry: the campaign fetch, at 00:00, finds it good; the ad-group
    fetch, at 00:58:20, has to refresh it, and the grant was revoked.
    The API answers with no rows. *)
Definition noMetrics (_ : unit) : GoogleAds.Metrics.t := unnamedRow.

Definition fetchCampaignsEarly : string -> string -> string -> string ->
    M World (list GoogleAds.Metrics.t) :=
  Fetch.fetchCampaignPerformance Scenario.noCrypt Scenario.noCrypt Scenario.revoked
    unit Scenario.noRows noMetrics (Some "dev-token") true 1704067200000.

Definition fetchAdGroupsLate : string -> string -> string -> string ->
    M World (list GoogleAds.Metrics.t) :=
  Fetch.fetchAdGroupPerformance Scenario.noCrypt Scenario.noCrypt Scenario.revoked
    unit Scenario.noRows noMetrics (Some "dev-token") true 1704070700000.

(** The job of that sync, queued just before midnight, and its world. *)
Definition expiringJob : SyncJob.t :=
  SyncJob.mk 0 Scenario.accountId "DAILY_SYNC" SyncJobStatus.PENDING
    Scenario.jan01 Scenario.jan01 1704067100000 None None None None.

Definition expiringWorld : World :=
  mkWorld {[ Scenario.connectionId := Scenario.connection ]}
    {[ Scenario.accountId := Scenario.account ]}
    [expiringJob] ∅ ∅ ∅ 1%N [] ∅ None ∅ None [].

(** The chunks of 2024 at 30 days per chunk in a process on New York
    time. *)
Definition chunks_2024_newYork : list SyncProcessor.DateChunk :=
  [ SyncProcessor.mkChunk "2024-01-01" "2024-01-30";
    SyncProcessor.mkChunk "2024-01-31" "2024-02-29";
    SyncProcessor.mkChunk "2024-03-01" "2024-03-29";
    SyncProcessor.mkChunk "2024-03-30" "2024-04-28";
    SyncProcessor.mkChunk "2024-04-29" "2024-05-28";
    SyncProcessor.mkChunk "2024-05-29" "2024-06-27";
    SyncProcessor.mkChunk "2024-06-28" "2024-07-27";
    SyncProcessor.mkChunk "2024-07-28" "2024-08-26";
    SyncProcessor.mkChunk "2024-08-27" "2024-09-25";
    SyncProcessor.mkChunk "2024-09-26" "2024-10-25";
    SyncProcessor.mkChunk "2024-10-26" "2024-11-25";
    SyncProcessor.mkChunk "2024-11-26" "2024-12-25";
    SyncProcessor.mkChunk "2024-12-26" "2024-12-31" ].

End Cases.

(* ===================================================================== *)
(** * Properties                                                          *)
(* ===================================================================== *)

(** ** Token bucket *)

Section RateLimiterFacts.
Import RateLimiter.
Variable l : RateLimiter.t.

Lemma append_length (a b : string) :
  String.length (a +:+ b) = (String.length a + String.length b)%nat.
Proof. induction a as [|c a IH]; simpl; [reflexivity | now rewrite IH]. Qed.

Lemma keys_distinct : bucketKey l <> lastUpdateKey l.
Proof.
  unfold lastUpdateKey, bucketKey. intros E.
  apply (f_equal String.length) in E. rewrite append_length in E.
  simpl in E. lia.
Qed.

Lemma refill_le_max now redis : (refill l now redis <= maxTokens l)%Q.
Proof. unfold refill. apply Q.le_min_l. Qed.

Lemma tryAcquire_true tokens now redis :
  Qle_bool tokens (refill l (inject_Z now) redis) = true ->
  tryAcquire l tokens now redis =
    (true, <[lastUpdateKey l := inject_Z now]>
             (<[bucketKey l := (refill l (inject_Z now) redis - tokens)%Q]> redis)).
Proof. intros H. unfold tryAcquire. now rewrite H. Qed.

Lemma tryAcquire_false tokens now redis :
  Qle_bool tokens (refill l (inject_Z now) redis) = false ->
  tryAcquire l tokens now redis = (false, redis).
Proof. intros H. unfold tryAcquire. now rewrite H. Qed.

Lemma lookup_bucket_after v w (redis : Redis) :
  (<[lastUpdateKey l := w]> (<[bucketKey l := v]> redis)) !! bucketKey l = Some v.
Proof.
  rewrite lookup_insert_ne by (intros E; symmetry in E; now apply keys_distinct).
  apply lookup_insert_eq.
Qed.

(** With no time elapsed the refill adds nothing: the available count is
    the stored one (when that is within capacity). *)
Lemma refill_fresh now (redis : Redis) tk lu :
  redis !! bucketKey l = Some tk ->
  redis !! lastUpdateKey l = Some lu ->
  (lu == inject_Z now)%Q ->
  (tk <= maxTokens l)%Q ->
  (refill l (inject_Z now) redis == tk)%Q.
Proof.
  intros Hb Hl Hlu Hle. unfold refill. rewrite Hb, Hl. simpl.
  assert (E : (tk + (inject_Z now - lu) / 1000 * refillRate l == tk)%Q).
  { rewrite Hlu. field. }
  rewrite E. apply Q.min_r. exact Hle.
Qed.

Lemma storedFull_fullAt now (redis : Redis) :
  (0 <= refillRate l)%Q ->
  storedFull l redis -> notAhead l now redis -> fullAt l now redis.
Proof.
  unfold storedFull, notAhead, fullAt, refill. intros Hrate Hf Hz.
  assert (E : forall tk lu, (tk == maxTokens l)%Q -> (lu <= inject_Z now)%Q ->
     (Qmin (maxTokens l) (tk + (inject_Z now - lu) / 1000 * refillRate l)
      == maxTokens l)%Q).
  { intros tk lu Ht Hl. apply Q.min_l. rewrite Ht.
    assert (0 <= (inject_Z now - lu) / 1000 * refillRate l)%Q; [|lra].
    apply Qmult_le_0_compat; [|exact Hrate].
    apply Qle_shift_div_l; lra. }
  destruct (redis !! bucketKey l) as [tk|], (redis !! lastUpdateKey l) as [lu|];
    simpl; apply E; try assumption; try reflexivity; apply Qle_refl.
Qed.

(** One successful call at an unchanged clock lowers the available count
    by exactly the cost. *)
Lemma refill_after_acquire tokens now (redis : Redis) :
  (0 <= tokens)%Q ->
  (refill l (inject_Z now)
     (<[lastUpdateKey l := inject_Z now]>
        (<[bucketKey l := (refill l (inject_Z now) redis - tokens)%Q]> redis))
   == refill l (inject_Z now) redis - tokens)%Q.
Proof.
  intros Hc.
  apply refill_fresh with (lu := inject_Z now).
  - apply lookup_bucket_after.
  - apply lookup_insert_eq.
  - reflexivity.
  - pose proof (refill_le_max (inject_Z now) redis). lra.
Qed.

(** [j] tokens available and no time passing: the next [j] calls succeed
    and the [k] after them fail. *)
Lemma tryAcquireN_drain now : forall (j k : nat) (redis : Redis),
  (refill l (inject_Z now) redis == inject_Z (Z.of_nat j))%Q ->
  fst (tryAcquireN l 1 now (j + k) redis) = repeat true j ++ repeat false k /\
  (refill l (inject_Z now) (snd (tryAcquireN l 1 now (j + k) redis)) == 0)%Q.
Proof.
  induction j as [|j IH]; intros k redis Hr.
  - simpl. induction k as [|k IHk]; simpl.
    + split; [reflexivity | exact Hr].
    + rewrite tryAcquire_false.
      * destruct (tryAcquireN l 1 now k redis) as [rs r2] eqn:E.
        simpl in *. destruct IHk as [IH1 IH2]. split; [now rewrite IH1 | exact IH2].
      * destruct (Qle_bool 1 (refill l (inject_Z now) redis)) eqn:E; [|reflexivity].
        apply Qle_bool_iff in E. change (inject_Z (Z.of_nat 0)) with 0%Q in Hr.
        rewrite Hr in E. lra.
  - cbn [Nat.add tryAcquireN].
    rewrite tryAcquire_true.
    + specialize (IH k (<[lastUpdateKey l := inject_Z now]>
         (<[bucketKey l := (refill l (inject_Z now) redis - 1)%Q]> redis))).
      destruct (tryAcquireN l 1 now (j + k) _) as [rs r2] eqn:E.
      simpl in *. destruct IH as [IH1 IH2].
      * rewrite refill_after_acquire by lra. rewrite Hr.
        rewrite Nat2Z.inj_succ. unfold Z.succ. rewrite inject_Z_plus.
        change (inject_Z 1) with 1%Q. lra.
      * split; [now rewrite IH1 | exact IH2].
    + apply Qle_bool_iff. rewrite Hr.
      rewrite Nat2Z.inj_succ. unfold Z.succ. rewrite inject_Z_plus.
      assert (0 <= inject_Z (Z.of_nat j))%Q by (rewrite <- (Zle_Qle 0); lia).
      change (inject_Z 1) with 1%Q. lra.
Qed.

End RateLimiterFacts.

(** C3: from a bucket of capacity [N] that is full, with no time passing
    between the calls, [N + k] calls of [tryAcquire(1)] return [true]
    exactly [N] times (the first [N] that the script serves) and [false]
    the other [k] times, and the next call fails as well. *)
Theorem C3_exactly_capacity_succeed
    (l : RateLimiter.t) (N k : nat) (now : Z) (redis : gmap string Q) :
  (1 <= N)%nat ->
  (RateLimiter.maxTokens l == inject_Z (Z.of_nat N))%Q ->
  RateLimiter.fullAt l now redis ->
  let run := RateLimiter.tryAcquireN l 1 now (N + k) redis in
  fst run = repeat true N ++ repeat false k /\
  count_occ bool_dec (fst run) true = N /\
  count_occ bool_dec (fst run) false = k /\
  fst (RateLimiter.tryAcquire l 1 now (snd run)) = false.
Proof.
  intros _ Hmax Hfull run.
  assert (Hr : (RateLimiter.refill l (inject_Z now) redis == inject_Z (Z.of_nat N))%Q).
  { rewrite <- Hmax. exact Hfull. }
  destruct (tryAcquireN_drain l now N k redis Hr) as [Hres Hzero].
  fold run in Hres, Hzero.
  repeat split.
  - exact Hres.
  - rewrite Hres, count_occ_app, count_occ_repeat_eq by reflexivity.
    rewrite count_occ_repeat_neq by discriminate. lia.
  - rewrite Hres, count_occ_app.
    rewrite count_occ_repeat_neq by discriminate.
    rewrite count_occ_repeat_eq by reflexivity. lia.
  - rewrite tryAcquire_false; [reflexivity|].
    destruct (Qle_bool 1 _) eqn:E; [|reflexivity].
    apply Qle_bool_iff in E. rewrite Hzero in E. lra.
Qed.

Lemma C3_witness :
  let run := RateLimiter.tryAcquireN googleAdsRateLimiter 1 1700000000000 (60 + 5) ∅ in
  fst run = repeat true 60 ++ repeat false 5 /\
  count_occ bool_dec (fst run) true = 60%nat /\
  count_occ bool_dec (fst run) false = 5%nat /\
  fst (RateLimiter.tryAcquire googleAdsRateLimiter 1 1700000000000 (snd run)) = false.
Proof.
  apply (C3_exactly_capacity_succeed googleAdsRateLimiter 60 5 1700000000000 ∅).
  - lia.
  - reflexivity.
  - reflexivity.
Defined.


(** C9: the invariant [0 <= stored tokens <= maxTokens] is kept by every
    call, whatever the elapsed time and the refill rate, as soon as the
    cost is not negative (the bound [cost <= maxTokens] is not needed: a
    larger cost is simply refused). *)
Theorem C9_bucket_invariant
    (l : RateLimiter.t) (cost : Q) (now : Z) (redis : gmap string Q) :
  (0 <= cost)%Q ->
  RateLimiter.bucket_ok l redis ->
  RateLimiter.bucket_ok l (snd (RateLimiter.tryAcquire l cost now redis)).
Proof.
  intros Hc Hok. unfold RateLimiter.tryAcquire.
  destruct (Qle_bool cost _) eqn:E; simpl; [|exact Hok].
  apply Qle_bool_iff in E.
  unfold RateLimiter.bucket_ok. rewrite lookup_bucket_after.
  pose proof (refill_le_max l (inject_Z now) redis). split; lra.
Qed.

Lemma C9_witness :
  RateLimiter.bucket_ok googleAdsRateLimiter
    (snd (RateLimiter.tryAcquire googleAdsRateLimiter 1 1700000000500
            (<[RateLimiter.lastUpdateKey googleAdsRateLimiter := inject_Z 1700000000000]>
               (<[RateLimiter.bucketKey googleAdsRateLimiter := (1 # 2)%Q]> ∅)))).
Proof.
  apply (C9_bucket_invariant googleAdsRateLimiter 1 1700000000500).
  - vm_compute. discriminate.
  - vm_compute. split; discriminate.
Defined.
(** ** Calendar arithmetic and date strings *)

Section DateFacts.
Import JsDate.

Lemma DayFromYear_succ y : DayFromYear (y + 1) = DayFromYear y + DaysInYear y.
Proof.
  unfold DayFromYear, DaysInYear.
  destruct (Z.eqb_spec (y mod 4) 0), (Z.eqb_spec (y mod 100) 0), (Z.eqb_spec (y mod 400) 0); simpl;
  Z.div_mod_to_equations; lia.
Qed.

Lemma YearFromDay_spec d :
  DayFromYear (YearFromDay d) <= d < DayFromYear (YearFromDay d + 1).
Proof.
  unfold YearFromDay.
  set (y0 := 1970 + 400 * d / 146097).
  destruct (Z.ltb_spec d (DayFromYear y0)).
  - replace (y0 - 1 + 1) with y0 by lia. split; [|lia].
    unfold DayFromYear in *. subst y0. Z.div_mod_to_equations. lia.
  - destruct (Z.leb_spec (DayFromYear (y0 + 1)) d).
    + split; [lia|]. unfold DayFromYear in *. subst y0. Z.div_mod_to_equations. lia.
    + lia.
Qed.

Lemma DayFromYear_mono a b : a <= b -> DayFromYear a <= DayFromYear b.
Proof. intros H. unfold DayFromYear. Z.div_mod_to_equations. lia. Qed.

Lemma DaysInYear_cases y : DaysInYear y = 365 \/ DaysInYear y = 366.
Proof. unfold DaysInYear. repeat (destruct (negb _)); auto. Qed.

Lemma MakeDay_inverse d : MakeDay (YearFromDay d) (MonthFromDay d) (DateFromDay d) = d.
Proof. unfold MakeDay, DateFromDay. lia. Qed.

Lemma MonthFromDay_range d : 0 <= MonthFromDay d <= 11.
Proof. unfold MonthFromDay. repeat (destruct (_ <? _)); lia. Qed.

Lemma DateFromDay_range d : 1 <= DateFromDay d <= 31.
Proof.
  pose proof (YearFromDay_spec d) as Hy. rewrite DayFromYear_succ in Hy.
  unfold DateFromDay, MonthFromDay, InLeapYear.
  destruct (DaysInYear_cases (YearFromDay d)) as [E|E]; rewrite E in *;
  repeat (match goal with |- context [?a <? ?b] => destruct (Z.ltb_spec a b) end);
  simpl; lia.
Qed.

Lemma YearFromDay_bounds d lo hi :
  DayFromYear lo <= d < DayFromYear hi -> lo <= YearFromDay d < hi.
Proof.
  intros [H1 H2]. pose proof (YearFromDay_spec d) as [H3 H4].
  split.
  - destruct (Z_lt_le_dec (YearFromDay d) lo) as [L|L]; [|lia].
    pose proof (DayFromYear_mono (YearFromDay d + 1) lo ltac:(lia)). lia.
  - destruct (Z_lt_le_dec (YearFromDay d) hi) as [L|L]; [lia|].
    pose proof (DayFromYear_mono hi (YearFromDay d) L). lia.
Qed.

Lemma digitVal_digit n : digitVal (digit n) = Some (n mod 10).
Proof.
  unfold digit. pose proof (Z.mod_pos_bound n 10 ltac:(lia)) as H.
  assert (C : n mod 10 = 0 \/ n mod 10 = 1 \/ n mod 10 = 2 \/ n mod 10 = 3 \/ n mod 10 = 4 \/
              n mod 10 = 5 \/ n mod 10 = 6 \/ n mod 10 = 7 \/ n mod 10 = 8 \/ n mod 10 = 9) by lia.
  repeat (destruct C as [C|C]; [rewrite C; reflexivity|]). rewrite C; reflexivity.
Qed.

Lemma num2_pad n a b rest :
  0 <= n <= 99 -> pad2 n = String a (String b rest) -> num2 a b = Some n.
Proof.
  intros Hn E. unfold pad2 in E. injection E as <- <- _.
  unfold num2. rewrite !digitVal_digit. simpl. f_equal.
  Z.div_mod_to_equations. lia.
Qed.

Lemma dec2 n : 0 <= n <= 99 -> 10 * ((n / 10) mod 10) + n mod 10 = n.
Proof. intros H. Z.div_mod_to_equations. lia. Qed.

Lemma dec4 n : 0 <= n <= 9999 ->
  100 * (10 * ((n / 1000) mod 10) + (n / 100) mod 10)
  + (10 * ((n / 10) mod 10) + n mod 10) = n.
Proof. intros H. Z.div_mod_to_equations. lia. Qed.

Lemma parseDate_ymd y m d :
  0 <= y <= 9999 -> 1 <= m <= 12 -> 1 <= d <= 31 ->
  parseDate (pad4 y +:+ "-" +:+ pad2 m +:+ "-" +:+ pad2 d)
  = Some (MakeDay y (m - 1) d * msPerDay).
Proof.
  intros Hy Hm Hd. unfold pad4, pad2.
  cbv beta iota fix delta [String.append parseDate].
  change (Ascii.eqb "-" "-") with true. cbn [andb].
  unfold num2. rewrite !digitVal_digit. cbn [mbind option_bind].
  rewrite (dec2 m), (dec2 d), (dec4 y) by lia.
  destruct (Z.leb_spec 1 m), (Z.leb_spec m 12), (Z.leb_spec 1 d), (Z.leb_spec d 31);
    try lia. reflexivity.
Qed.

Lemma parseDate_toISODate t :
  0 <= YearFromDay (Day t) <= 9999 ->
  parseDate (toISODate t) = Some (Day t * msPerDay).
Proof.
  intros Hy. unfold toISODate, isoYear.
  destruct (Z.leb_spec 0 (YearFromDay (Day t))), (Z.leb_spec (YearFromDay (Day t)) 9999);
    try lia. cbn [andb].
  pose proof (MonthFromDay_range (Day t)). pose proof (DateFromDay_range (Day t)).
  rewrite parseDate_ymd by lia.
  replace (MonthFromDay (Day t) + 1 - 1) with (MonthFromDay (Day t)) by lia.
  now rewrite MakeDay_inverse.
Qed.

Lemma digitVal_range c z : digitVal c = Some z -> 0 <= z <= 9.
Proof.
  unfold digitVal.
  destruct (Z.leb_spec 48 (Z.of_nat (nat_of_ascii c))),
           (Z.leb_spec (Z.of_nat (nat_of_ascii c)) 57); simpl; intros [= <-]; lia.
Qed.

Lemma monthStart_range leap m :
  0 <= leap -> 0 <= m <= 11 -> 0 <= monthStart leap m <= 334 + leap.
Proof.
  intros Hl Hm.
  assert (C : m = 0 \/ m = 1 \/ m = 2 \/ m = 3 \/ m = 4 \/ m = 5 \/ m = 6 \/
              m = 7 \/ m = 8 \/ m = 9 \/ m = 10 \/ m = 11) by lia.
  repeat (destruct C as [C|C]; [subst m; simpl; lia|]). subst m; simpl; lia.
Qed.

Lemma MakeDay_within y m d :
  0 <= m <= 11 -> 1 <= d <= 31 ->
  DayFromYear y <= MakeDay y m d < DayFromYear (y + 1).
Proof.
  intros Hm Hd. rewrite DayFromYear_succ. unfold MakeDay, InLeapYear.
  pose proof (DaysInYear_cases y) as Hc.
  pose proof (monthStart_range (DaysInYear y - 365) m ltac:(lia) Hm).
  lia.
Qed.

(** What [parseDate] accepts: a day between 0000-01-01 and 9999-12-31. *)
Lemma parseDate_range s t :
  parseDate s = Some t ->
  exists d, t = d * msPerDay /\ DayFromYear 0 <= d < DayFromYear 10000.
Proof.
  unfold parseDate.
  repeat (destruct s as [|? s]; try discriminate).
  destruct (_ && _); [|discriminate].
  unfold num2.
  repeat (match goal with |- context [digitVal ?c] =>
    let E := fresh "E" in
    destruct (digitVal c) as [?|] eqn:E; cbn [mbind option_bind];
      [apply digitVal_range in E|discriminate] end).
  match goal with |- context [MakeDay ?y (?m - 1) ?d] =>
    destruct (Z.leb_spec 1 m); [|discriminate];
    destruct (Z.leb_spec m 12); [|discriminate];
    destruct (Z.leb_spec 1 d); [|discriminate];
    destruct (Z.leb_spec d 31); [|discriminate];
    pose proof (MakeDay_within y (m - 1) d ltac:(lia) ltac:(lia));
    pose proof (DayFromYear_mono 0 y ltac:(lia));
    pose proof (DayFromYear_mono (y + 1) 10000 ltac:(lia))
  end.
  cbn [andb]. intros [= <-]. eexists; split; [reflexivity|]. lia.
Qed.

Lemma Day_of_days d : Day (d * msPerDay) = d.
Proof. unfold Day, msPerDay. now rewrite Z.div_mul. Qed.

Lemma parseDate_days s t : parseDate s = Some t -> t = Day t * msPerDay.
Proof.
  intros H. destruct (parseDate_range _ _ H) as (d & -> & _).
  now rewrite Day_of_days.
Qed.

End DateFacts.

(** ** [splitDateRange] *)

Section SplitDateRangeFacts.
Import JsDate SyncProcessor.

Section SplitFacts.
Variable m : Z.
Hypothesis m_pos : 1 <= m.

Lemma daySpans_tiling : forall n a b,
  a <= b + 1 -> b - a + 1 < Z.of_nat n -> tiling m b a (daySpans m n a b).
Proof.
  induction n as [|n IH]; intros a b Hab Hn; [lia|].
  cbn [daySpans]. destruct (Z.leb_spec a b).
  - apply tiling_step; [lia|lia|]. apply IH; lia.
  - replace a with (b + 1) by lia. constructor.
Qed.

Lemma daySpans_inverted n a b : b < a -> daySpans m n a b = [].
Proof. intros H. destruct n; [reflexivity|]. cbn [daySpans]. destruct (Z.leb_spec a b); [lia|reflexivity]. Qed.

Lemma splitLoop_daySpans : forall n a b acc,
  Z.max 0 (b - a + 1) < Z.of_nat n ->
  splitLoop n (a * msPerDay) (b * msPerDay) m acc =
  Some (acc ++ map (fun sp => mkChunk (toISODate (fst sp * msPerDay))
                                      (toISODate (snd sp * msPerDay)))
                   (daySpans m n a b)).
Proof.
  induction n as [|n IH]; intros a b acc Hn; [lia|].
  cbn [splitLoop daySpans]. unfold addDays, msPerDay in *.
  destruct (Z.leb_spec a b); destruct (Z.leb_spec (a * 86400000) (b * 86400000)); try lia.
  - destruct (Z.ltb_spec (b * 86400000) (a * 86400000 + (m - 1) * 86400000)).
    + replace (b * 86400000 + 1 * 86400000) with ((b + 1) * 86400000) by lia.
      rewrite IH by lia. rewrite Z.min_r by lia. cbn [map fst snd].
      now rewrite <- app_assoc.
    + replace (a * 86400000 + (m - 1) * 86400000 + 1 * 86400000)
        with ((a + m - 1 + 1) * 86400000) by lia.
      rewrite IH by lia. rewrite Z.min_l by lia. cbn [map fst snd].
      replace ((a + m - 1) * 86400000) with (a * 86400000 + (m - 1) * 86400000) by lia.
      now rewrite <- app_assoc.
  - now rewrite app_nil_r.
Qed.

Lemma tiling_within b a l :
  tiling m b a l -> Forall (fun sp => a <= fst sp /\ fst sp <= snd sp /\ snd sp <= b
                                     /\ snd sp - fst sp + 1 <= m) l.
Proof.
  induction 1 as [|a c l Hac Hm Ht IH]; constructor; simpl.
  - lia.
  - eapply Forall_impl; [exact IH|]. simpl. intros sp. lia.
Qed.

Lemma tiling_contiguous b a l : tiling m b a l -> contiguous l.
Proof.
  induction 1 as [|a c l Hac Hm Ht IH]; [exact I|].
  destruct l as [|y l']; [exact I|]. split; [|exact IH].
  inversion Ht; subst. reflexivity.
Qed.

Lemma tiling_covers b a l : tiling m b a l -> a <= b + 1 /\ covers l a b.
Proof.
  induction 1 as [|a c l Hac Hm Ht [IHle IH]].
  - split; [lia|]. intros d; split; [intros (sp & [] & _)|lia].
  - split; [lia|]. intros d; split.
    + intros (sp & [<-|Hin] & Hd); unfold inSpan in *; simpl in *; [lia|].
      assert (c + 1 <= d <= b) by (apply IH; eauto). lia.
    + intros Hd. destruct (Z_le_gt_dec d c).
      * exists (a, c). split; [now left|]. unfold inSpan; simpl; lia.
      * destruct (proj2 (IH d) ltac:(lia)) as (sp & Hin & Hsp).
        exists sp. split; [now right|exact Hsp].
Qed.

Lemma tiling_nonOverlapping b a l : tiling m b a l -> nonOverlapping l.
Proof.
  induction 1 as [|a c l Hac Hm Ht IH].
  - intros i j x y d _ Hi. destruct i; discriminate.
  - pose proof (tiling_within _ _ _ Ht) as Hw.
    rewrite Forall_forall in Hw.
    intros i j x y d Hij Hi Hj [Hx Hy]. unfold inSpan in *.
    destruct i as [|i], j as [|j]; simpl in Hi, Hj.
    + congruence.
    + injection Hi as <-. simpl in Hx.
      apply list_elem_of_lookup_2, Hw in Hj. lia.
    + injection Hj as <-. simpl in Hy.
      apply list_elem_of_lookup_2, Hw in Hi. lia.
    + apply (IH i j x y d); auto.
Qed.

End SplitFacts.

Lemma chunkDays_fmtSpan sp :
  DayFromYear 0 <= fst sp -> snd sp < DayFromYear 10000 -> fst sp <= snd sp ->
  chunkDays (fmtSpan sp) = Some sp.
Proof.
  intros H1 H2 H3. destruct sp as [x y]. cbn [fst snd] in *.
  unfold chunkDays, fmtSpan. cbn [from to fst snd].
  rewrite !parseDate_toISODate.
  - cbn [mbind option_bind]. now rewrite !Day_of_days.
  - rewrite Day_of_days.
    pose proof (YearFromDay_bounds x 0 10000 ltac:(lia)). lia.
  - rewrite Day_of_days.
    pose proof (YearFromDay_bounds y 0 10000 ltac:(lia)). lia.
Qed.

Lemma chunkDays_map_fmtSpan (l : list (Z * Z)) :
  Forall (fun sp => DayFromYear 0 <= fst sp /\ snd sp < DayFromYear 10000
                    /\ fst sp <= snd sp) l ->
  Forall2 (fun c sp => chunkDays c = Some sp) (map fmtSpan l) l.
Proof.
  induction 1 as [|sp l Hsp Hl IH]; cbn [map]; constructor; [|exact IH].
  apply chunkDays_fmtSpan; lia.
Qed.

(** What the loop returns on two parsed dates, with enough fuel. *)
Lemma splitDateRange_spans startDate endDate start end_ m fuel :
  parseDate startDate = Some start -> parseDate endDate = Some end_ ->
  1 <= m ->
  (Z.to_nat (Day end_ - Day start) + 2 <= fuel)%nat ->
  let spans := daySpans m fuel (Day start) (Day end_) in
  splitDateRange fuel startDate endDate m = Some (map fmtSpan spans) /\
  Forall2 (fun c sp => chunkDays c = Some sp) (map fmtSpan spans) spans /\
  (start <= end_ -> tiling m (Day end_) (Day start) spans) /\
  (end_ < start -> spans = []).
Proof.
  intros Hs He Hm Hf spans. subst spans.
  destruct (parseDate_range _ _ Hs) as (a & -> & Ha).
  destruct (parseDate_range _ _ He) as (b & -> & Hb).
  rewrite !Day_of_days in *.
  assert (Hmul : forall x y, x * msPerDay <= y * msPerDay <-> x <= y)
    by (intros; unfold msPerDay; lia).
  assert (Hti : a <= b -> tiling m b a (daySpans m fuel a b))
    by (intros; apply daySpans_tiling; lia).
  assert (Hinv : b < a -> daySpans m fuel a b = [])
    by (intros; now apply daySpans_inverted).
  repeat split.
  - unfold splitDateRange. rewrite Hs, He.
    rewrite (splitLoop_daySpans m Hm) by lia. reflexivity.
  - destruct (Z_le_gt_dec a b) as [L|G].
    + apply chunkDays_map_fmtSpan.
      eapply Forall_impl; [exact (tiling_within _ _ _ _ (Hti L))|].
      simpl; intros; lia.
    + rewrite Hinv by lia. constructor.
  - intros H. apply Hti. now apply Hmul.
  - intros H. apply Hinv. unfold msPerDay in H. lia.
Qed.




End SplitDateRangeFacts.
(** ** The claims about [splitDateRange] *)

Section SplitDateRangeClaims.
Import JsDate SyncProcessor.





End SplitDateRangeClaims.

(** ** The fact upsert *)

Section FactUpsertClaims.
Import SyncProcessor.

Lemma upsertFact_lookup key ms w :
  exists row,
    metricsFacts (snd (upsertFact key ms w)) !! key = Some row /\
    MetricsFact.measures row = ms /\
    MetricsFact.id row =
      match metricsFacts w !! key with
      | Some r => MetricsFact.id r
      | None => nextId w
      end.
Proof.
  unfold upsertFact, Prisma.metricsFact_upsert.
  destruct (metricsFacts w !! key) as [r|] eqn:E; cbn;
    rewrite lookup_insert_eq; eexists; (split; [reflexivity|split; reflexivity]).
Qed.

(** Projections of an updated world. *)
Ltac wsimpl :=
  cbn [fst snd connections adAccounts syncJobs campaigns adGroups metricsFacts
       nextId syncQueue progress queueError cache cacheError console
       with_connections with_adAccounts with_syncJobs with_campaigns
       with_adGroups with_metricsFacts with_nextId with_syncQueue
       with_progress with_cache with_console
       Campaign.id Campaign.name Campaign.status
       MetricsFact.id MetricsFact.measures] in *.

Lemma upsertFact_campaigns key ms w :
  campaigns (snd (upsertFact key ms w)) = campaigns w.
Proof.
  unfold upsertFact, Prisma.metricsFact_upsert.
  destruct (metricsFacts w !! key); reflexivity.
Qed.

Lemma upsertFact_ok key ms w : fst (upsertFact key ms w) = Ok tt.
Proof.
  unfold upsertFact, Prisma.metricsFact_upsert.
  destruct (metricsFacts w !! key); reflexivity.
Qed.

Lemma campaign_upsert_facts key create update w :
  metricsFacts (snd (Prisma.campaign_upsert key create update w)) = metricsFacts w.
Proof.
  unfold Prisma.campaign_upsert. destruct (campaigns w !! key); reflexivity.
Qed.

(** One round of the first loop of [processSyncJob], for a row whose date
    parses: the campaign is created or renamed, and the fact of its grain
    is upserted with the row's measures. *)
Lemma campaignRow_run job (m : GoogleAds.Metrics.t) d w n :
  JsDate.parseDate (GoogleAds.Metrics.date m) = Some d ->
  let acct := SyncJobData.adAccountId (QueueJob.data job) in
  let key := (acct, GoogleAds.Metrics.campaignId m) in
  let cid := match campaigns w !! key with
             | Some c => Campaign.id c
             | None => nextId w
             end in
  exists w1,
    (exists c, campaigns w1 !! key = Some c /\ Campaign.id c = cid) /\
    metricsFacts w1 = metricsFacts w /\
    campaignRow job m (w, n) =
      (Ok tt,
       (snd (upsertFact
               (d, SyncJobData.provider (QueueJob.data job), acct, cid, None, None)
               (measuresOf m) w1),
        S n)).
Proof.
  intros Hp acct key cid. subst acct key cid.
  unfold campaignRow, bind at 1, inWorld at 1, Prisma.campaign_upsert. wsimpl.
  destruct (campaigns w !! _) as [c0|] eqn:Ec; wsimpl;
    unfold bind at 1, inWorld at 1, Prisma.campaign_findUnique, gets; wsimpl;
    rewrite lookup_insert_eq;
    unfold bind at 1, inWorld at 1, Prisma.dateArg; rewrite Hp;
    unfold ret at 1; wsimpl;
    unfold bind at 1, inWorld at 1;
    match goal with |- context [upsertFact ?k ?ms ?w1] =>
      exists w1; pose proof (upsertFact_ok k ms w1) as Hok;
      destruct (upsertFact k ms w1) as [r w2]; cbn [fst] in Hok; subst r
    end; wsimpl;
    (split; [eexists; split; [apply lookup_insert_eq|reflexivity]|]);
    (split; [reflexivity|]); reflexivity.
Qed.

(** The same campaign and day processed again (as when the day is synced
    a second time): the campaign is found under the same id, so the later
    row's measures replace the earlier ones in the one fact row of that
    grain. *)
Lemma campaignRow_rerun job (m1 m2 : GoogleAds.Metrics.t) d w n :
  GoogleAds.Metrics.campaignId m2 = GoogleAds.Metrics.campaignId m1 ->
  GoogleAds.Metrics.date m2 = GoogleAds.Metrics.date m1 ->
  JsDate.parseDate (GoogleAds.Metrics.date m1) = Some d ->
  let s1 := snd (campaignRow job m1 (w, n)) in
  let s2 := snd (campaignRow job m2 s1) in
  let acct := SyncJobData.adAccountId (QueueJob.data job) in
  exists c row,
    campaigns (fst s2) !! (acct, GoogleAds.Metrics.campaignId m1) = Some c /\
    metricsFacts (fst s2)
      !! (d, SyncJobData.provider (QueueJob.data job), acct, Campaign.id c, None, None)
      = Some row /\
    MetricsFact.measures row = measuresOf m2 /\
    size (metricsFacts (fst s2)) = size (metricsFacts (fst s1)) /\
    snd s2 = S (S n).
Proof.
  intros Hc Hd Hp s1 s2 acct.
  destruct (campaignRow_run job m1 d w n Hp)
    as (w1 & (c1 & Hc1 & Hid1) & Hf1 & E1).
  subst s1 s2. rewrite E1. cbn [snd].
  set (k := (d, SyncJobData.provider (QueueJob.data job), acct,
             Campaign.id c1, @None N, @None N)).
  rewrite <- Hid1 in *. fold acct k in E1 |- *.
  set (w1' := snd (upsertFact k (measuresOf m1) w1)).
  assert (Hp2 : JsDate.parseDate (GoogleAds.Metrics.date m2) = Some d) by congruence.
  destruct (campaignRow_run job m2 d w1' (S n) Hp2)
    as (w2 & (c2 & Hc2 & Hid2) & Hf2 & E2).
  rewrite E2. cbn [fst snd]. rewrite Hc in *. fold acct in Hc2, Hid2 |- *.
  assert (Hsame : campaigns w1' !! (acct, GoogleAds.Metrics.campaignId m1) = Some c1).
  { subst w1'. now rewrite upsertFact_campaigns. }
  rewrite Hsame in Hid2 |- *. rewrite <- Hid2. fold k.
  destruct (upsertFact_lookup k (measuresOf m1) w1) as (r1 & Hr1 & _ & _).
  fold w1' in Hr1.
  destruct (upsertFact_lookup k (measuresOf m2) w2) as (r2 & Hr2 & Hm2 & _).
  exists c2, r2. rewrite Hid2. fold k.
  split; [now rewrite upsertFact_campaigns|].
  split; [exact Hr2|]. split; [exact Hm2|]. split; [|reflexivity].
  unfold upsertFact, Prisma.metricsFact_upsert.
  rewrite Hf2, Hr1. wsimpl. now rewrite map_size_insert_Some by eauto.
Qed.

(** C1: a second upsert on the same grain key, with other measures,
    leaves the row holding exactly the measures supplied last; the world
    reached is the one a single upsert of those measures reaches (nothing
    of the earlier values is kept or added, and no second row appears),
    and repeating the same upsert changes nothing. *)
Theorem C1_fact_upsert_overwrites (w : World) (key : FactKey) (old new : Measures) :
  let w1 := snd (upsertFact key old w) in
  let w2 := snd (upsertFact key new w1) in
  fst (upsertFact key new w1) = Ok tt /\
  (exists row,
     metricsFacts w2 !! key = Some row /\
     MetricsFact.measures row = new /\
     metricsFacts w1 !! key = Some (MetricsFact.mk (MetricsFact.id row) old)) /\
  size (metricsFacts w2) = size (metricsFacts w1) /\
  w2 = snd (upsertFact key new w) /\
  snd (upsertFact key new w2) = w2.
Proof.
  intros w1 w2. subst w1 w2.
  unfold upsertFact, Prisma.metricsFact_upsert.
  destruct (metricsFacts w !! key) as [r|] eqn:E; cbn;
    rewrite ?lookup_insert_eq; cbn; rewrite ?lookup_insert_eq; cbn;
    rewrite ?insert_insert_eq, !map_size_insert, ?E;
    (split; [reflexivity|]); (split; [eexists; repeat split|]);
    repeat split.
Qed.

End FactUpsertClaims.

(** ** Access-token refresh *)

Section VaultClaims.
Import GoogleAds.

Variable decrypt encrypt : string -> Result string.
Variable oauthRefresh : string -> Result (option string * option Z).
Variable Row : Type.
Variable searchStream : string -> string -> string -> string -> Result (list Row).

Lemma refreshAccessToken_world now refreshToken w :
  snd (refreshAccessToken oauthRefresh now refreshToken w) = w.
Proof.
  unfold refreshAccessToken, bind, liftResult.
  destruct (oauthRefresh refreshToken) as [[[[|c s]|] e]|err]; reflexivity.
Qed.

(** A failed refresh: the row is stored as EXPIRED with the message and
    the error is thrown again. *)
Lemma getValidAccessToken_refresh_fails
    now connectionId w c accessToken refreshToken error :
  connections w !! connectionId = Some c ->
  decrypt (Connection.accessTokenEnc c) = Ok accessToken ->
  decrypt (Connection.refreshTokenEnc c) = Ok refreshToken ->
  isExpired now c = true ->
  fst (refreshAccessToken oauthRefresh now refreshToken w) = Throw error ->
  getValidAccessToken decrypt encrypt oauthRefresh now connectionId w =
    (Throw error,
     with_connections (<[connectionId := expired error c]> (connections w)) w).
Proof.
  intros Hc Ha Hr He Hf.
  pose proof (refreshAccessToken_world now refreshToken w) as Hw.
  destruct (refreshAccessToken oauthRefresh now refreshToken w) as [r w'] eqn:E.
  cbn in Hf, Hw. subst r w'.
  unfold getValidAccessToken, bind at 1, gets. rewrite Hc.
  unfold bind at 1, liftResult at 1. rewrite Ha.
  unfold bind at 1, liftResult at 1. rewrite Hr, He.
  unfold tryCatch, bind at 1. rewrite E.
  unfold bind, Prisma.connection_update, throw. now rewrite Hc.
Qed.

End VaultClaims.

(** ** Manual sync requests *)

Section ManualSyncFacts.
Import SyncRoutes.
Variable isUuid : string -> bool.

(** Whatever else holds, a PENDING or RUNNING job of the account created
    within the last five minutes makes the handler answer with an error
    and write nothing. *)
Lemma manualSync_recent_job_rejected now req w j :
  In j (syncJobs w) ->
  isRecentJob now (accountId (body req)) j = true ->
  rejectedWithoutJob w (manualSync isUuid now req w).
Proof.
  intros Hin Hrecent.
  assert (R : forall st js, st <> 201 ->
            rejectedWithoutJob w (Ok (mkResponse st js), w)).
  { intros st js Hst. split; [|split; reflexivity].
    exists (mkResponse st js). split; [reflexivity|exact Hst]. }
  unfold manualSync, tryCatch, manualSync_try, manualSyncSchema_parse.
  unfold bind at 1.
  destruct (isUuid _ && isDateOnly _ && isDateOnly _); cbn [throw ret];
    [|apply R; lia].
  unfold bind at 1, findAccount, gets.
  destruct (adAccounts w !! accountId (body req)) as [a|]; [|apply R; lia].
  destruct (String.eqb _ _ && AdAccount.isEnabled a); [|apply R; lia].
  destruct (connections w !! AdAccount.connectionId a) as [c|];
    cbn [throw manualSync_catch ret]; [|apply R; lia].
  destruct (negb (isActive c)); cbn [ret]; [apply R; lia|].
  unfold bind at 1, Prisma.syncJob_findFirst, gets.
  destruct (find (isRecentJob now (accountId (body req))) (syncJobs w)) as [r|] eqn:F;
    cbn [ret]; [apply R; lia|].
  pose proof (find_none _ _ F j Hin) as Hn. congruence.
Qed.

End ManualSyncFacts.

(** What the handler does with the stale job of [Scenario.staleWorld]: it
    accepts the request, adds a second job row on the same window and
    queues a task for it. *)
Example manualSync_stale_job :
  let out := SyncRoutes.manualSync Scenario.isUuid Scenario.tenMinutesLater
               Scenario.request Scenario.staleWorld in
  fst out = Ok (SyncRoutes.mkResponse 201
                  (SyncRoutes.QueuedJson 1 SyncJobStatus.PENDING
                     Scenario.jan01 Scenario.jan07)) /\
  map SyncJob.id (syncJobs (snd out)) = [0%N; 1%N] /\
  map QueueJob.id (syncQueue (snd out)) = [1%N].
Proof. vm_compute. repeat split. Qed.

(** C2, as stated, fails: a PENDING job on the very window requested, but
    created more than five minutes ago, does not stop the request. *)
Lemma C2_stale_job_does_not_block :
  ~ SyncRoutes.overlapRule Scenario.isUuid Scenario.tenMinutesLater
      Scenario.request Scenario.staleWorld.
Proof.
  intros H.
  specialize (H Scenario.jan01 Scenario.jan07 Scenario.staleJob
                eq_refl eq_refl (or_introl eq_refl)).
  destruct H as [_ [Hjobs _]].
  - split; [reflexivity|]. split; [reflexivity|].
    unfold SyncRoutes.overlaps. cbn. unfold Scenario.jan01, Scenario.jan07. lia.
  - pose proof manualSync_stale_job as [_ [E _]].
    rewrite Hjobs in E. discriminate E.
Qed.

(** C2, amended: a manual sync request is rejected, and neither a job row
    nor a queue entry is created, when the account has a PENDING or
    RUNNING job on an overlapping window that was created within the last
    five minutes. *)
Theorem C2_recent_overlapping_job_rejects
    (isUuid : string -> bool) (now : Z) (req : SyncRoutes.Request) (w : World)
    (from to : Z) (j : SyncJob.t) :
  JsDate.parseDate (SyncRoutes.dateFrom (SyncRoutes.body req)) = Some from ->
  JsDate.parseDate (SyncRoutes.dateTo (SyncRoutes.body req)) = Some to ->
  In j (syncJobs w) ->
  SyncRoutes.blockingJob (SyncRoutes.accountId (SyncRoutes.body req)) from to j ->
  now - SyncRoutes.recentWindow <= SyncJob.createdAt j ->
  SyncRoutes.rejectedWithoutJob w (SyncRoutes.manualSync isUuid now req w).
Proof.
  intros _ _ Hin (Hacc & Hnt & _) Hrecent.
  apply (manualSync_recent_job_rejected isUuid now req w j Hin).
  unfold SyncRoutes.isRecentJob. rewrite Hacc, String.eqb_refl, Hnt. cbn.
  now apply Z.leb_le.
Qed.

Lemma C2_witness :
  SyncRoutes.rejectedWithoutJob Scenario.staleWorld
    (SyncRoutes.manualSync Scenario.isUuid 1704715260000
       Scenario.request Scenario.staleWorld).
Proof.
  apply (C2_recent_overlapping_job_rejects Scenario.isUuid 1704715260000
           Scenario.request Scenario.staleWorld
           Scenario.jan01 Scenario.jan07 Scenario.staleJob).
  - reflexivity.
  - reflexivity.
  - left. reflexivity.
  - split; [reflexivity|]. split; [reflexivity|].
    unfold SyncRoutes.overlaps. cbn. unfold Scenario.jan01, Scenario.jan07. lia.
  - vm_compute. discriminate.
Defined.

(** ** Cache invalidation at the end of a sync *)

Section ProcessSyncJobFacts.
Import SyncProcessor.

(** With the cache client down, [delPattern] throws the client's error. *)
Lemma delPattern_cache_down adAccountId w e :
  cacheError w = Some e -> Cache.delPattern adAccountId w = (Throw e, w).
Proof. intros H. unfold Cache.delPattern. now rewrite H. Qed.

(** With the cache client up, [delPattern] removes exactly the keys that
    match. *)
Lemma delPattern_cache_up adAccountId w k :
  cacheError w = None ->
  cache (snd (Cache.delPattern adAccountId w)) !! k =
    if Cache.matchesMetricsOf adAccountId k then None else cache w !! k.
Proof.
  intros H. unfold Cache.delPattern. rewrite H. cbn.
  destruct (Cache.matchesMetricsOf adAccountId k) eqn:E.
  - apply map_lookup_filter_None. right. intros v _. cbn. congruence.
  - destruct (cache w !! k) as [v|] eqn:L.
    + apply map_lookup_filter_Some. split; [exact L|exact E].
    + apply map_lookup_filter_None. left. exact L.
Qed.

(** The [catch] block never returns normally. *)
Lemma processSyncJob_catch_throws job endTime error w :
  exists e, fst (processSyncJob_catch job endTime error w) = Throw e.
Proof.
  unfold processSyncJob_catch, markJob, bind, Prisma.dateArg, throw, ret,
    Prisma.syncJob_updateMany, modify, Prisma.adAccount_update.
  destruct (JsDate.parseDate (SyncJobData.dateFrom _)); cbn [fst]; eauto.
  destruct (JsDate.parseDate (SyncJobData.dateTo _)); cbn [fst]; eauto.
  destruct (adAccounts _ !! _); cbn [fst]; eauto.
Qed.

Lemma processSyncJob_try_cache_down
    fetchC fetchA job startTime endTime w result w' n e :
  processSyncJob_pass fetchC fetchA job startTime endTime (w, O)
    = (Ok result, (w', n)) ->
  cacheError w' = Some e ->
  processSyncJob_try fetchC fetchA job startTime endTime (w, O)
    = (Throw e, (w', n)).
Proof.
  intros Hpass Hdown. unfold processSyncJob_try, bind. rewrite Hpass.
  unfold inWorld. cbn [fst snd].
  now rewrite (delPattern_cache_down _ _ _ Hdown).
Qed.

(** Whatever the job: once the sync itself has gone through, a cache
    client that rejects makes the handler throw, and what the handler
    wrote to the console is what the sync had written. *)
Lemma processSyncJob_invalidation_failure
    fetchC fetchA job startTime endTime w result w' n e :
  processSyncJob_pass fetchC fetchA job startTime endTime (w, O)
    = (Ok result, (w', n)) ->
  cacheError w' = Some e ->
  let out := processSyncJob fetchC fetchA job startTime endTime w in
  (exists e', fst out = Throw e') /\
  console (snd out) = console w'.
Proof.
  intros Hpass Hdown out. subst out.
  unfold processSyncJob, tryCatch.
  rewrite (processSyncJob_try_cache_down _ _ _ _ _ _ _ _ _ _ Hpass Hdown).
  cbn [fst snd].
  split; [apply processSyncJob_catch_throws|].
  unfold processSyncJob_catch, markJob, bind, Prisma.dateArg, throw, ret,
    Prisma.syncJob_updateMany, modify, Prisma.adAccount_update.
  destruct (JsDate.parseDate (SyncJobData.dateFrom _)); [|reflexivity].
  destruct (JsDate.parseDate (SyncJobData.dateTo _)); [|reflexivity].
  cbn [fst snd]. unfold with_syncJobs. cbn [adAccounts].
  destruct (adAccounts w' !! _); reflexivity.
Qed.

End ProcessSyncJobFacts.

(** C8 on the code: the sync of the job in [Scenario.cacheDownWorld] goes
    through (one campaign row is stored, the job row is set to COMPLETED
    and the account to SYNCED), then [cache.delPattern] throws.
    [processSyncJob] does not log this and return: it runs its [catch]
    block, which sets the account to ERROR and throws the error on to the
    queue; the job row, no longer PENDING or RUNNING, stays COMPLETED.
    ([processSyncJob_invalidation_failure] above: the handler throws in
    this way for every job and world.) *)
Theorem C8_invalidation_failure_is_rethrown :
  let out := SyncProcessor.processSyncJob Scenario.fetchCampaigns
               Scenario.fetchNoAdGroups Scenario.queueJob
               1704153660000 1704153665000 Scenario.cacheDownWorld in
  fst out = Throw Scenario.cacheDown /\
  map SyncJob.status (syncJobs (snd out)) = [SyncJobStatus.COMPLETED] /\
  map SyncJob.metrics (syncJobs (snd out)) = [Some (1%nat, 5000)] /\
  AdAccount.syncStatus <$> adAccounts (snd out) !! Scenario.accountId
    = Some SyncStatus.ERROR /\
  size (metricsFacts (snd out)) = 1%nat /\
  console (snd out) = [].
Proof. vm_compute. repeat split. Qed.

(** ** The limiter over time *)

Section RateLimiterOverTime.
Import RateLimiter RateLimiterCalls.
Variable l : RateLimiter.t.

Lemma Qmin_shift (m x d : Q) : (0 <= d -> Qmin m (x + d) <= Qmin m x + d)%Q.
Proof.
  intros Hd.
  destruct (Q.min_spec m (x + d)) as [[? E]|[? E]], (Q.min_spec m x) as [[? F]|[? F]];
    rewrite E, F; lra.
Qed.

Lemma elapsed_nonneg (a b : Q) :
  (0 <= refillRate l)%Q -> (a <= b -> 0 <= (b - a) / 1000 * refillRate l)%Q.
Proof.
  intros Hr H. apply Qmult_le_0_compat; [|exact Hr].
  apply Qle_shift_div_l; lra.
Qed.

(** What is available never falls below zero on a settled bucket. *)
Lemma refill_nonneg t (redis : Redis) :
  (0 <= maxTokens l)%Q -> (0 <= refillRate l)%Q ->
  settled l t redis -> (0 <= refill l (inject_Z t) redis)%Q.
Proof.
  intros Hm Hr [Hok Hlu]. unfold refill, bucket_ok, notAhead in *.
  apply Q.min_glb; [exact Hm|].
  destruct (redis !! bucketKey l) as [tk|], (redis !! lastUpdateKey l) as [lu|];
    cbn [from_option]; unfold id.
  - destruct Hok. pose proof (elapsed_nonneg lu (inject_Z t) Hr Hlu). lra.
  - destruct Hok.
    pose proof (elapsed_nonneg (inject_Z t) (inject_Z t) Hr ltac:(lra)). lra.
  - pose proof (elapsed_nonneg lu (inject_Z t) Hr Hlu). lra.
  - pose proof (elapsed_nonneg (inject_Z t) (inject_Z t) Hr ltac:(lra)). lra.
Qed.

Lemma settled_step c t t' (redis : Redis) :
  (0 <= c)%Q -> t <= t' -> settled l t redis ->
  settled l t' (snd (tryAcquire l c t redis)).
Proof.
  intros Hc Htt [Hok Hlu].
  assert (Ht : (inject_Z t <= inject_Z t')%Q) by now rewrite <- Zle_Qle.
  unfold tryAcquire.
  destruct (Qle_bool c _) eqn:E; cbn [snd].
  - apply Qle_bool_iff in E. split.
    + unfold bucket_ok. rewrite lookup_bucket_after.
      pose proof (refill_le_max l (inject_Z t) redis). split; lra.
    + unfold notAhead. rewrite lookup_insert_eq. exact Ht.
  - split; [exact Hok|]. unfold notAhead in *.
    destruct (redis !! lastUpdateKey l); [lra|exact I].
Qed.

(** From one call to the next, what is available grows by no more than
    the refill of the time between them, less what was granted. *)
Lemma refill_step c t t' (redis : Redis) :
  (0 <= refillRate l)%Q -> t <= t' -> settled l t redis ->
  (refill l (inject_Z t') (snd (tryAcquire l c t redis))
   + (if fst (tryAcquire l c t redis) then c else 0)
   <= refill l (inject_Z t) redis
      + (inject_Z t' - inject_Z t) / 1000 * refillRate l)%Q.
Proof.
  intros Hr Htt [Hok Hlu].
  assert (Ht : (inject_Z t <= inject_Z t')%Q) by now rewrite <- Zle_Qle.
  pose proof (elapsed_nonneg _ _ Hr Ht) as Hd.
  unfold tryAcquire.
  destruct (Qle_bool c _) eqn:E; cbn [fst snd].
  - set (a := refill l (inject_Z t) redis) in *.
    unfold refill at 1. rewrite lookup_bucket_after, lookup_insert_eq.
    cbn [from_option]; unfold id.
    pose proof (Q.le_min_r (maxTokens l)
                  (a - c + (inject_Z t' - inject_Z t) / 1000 * refillRate l)).
    lra.
  - unfold refill, notAhead in *.
    set (tk := default (maxTokens l) (redis !! bucketKey l)) in *.
    destruct (redis !! lastUpdateKey l) as [lu|]; cbn [from_option]; unfold id.
    + assert (Es : (tk + (inject_Z t' - lu) / 1000 * refillRate l
                    == (tk + (inject_Z t - lu) / 1000 * refillRate l)
                       + (inject_Z t' - inject_Z t) / 1000 * refillRate l)%Q)
        by field.
      rewrite Es.
      pose proof (Qmin_shift (maxTokens l)
                    (tk + (inject_Z t - lu) / 1000 * refillRate l) _ Hd).
      lra.
    + assert (E1 : (tk + (inject_Z t' - inject_Z t') / 1000 * refillRate l == tk)%Q)
        by field.
      assert (E2 : (tk + (inject_Z t - inject_Z t) / 1000 * refillRate l == tk)%Q)
        by field.
      rewrite E1, E2. lra.
Qed.

Lemma last_cons_shift (a d : Z) (ts : list Z) :
  List.last (a :: ts) d = List.last ts a.
Proof.
  revert a d. induction ts as [|b ts IH]; intros a d; [reflexivity|].
  change (List.last (a :: b :: ts) d) with (List.last (b :: ts) d).
  now rewrite (IH b d), (IH b a).
Qed.

(** The tokens handed out by a run of calls, and what is left after it,
    against what was there and what the elapsed time refilled. *)
Lemma tryAcquireAt_budget c : forall (ts : list Z) t (redis : Redis),
  (0 <= maxTokens l)%Q -> (0 <= refillRate l)%Q -> (0 <= c)%Q ->
  ascending (t :: ts) -> settled l t redis ->
  let run := tryAcquireAt l c (t :: ts) redis in
  let tn := List.last ts t in
  settled l tn (snd run) /\
  (inject_Z (Z.of_nat (count_occ bool_dec (fst run) true)) * c
   + refill l (inject_Z tn) (snd run)
   <= refill l (inject_Z t) redis
      + (inject_Z tn - inject_Z t) / 1000 * refillRate l)%Q.
Proof.
  induction ts as [|t' ts IH]; intros t redis Hm Hr Hc Hasc Hset.
  - cbn [tryAcquireAt List.last].
    destruct (tryAcquire l c t redis) as [r r1] eqn:E. cbn [fst snd].
    pose proof (settled_step c t t redis Hc ltac:(lia) Hset) as Hs.
    pose proof (refill_step c t t redis Hr ltac:(lia) Hset) as Hb.
    rewrite E in Hs, Hb. cbn [fst snd] in Hs, Hb.
    split; [exact Hs|].
    destruct r; cbn [count_occ];
      (destruct (bool_dec _ _); try congruence);
      change (inject_Z (Z.of_nat 0)) with 0%Q;
      change (inject_Z (Z.of_nat 1)) with 1%Q; lra.
  - destruct Hasc as [Htt Hasc].
    change (tryAcquireAt l c (t :: t' :: ts) redis)
      with (let '(r, redis1) := tryAcquire l c t redis in
            let '(rs, redis2) := tryAcquireAt l c (t' :: ts) redis1 in
            (r :: rs, redis2)).
    pose proof (settled_step c t t' redis Hc Htt Hset) as Hs.
    pose proof (refill_step c t t' redis Hr Htt Hset) as Hb.
    destruct (tryAcquire l c t redis) as [r r1] eqn:E. cbn [fst snd] in Hs, Hb.
    specialize (IH t' r1 Hm Hr Hc Hasc Hs).
    destruct (tryAcquireAt l c (t' :: ts) r1) as [rs r2] eqn:E2.
    cbn [fst snd] in IH |- *. destruct IH as [IHs IHb].
    rewrite last_cons_shift.
    split; [exact IHs|].
    set (tn := List.last ts t') in *.
    assert (Es : ((inject_Z tn - inject_Z t) / 1000 * refillRate l
                  == (inject_Z tn - inject_Z t') / 1000 * refillRate l
                     + (inject_Z t' - inject_Z t) / 1000 * refillRate l)%Q)
      by field.
    rewrite Es.
    set (d1 := ((inject_Z tn - inject_Z t') / 1000 * refillRate l)%Q) in *.
    set (d2 := ((inject_Z t' - inject_Z t) / 1000 * refillRate l)%Q) in *.
    destruct r; cbn [count_occ];
      (destruct (bool_dec _ _); try congruence).
    + rewrite Nat2Z.inj_succ. unfold Z.succ. rewrite inject_Z_plus.
      change (inject_Z 1) with 1%Q.
      set (g := inject_Z (Z.of_nat (count_occ bool_dec rs true))) in *. lra.
    + lra.
Qed.

End RateLimiterOverTime.

Section WaitForTokenFacts.
Import RateLimiter RateLimiterCalls.
Variable l : RateLimiter.t.

(** A call that is refused changes nothing. *)
Lemma tryAcquire_refused c t (redis r : Redis) :
  tryAcquire l c t redis = (false, r) -> r = redis.
Proof.
  unfold tryAcquire. destruct (Qle_bool c _); intros [= E]; congruence.
Qed.

Lemma waitLoop_outcome c maxWait start : forall (clock : list Z) (redis : Redis),
  match waitLoop l c maxWait start clock redis with
  | Some (true, redis') =>
      exists t, In t clock /\ tryAcquire l c t redis = (true, redis')
  | Some (false, redis') =>
      redis' = redis /\ exists t, In t clock /\ maxWait <= t - start
  | None => True
  end.
Proof.
  assert (H : forall (clock : list Z),
    (forall redis : Redis,
      match waitLoop l c maxWait start clock redis with
      | Some (true, redis') =>
          exists t, In t clock /\ tryAcquire l c t redis = (true, redis')
      | Some (false, redis') =>
          redis' = redis /\ exists t, In t clock /\ maxWait <= t - start
      | None => True
      end) /\
    (forall x (redis : Redis),
      match waitLoop l c maxWait start (x :: clock) redis with
      | Some (true, redis') =>
          exists t, In t (x :: clock) /\ tryAcquire l c t redis = (true, redis')
      | Some (false, redis') =>
          redis' = redis /\ exists t, In t (x :: clock) /\ maxWait <= t - start
      | None => True
      end)).
  { induction clock as [|y clock [IH1 IH2]].
    - split; [intros; exact I|]. intros x redis. cbn [waitLoop].
      destruct (Z.ltb_spec (x - start) maxWait); [exact I|].
      split; [reflexivity|]. exists x. split; [now left|lia].
    - split; [exact (IH2 y)|]. intros x redis. cbn [waitLoop].
      destruct (Z.ltb_spec (x - start) maxWait).
      + destruct (tryAcquire l c y redis) as [[|] r1] eqn:E.
        * exists y. split; [right; now left|exact E].
        * apply tryAcquire_refused in E. subst r1.
          specialize (IH1 redis).
          destruct (waitLoop l c maxWait start clock redis) as [[[|] r2]|].
          -- destruct IH1 as (t & Hin & Ht). exists t. split; [right; now right|exact Ht].
          -- destruct IH1 as (Hr & t & Hin & Ht). split; [exact Hr|].
             exists t. split; [right; now right|exact Ht].
          -- exact I.
      + split; [reflexivity|]. exists x. split; [now left|lia]. }
  intros clock. exact (proj1 (H clock)).
Qed.

End WaitForTokenFacts.

(** Over any run of calls whose clock does not go back, on a bucket as
    the script leaves it, the tokens granted are bounded by the capacity
    plus what the refill rate yields over the time the run spans. *)
Theorem tryAcquire_rate_bound
    (l : RateLimiter.t) (c : Q) (t : Z) (ts : list Z) (redis : gmap string Q) :
  (0 <= RateLimiter.maxTokens l)%Q ->
  (0 <= RateLimiter.refillRate l)%Q ->
  (0 <= c)%Q ->
  RateLimiterCalls.ascending (t :: ts) ->
  RateLimiterCalls.settled l t redis ->
  let granted :=
    count_occ bool_dec (fst (RateLimiterCalls.tryAcquireAt l c (t :: ts) redis)) true in
  (inject_Z (Z.of_nat granted) * c
   <= RateLimiter.maxTokens l
      + (inject_Z (List.last ts t) - inject_Z t) / 1000 * RateLimiter.refillRate l)%Q.
Proof.
  intros Hm Hr Hc Hasc Hset granted.
  destruct (tryAcquireAt_budget l c ts t redis Hm Hr Hc Hasc Hset) as [Hs Hb].
  pose proof (refill_nonneg l _ _ Hm Hr Hs) as Hn.
  pose proof (refill_le_max l (inject_Z t) redis) as Hx.
  fold granted in Hb.
  set (d := ((inject_Z (List.last ts t) - inject_Z t) / 1000
             * RateLimiter.refillRate l)%Q) in *.
  set (g := (inject_Z (Z.of_nat granted) * c)%Q) in *. lra.
Qed.

Lemma tryAcquire_rate_bound_witness :
  let granted :=
    count_occ bool_dec
      (fst (RateLimiterCalls.tryAcquireAt googleAdsRateLimiter 1
              [1700000000000; 1700000000100; 1700000000200] ∅)) true in
  (inject_Z (Z.of_nat granted) * 1
   <= RateLimiter.maxTokens googleAdsRateLimiter
      + (inject_Z (List.last [1700000000100; 1700000000200]%Z 1700000000000%Z)
         - inject_Z 1700000000000) / 1000
        * RateLimiter.refillRate googleAdsRateLimiter)%Q.
Proof.
  apply (tryAcquire_rate_bound googleAdsRateLimiter 1 1700000000000
           [1700000000100; 1700000000200] ∅).
  - vm_compute. discriminate.
  - vm_compute. discriminate.
  - vm_compute. discriminate.
  - simpl. lia.
  - vm_compute. split; exact I.
Defined.

(** A cost above the capacity is never granted, whatever the state and
    the time: [tryAcquire] refuses it and leaves the keys alone, and
    [waitForToken] can only time out. *)
Theorem cost_above_capacity_refused
    (l : RateLimiter.t) (c : Q) (now maxWaitMs : Z) (clock : list Z)
    (redis : gmap string Q) :
  (RateLimiter.maxTokens l < c)%Q ->
  RateLimiter.tryAcquire l c now redis = (false, redis) /\
  forall redis', RateLimiterCalls.waitForToken l c maxWaitMs clock redis
                 <> Some (true, redis').
Proof.
  intros Hc.
  assert (R : forall t (r : gmap string Q),
            RateLimiter.tryAcquire l c t r = (false, r)).
  { intros t r. apply tryAcquire_false.
    destruct (Qle_bool c _) eqn:E; [|reflexivity].
    apply Qle_bool_iff in E.
    pose proof (refill_le_max l (inject_Z t) r). lra. }
  split; [apply R|].
  intros redis' H. unfold RateLimiterCalls.waitForToken in H.
  destruct clock as [|start clock]; [discriminate|].
  pose proof (waitLoop_outcome l c maxWaitMs start clock redis) as W.
  rewrite H in W. destruct W as (t & _ & E). rewrite R in E. discriminate.
Qed.

Lemma cost_above_capacity_refused_witness :
  RateLimiter.tryAcquire googleAdsRateLimiter 61 1700000000000 ∅ = (false, ∅) /\
  forall redis',
    RateLimiterCalls.waitForToken googleAdsRateLimiter 61 30000
      [1700000000000; 1700000000000; 1700000000001; 1700000030000] ∅
    <> Some (true, redis').
Proof.
  apply (cost_above_capacity_refused googleAdsRateLimiter 61).
  vm_compute. reflexivity.
Defined.

(** A request for whole tokens is granted once whole seconds have
    refilled it: with a stored count, a rate, a cost and a last update
    that are whole numbers, [seconds] whole seconds after the last update
    the request is granted if [cost <= stored + seconds * rate] and
    [cost <= capacity].  (With all quantities whole and at most 2^53, the
    divisions and products of the script are exact in floating point as
    well.) *)
Theorem tryAcquire_granted_after_refill
    (l : RateLimiter.t) (capacity rate stored cost lastUpdate seconds : Z)
    (redis : gmap string Q) :
  RateLimiter.maxTokens l = inject_Z capacity ->
  RateLimiter.refillRate l = inject_Z rate ->
  redis !! RateLimiter.bucketKey l = Some (inject_Z stored) ->
  redis !! RateLimiter.lastUpdateKey l = Some (inject_Z lastUpdate) ->
  0 <= stored <= capacity ->
  0 <= rate ->
  0 <= seconds ->
  0 <= cost <= capacity ->
  cost <= stored + seconds * rate ->
  0 <= lastUpdate ->
  lastUpdate + 1000 * seconds <= 2 ^ 53 ->
  stored + seconds * rate <= 2 ^ 53 ->
  capacity <= 2 ^ 53 ->
  fst (RateLimiter.tryAcquire l (inject_Z cost) (lastUpdate + 1000 * seconds) redis)
  = true.
Proof.
  intros Hcap Hrate Hb Hlu Hs Hr Hsec Hc Hcost _ _ _ _.
  unfold RateLimiter.tryAcquire.
  destruct (Qle_bool (inject_Z cost) _) eqn:E; [reflexivity|].
  assert (F : (inject_Z cost
               <= RateLimiter.refill l (inject_Z (lastUpdate + 1000 * seconds))
                    redis)%Q).
  { unfold RateLimiter.refill. rewrite Hb, Hlu, Hcap, Hrate.
    cbn [from_option]. unfold id.
    apply Q.min_glb; [rewrite <- Zle_Qle; lia|].
    assert (((inject_Z (lastUpdate + 1000 * seconds) - inject_Z lastUpdate) / 1000
             * inject_Z rate == inject_Z (seconds * rate))%Q) as ->.
    { rewrite inject_Z_plus, !inject_Z_mult.
      change (inject_Z 1000) with 1000%Q. field. }
    rewrite <- inject_Z_plus, <- Zle_Qle. exact Hcost. }
  apply Qle_bool_iff in F. congruence.
Qed.

Lemma tryAcquire_granted_after_refill_witness :
  fst (RateLimiter.tryAcquire googleAdsRateLimiter (inject_Z 1)
         (1700000000000 + 1000 * 1)
         (<[RateLimiter.lastUpdateKey googleAdsRateLimiter := inject_Z 1700000000000]>
            (<[RateLimiter.bucketKey googleAdsRateLimiter := inject_Z 0]> ∅))) = true.
Proof.
  apply (tryAcquire_granted_after_refill googleAdsRateLimiter 60 1 0 1
           1700000000000 1).
  - reflexivity.
  - reflexivity.
  - reflexivity.
  - reflexivity.
  - lia.
  - lia.
  - lia.
  - lia.
  - lia.
  - lia.
  - vm_compute. discriminate.
  - vm_compute. discriminate.
  - vm_compute. discriminate.
Defined.

(** [waitForToken] either gives up, and then has changed nothing and has
    seen a clock reading at least [maxWaitMs] after its start, or
    succeeds, and then has done exactly what one granted [tryAcquire] at
    one of its clock readings does. *)
Theorem waitForToken_outcome
    (l : RateLimiter.t) (c : Q) (maxWaitMs start : Z) (clock : list Z)
    (redis : gmap string Q) :
  match RateLimiterCalls.waitForToken l c maxWaitMs (start :: clock) redis with
  | Some (true, redis') =>
      exists t, In t clock /\ RateLimiter.tryAcquire l c t redis = (true, redis')
  | Some (false, redis') =>
      redis' = redis /\ exists t, In t clock /\ maxWaitMs <= t - start
  | None => True
  end.
Proof. cbn [RateLimiterCalls.waitForToken]. apply waitLoop_outcome. Qed.

(** [waitForToken] returns as soon as a test of its loop reads a clock
    that is [maxWaitMs] or more past the start, if no call was granted
    before: with such a reading at a test position, the readings never
    run out. *)
Theorem waitForToken_returns
    (l : RateLimiter.t) (c : Q) (maxWaitMs start t : Z) (pre rest : list Z)
    (n : nat) (redis : gmap string Q) :
  length pre = (2 * n)%nat ->
  maxWaitMs <= t - start ->
  exists r,
    RateLimiterCalls.waitForToken l c maxWaitMs (start :: pre ++ t :: rest) redis
    = Some r.
Proof.
  intros Hlen Ht. cbn [RateLimiterCalls.waitForToken].
  revert pre Hlen redis. induction n as [|n IH]; intros pre Hlen redis.
  - destruct pre; [|discriminate]. cbn [app RateLimiterCalls.waitLoop].
    destruct (Z.ltb_spec (t - start) maxWaitMs); [lia|].
    destruct rest; eauto.
  - destruct pre as [|a [|b pre]]; try (cbn in Hlen; lia).
    cbn [app RateLimiterCalls.waitLoop].
    destruct (a - start <? maxWaitMs); [|eauto].
    destruct (RateLimiter.tryAcquire l c b redis) as [[|] redis1]; [eauto|].
    apply IH. cbn in Hlen. lia.
Qed.

Lemma waitForToken_returns_witness :
  exists r,
    RateLimiterCalls.waitForToken googleAdsRateLimiter 61 30000
      (1700000000000 :: [1700000000000; 1700000000001] ++ 1700000030002 :: []) ∅
    = Some r.
Proof.
  apply (waitForToken_returns googleAdsRateLimiter 61 30000 1700000000000
           1700000030002 [1700000000000; 1700000000001] [] 1 ∅).
  - reflexivity.
  - lia.
Defined.

(** ** The cache helper *)

Section CacheFacts.

Lemma prefix_app (a s : string) :
  String.prefix a s = true <-> exists b, s = a +:+ b.
Proof.
  revert s. induction a as [|c a IH]; intros s.
  - split; [intros _; exists s; reflexivity|]. intros _. now destruct s.
  - destruct s as [|c' s]; cbn [String.prefix String.append].
    + split; [discriminate|]. intros [b E]. discriminate.
    + destruct (Ascii.ascii_dec c c') as [<-|N].
      * rewrite IH. split; intros [b E]; exists b;
          cbn [String.append] in *; [now rewrite E|now injection E].
      * split; [discriminate|]. intros [b E]. cbn [String.append] in E.
        injection E as E1 _. exfalso. apply N. now symmetry.
Qed.

Lemma contains_app (needle hay : string) :
  Cache.contains needle hay = true <->
  exists a b, hay = a +:+ needle +:+ b.
Proof.
  induction hay as [|c hay IH]; cbn [Cache.contains].
  - destruct (String.prefix needle "") eqn:P.
    + apply prefix_app in P as [b E]. split; [|reflexivity].
      intros _. exists "", b. exact E.
    + split; [discriminate|]. intros (a & b & E).
      destruct a as [|? ?]; [|discriminate].
      assert (String.prefix needle "" = true) by (apply prefix_app; eauto).
      congruence.
  - destruct (String.prefix needle (String c hay)) eqn:P.
    + apply prefix_app in P as [b E]. split; [|reflexivity].
      intros _. exists "", b. exact E.
    + rewrite IH. split.
      * intros (a & b & E). exists (String c a), b. cbn. now rewrite E.
      * intros (a & b & E). destruct a as [|c' a].
        -- assert (String.prefix needle (String c hay) = true)
             by (apply prefix_app; eauto). congruence.
        -- cbn in E. injection E as _ E. eauto.
Qed.

Lemma substring_all (s : string) : String.substring 0 (String.length s) s = s.
Proof. induction s as [|c s IH]; cbn; [reflexivity|now rewrite IH]. Qed.

End CacheFacts.

Lemma matchesMetricsOf_glob (adAccountId key : string) :
  Cache.matchesMetricsOf adAccountId key = true <->
  exists a b, key = "metrics:" +:+ a +:+ adAccountId +:+ b.
Proof.
  unfold Cache.matchesMetricsOf. rewrite andb_true_iff, prefix_app. split.
  - intros [[rest ->] H]. apply contains_app in H as (a & b & E).
    exists a, b. simpl in E. change ("" +:+ rest) with rest in E.
    rewrite Nat.sub_0_r, substring_all in E. now rewrite E.
  - intros (a & b & ->). split; [eexists; reflexivity|].
    apply contains_app. exists a, b. simpl.
    change ("" +:+ a +:+ adAccountId +:+ b) with (a +:+ adAccountId +:+ b).
    rewrite Nat.sub_0_r. apply substring_all.
Qed.

(** With the cache client up, [delPattern] on [metrics:*<id>*] deletes
    every key made of [metrics:], any text, the account id and any text,
    keeps every other key with its value (so a cached answer whose key does
    not spell the account id survives the sync), and touches nothing but
    the cache. *)
Theorem delPattern_purges_account (adAccountId : string) (w : World) :
  cacheError w = None ->
  let out := Cache.delPattern adAccountId w in
  fst out = Ok tt /\
  (forall a b,
     cache (snd out) !! ("metrics:" +:+ a +:+ adAccountId +:+ b) = None) /\
  (forall k, (forall a b, k <> "metrics:" +:+ a +:+ adAccountId +:+ b) ->
             cache (snd out) !! k = cache w !! k) /\
  with_cache (cache w) (snd out) = w.
Proof.
  intros H out. subst out. unfold Cache.delPattern. rewrite H. cbn [fst snd].
  split; [reflexivity|]. split; [|split].
  - intros a b. apply map_lookup_filter_None. right. intros v _. cbn.
    assert (Cache.matchesMetricsOf adAccountId
              ("metrics:" +:+ a +:+ adAccountId +:+ b) = true) as ->
      by (apply matchesMetricsOf_glob; now exists a, b).
    discriminate.
  - intros k E.
    assert (Cache.matchesMetricsOf adAccountId k = false) as F.
    { destruct (Cache.matchesMetricsOf adAccountId k) eqn:M; [|reflexivity].
      apply matchesMetricsOf_glob in M as (a & b & ->). now destruct (E a b). }
    destruct (cache w !! k) as [v|] eqn:L.
    + apply map_lookup_filter_Some. split; [exact L|exact F].
    + apply map_lookup_filter_None. left. exact L.
  - now destruct w.
Qed.

Lemma delPattern_purges_account_witness :
  let out := Cache.delPattern Scenario.accountId Cases.cachedWorld in
  fst out = Ok tt /\
  cache (snd out) !! Cases.accountKey = None /\
  cache (snd out) !! Cases.organizationKey = Some "[2]".
Proof.
  destruct (delPattern_purges_account Scenario.accountId Cases.cachedWorld
              eq_refl) as (H1 & H2 & H3 & _).
  split; [exact H1|]. split.
  - exact (H2 (Scenario.organizationId +:+ ":accountIds=") "").
  - reflexivity.
Defined.

(** ** More on access tokens *)

Section VaultMore.
Import GoogleAds.

Variable decrypt encrypt : string -> Result string.
Variable oauthRefresh : string -> Result (option string * option Z).

Lemma getValidAccessToken_still_valid now connectionId w c accessToken refreshToken :
  connections w !! connectionId = Some c ->
  decrypt (Connection.accessTokenEnc c) = Ok accessToken ->
  decrypt (Connection.refreshTokenEnc c) = Ok refreshToken ->
  isExpired now c = false ->
  getValidAccessToken decrypt encrypt oauthRefresh now connectionId w
  = (Ok accessToken, w).
Proof.
  intros Hc Ha Hr He.
  unfold getValidAccessToken, bind at 1, gets. rewrite Hc.
  unfold bind at 1, liftResult at 1. rewrite Ha.
  unfold bind at 1, liftResult at 1. rewrite Hr, He. reflexivity.
Qed.

Lemma getValidAccessToken_refreshes
    now connectionId w c accessToken refreshToken token expiry enc :
  connections w !! connectionId = Some c ->
  decrypt (Connection.accessTokenEnc c) = Ok accessToken ->
  decrypt (Connection.refreshTokenEnc c) = Ok refreshToken ->
  isExpired now c = true ->
  fst (refreshAccessToken oauthRefresh now refreshToken w) = Ok (token, expiry) ->
  encrypt token = Ok enc ->
  getValidAccessToken decrypt encrypt oauthRefresh now connectionId w
  = (Ok token,
     with_connections
       (<[connectionId := refreshed enc expiry now c]> (connections w)) w).
Proof.
  intros Hc Ha Hr He Hf Henc.
  pose proof (refreshAccessToken_world oauthRefresh now refreshToken w) as Hw.
  destruct (refreshAccessToken oauthRefresh now refreshToken w) as [r w'] eqn:E.
  cbn in Hf, Hw. subst r w'.
  unfold getValidAccessToken, bind at 1, gets. rewrite Hc.
  unfold bind at 1, liftResult at 1. rewrite Ha.
  unfold bind at 1, liftResult at 1. rewrite Hr, He.
  unfold tryCatch, bind at 1. rewrite E.
  unfold bind at 1, liftResult at 1. cbn [fst snd]. rewrite Henc.
  unfold bind, Prisma.connection_update, ret. now rewrite Hc.
Qed.

End VaultMore.

(** While the stored access token is good for more than five minutes,
    [getValidAccessToken] returns it as decrypted and changes nothing,
    whatever the provider would answer. *)
Theorem getValidAccessToken_valid_token_unchanged
    (decrypt encrypt : string -> Result string)
    (oauthRefresh : string -> Result (option string * option Z))
    (now : Z) (connectionId : string) (w : World) (c : Connection.t)
    (accessToken refreshToken : string) :
  connections w !! connectionId = Some c ->
  decrypt (Connection.accessTokenEnc c) = Ok accessToken ->
  decrypt (Connection.refreshTokenEnc c) = Ok refreshToken ->
  GoogleAds.isExpired now c = false ->
  GoogleAds.getValidAccessToken decrypt encrypt oauthRefresh now connectionId w
    = (Ok accessToken, w).
Proof.
  intros Hc Ha Hr He.
  eapply getValidAccessToken_still_valid; eassumption.
Qed.

Lemma getValidAccessToken_valid_token_unchanged_witness :
  GoogleAds.getValidAccessToken Scenario.noCrypt Scenario.noCrypt Scenario.revoked
    1704067200000 Scenario.connectionId Scenario.vaultWorld
    = (Ok "enc:access", Scenario.vaultWorld).
Proof.
  apply (getValidAccessToken_valid_token_unchanged Scenario.noCrypt Scenario.noCrypt
           Scenario.revoked 1704067200000 Scenario.connectionId
           Scenario.vaultWorld Scenario.connection "enc:access" "enc:refresh").
  - reflexivity.
  - reflexivity.
  - reflexivity.
  - reflexivity.
Defined.

(** A refresh that succeeds stores the new token encrypted, with its
    expiry, as an ACTIVE connection without error message, and keeps the
    refresh token; a later call made while that token is good for more
    than five minutes returns the same token and changes nothing
    (provided the stored ciphertext decrypts to what was encrypted). *)
Theorem getValidAccessToken_refresh_then_reuse
    (decrypt encrypt : string -> Result string)
    (oauthRefresh : string -> Result (option string * option Z))
    (now now' : Z) (connectionId : string) (w : World) (c : Connection.t)
    (accessToken refreshToken token enc : string) (expiry : Z) :
  connections w !! connectionId = Some c ->
  decrypt (Connection.accessTokenEnc c) = Ok accessToken ->
  decrypt (Connection.refreshTokenEnc c) = Ok refreshToken ->
  GoogleAds.isExpired now c = true ->
  fst (GoogleAds.refreshAccessToken oauthRefresh now refreshToken w)
    = Ok (token, expiry) ->
  encrypt token = Ok enc ->
  decrypt enc = Ok token ->
  now' + GoogleAds.expiryBuffer <= expiry ->
  let out := GoogleAds.getValidAccessToken decrypt encrypt oauthRefresh
               now connectionId w in
  fst out = Ok token /\
  connections (snd out) !! connectionId =
    Some (Connection.mk enc (Connection.refreshTokenEnc c) (Some expiry)
            (Some now) ConnectionStatus.ACTIVE None) /\
  GoogleAds.getValidAccessToken decrypt encrypt oauthRefresh now' connectionId
    (snd out) = (Ok token, snd out).
Proof.
  intros Hc Ha Hr He Hf Henc Hdec Hlater out.
  pose proof (getValidAccessToken_refreshes decrypt encrypt oauthRefresh now
                connectionId w c accessToken refreshToken token expiry enc
                Hc Ha Hr He Hf Henc) as H.
  subst out. rewrite H. cbn [fst snd].
  split; [reflexivity|]. split.
  - cbn. now rewrite lookup_insert_eq.
  - apply (getValidAccessToken_still_valid decrypt encrypt oauthRefresh now'
             connectionId _ (GoogleAds.refreshed enc expiry now c) token refreshToken).
    + cbn. now rewrite lookup_insert_eq.
    + exact Hdec.
    + exact Hr.
    + unfold GoogleAds.isExpired. cbn. apply Z.ltb_ge. exact Hlater.
Qed.

Lemma getValidAccessToken_refresh_then_reuse_witness :
  let out := GoogleAds.getValidAccessToken Scenario.noCrypt Scenario.noCrypt
               Cases.renewed 1704070700000 Scenario.connectionId
               Scenario.vaultWorld in
  fst out = Ok "ya29.renewed" /\
  connections (snd out) !! Scenario.connectionId =
    Some (Connection.mk "ya29.renewed"
            (Connection.refreshTokenEnc Scenario.connection)
            (Some 1704074400000) (Some 1704070700000)
            ConnectionStatus.ACTIVE None) /\
  GoogleAds.getValidAccessToken Scenario.noCrypt Scenario.noCrypt Cases.renewed
    1704072000000 Scenario.connectionId (snd out)
    = (Ok "ya29.renewed", snd out).
Proof.
  apply (getValidAccessToken_refresh_then_reuse Scenario.noCrypt Scenario.noCrypt
           Cases.renewed 1704070700000 1704072000000 Scenario.connectionId
           Scenario.vaultWorld Scenario.connection "enc:access" "enc:refresh"
           "ya29.renewed" "ya29.renewed" 1704074400000).
  - reflexivity.
  - reflexivity.
  - reflexivity.
  - reflexivity.
  - reflexivity.
  - reflexivity.
  - reflexivity.
  - vm_compute. discriminate.
Defined.

(** Both stored tokens are decrypted before the expiry is looked at: when
    the refresh token does not decrypt, the call fails with that error
    even though the access token is still good, and the connection row is
    left as it was (it is not set to EXPIRED). *)
Theorem getValidAccessToken_unreadable_refresh_token
    (decrypt encrypt : string -> Result string)
    (oauthRefresh : string -> Result (option string * option Z))
    (now : Z) (connectionId : string) (w : World) (c : Connection.t)
    (accessToken : string) (error : JsError) :
  connections w !! connectionId = Some c ->
  decrypt (Connection.accessTokenEnc c) = Ok accessToken ->
  decrypt (Connection.refreshTokenEnc c) = Throw error ->
  GoogleAds.getValidAccessToken decrypt encrypt oauthRefresh now connectionId w
  = (Throw error, w).
Proof.
  intros Hc Ha Hr.
  unfold GoogleAds.getValidAccessToken, bind at 1, gets. rewrite Hc.
  unfold bind at 1, GoogleAds.liftResult at 1. rewrite Ha.
  unfold bind at 1, GoogleAds.liftResult at 1. now rewrite Hr.
Qed.

Lemma getValidAccessToken_unreadable_refresh_token_witness :
  GoogleAds.getValidAccessToken Cases.refreshUnreadable Scenario.noCrypt
    Cases.renewed 1704067200000 Scenario.connectionId Scenario.vaultWorld
  = (Throw (ErrorObject "Unsupported state or unable to authenticate data"),
     Scenario.vaultWorld).
Proof.
  apply (getValidAccessToken_unreadable_refresh_token Cases.refreshUnreadable
           Scenario.noCrypt Cases.renewed 1704067200000 Scenario.connectionId
           Scenario.vaultWorld Scenario.connection "enc:access").
  - reflexivity.
  - reflexivity.
  - reflexivity.
Defined.

(** ** What a sync leaves alone *)

Ltac wsimp :=
  cbn [fst snd connections adAccounts syncJobs campaigns adGroups metricsFacts
       nextId syncQueue progress queueError cache cacheError console
       with_connections with_adAccounts with_syncJobs with_campaigns
       with_adGroups with_metricsFacts with_nextId with_syncQueue
       with_progress with_cache with_console
       Campaign.id Campaign.name Campaign.status
       AdGroup.id AdGroup.campaignId AdGroup.name AdGroup.status
       MetricsFact.id MetricsFact.measures] in *.

Section KeepsFacts.
Import Frame.

Context {St : Type} (R : St -> St -> Prop).
Hypothesis R_refl : forall s, R s s.
Hypothesis R_trans : forall x y z, R x y -> R y z -> R x z.

Lemma keeps_ret {A} (a : A) : keeps R (ret a).
Proof. intros s. apply R_refl. Qed.

Lemma keeps_throw {A} (e : JsError) : keeps R (@throw St A e).
Proof. intros s. apply R_refl. Qed.

Lemma keeps_gets {A} (f : St -> A) : keeps R (gets f).
Proof. intros s. apply R_refl. Qed.

Lemma keeps_bind {A B} (c : M St A) (k : A -> M St B) :
  keeps R c -> (forall a, keeps R (k a)) -> keeps R (bind c k).
Proof.
  intros Hc Hk s. unfold bind. specialize (Hc s).
  destruct (c s) as [[a|e] s1]; cbn [snd] in *; [|exact Hc].
  eapply R_trans; [exact Hc|apply Hk].
Qed.

Lemma keeps_tryCatch {A} (c : M St A) (h : JsError -> M St A) :
  keeps R c -> (forall e, keeps R (h e)) -> keeps R (tryCatch c h).
Proof.
  intros Hc Hh s. unfold tryCatch. specialize (Hc s).
  destruct (c s) as [[a|e] s1]; cbn [snd] in *; [exact Hc|].
  eapply R_trans; [exact Hc|apply Hh].
Qed.

Lemma keeps_forEach {A} (l : list A) (body : A -> M St unit) :
  (forall x, keeps R (body x)) -> keeps R (forEach l body).
Proof.
  intros Hb. induction l as [|x l IH]; cbn [forEach].
  - apply keeps_ret.
  - apply keeps_bind; [apply Hb|intros _; exact IH].
Qed.

End KeepsFacts.

Section SyncFrameFacts.
Import Frame SyncProcessor.

Lemma keeps_inWorld {A} (R : World -> World -> Prop) (c : M World A) :
  keeps R c -> keeps (onWorld R) (inWorld c).
Proof.
  intros Hc [w n]. unfold inWorld, onWorld. cbn [fst]. specialize (Hc w).
  destruct (c w) as [r w1]. exact Hc.
Qed.

Lemma sameJob_refl j : sameJob j j.
Proof. repeat split. Qed.

Lemma sameJob_trans j1 j2 j3 : sameJob j1 j2 -> sameJob j2 j3 -> sameJob j1 j3.
Proof.
  intros (A1 & A2 & A3 & A4 & A5 & A6 & A7) (B1 & B2 & B3 & B4 & B5 & B6 & B7).
  repeat split; try congruence.
  intros H. specialize (A7 H). subst j2. now apply B7.
Qed.

Lemma jobsKept_refl w : jobsKept w w.
Proof.
  unfold jobsKept. induction (syncJobs w); constructor; auto using sameJob_refl.
Qed.

Lemma rowsKept_refl w : rowsKept w w.
Proof. repeat split; intros; eauto 7. Qed.

Lemma rowsKept_trans w1 w2 w3 : rowsKept w1 w2 -> rowsKept w2 w3 -> rowsKept w1 w3.
Proof.
  intros (A1 & A2 & A3) (B1 & B2 & B3). repeat split.
  - intros k c H. destruct (A1 k c H) as (c' & H' & E1 & E2).
    destruct (B1 k c' H') as (c'' & H'' & F1 & F2).
    exists c''. repeat split; congruence.
  - intros k g H. destruct (A2 k g H) as (g' & H' & E1 & E2 & E3).
    destruct (B2 k g' H') as (g'' & H'' & F1 & F2 & F3).
    exists g''. repeat split; congruence.
  - intros k r H. destruct (A3 k r H) as (r' & H' & E1).
    destruct (B3 k r' H') as (r'' & H'' & F1).
    exists r''. repeat split; congruence.
Qed.

Lemma syncFrame_refl acct w : syncFrame acct w w.
Proof.
  split; [apply jobsKept_refl|]. split; [|apply rowsKept_refl].
  split; auto.
Qed.

Lemma syncFrame_trans acct w1 w2 w3 :
  syncFrame acct w1 w2 -> syncFrame acct w2 w3 -> syncFrame acct w1 w3.
Proof.
  intros (J1 & (O1 & Q1) & K1) (J2 & (O2 & Q2) & K2).
  split; [|split; [split|]].
  - unfold jobsKept in *. revert J2. generalize (syncJobs w3).
    induction J1 as [|a b l l' Hab Hl IH]; intros l3 J2; inversion J2; subst;
      constructor; eauto using sameJob_trans.
  - intros id Hid. rewrite O2, O1 by exact Hid. reflexivity.
  - congruence.
  - eapply rowsKept_trans; eassumption.
Qed.

Lemma syncFrame_same acct w w' :
  syncJobs w' = syncJobs w -> adAccounts w' = adAccounts w ->
  syncQueue w' = syncQueue w -> rowsKept w w' ->
  syncFrame acct w w'.
Proof.
  intros Hj Ha Hq Hr. split; [|split; [split|]].
  - unfold jobsKept. rewrite Hj. apply jobsKept_refl.
  - intros. now rewrite Ha.
  - exact Hq.
  - exact Hr.
Qed.

Lemma rowsKept_same w w' :
  campaigns w' = campaigns w -> adGroups w' = adGroups w ->
  metricsFacts w' = metricsFacts w -> rowsKept w w'.
Proof.
  intros Hc Hg Hf. unfold rowsKept. rewrite Hc, Hg, Hf. apply rowsKept_refl.
Qed.

Lemma onWorld_refl acct (s : World * nat) : onWorld (syncFrame acct) s s.
Proof. apply syncFrame_refl. Qed.

Lemma onWorld_trans acct (x y z : World * nat) :
  onWorld (syncFrame acct) x y -> onWorld (syncFrame acct) y z ->
  onWorld (syncFrame acct) x z.
Proof. apply syncFrame_trans. Qed.

(** *** The store's calls *)

Lemma dateArg_state s w : snd (Prisma.dateArg s w) = w.
Proof. unfold Prisma.dateArg. now destruct (JsDate.parseDate s). Qed.

Lemma keeps_dateArg acct s : keeps (syncFrame acct) (Prisma.dateArg s).
Proof. intros w. rewrite dateArg_state. apply syncFrame_refl. Qed.

Lemma keeps_updateMany acct where_ data_ :
  (forall j, where_ j = true -> sameJob j (data_ j)) ->
  keeps (syncFrame acct) (Prisma.syncJob_updateMany where_ data_).
Proof.
  intros H w. unfold Prisma.syncJob_updateMany, modify. cbn [snd].
  split; [|split; [split; reflexivity|apply rowsKept_same; reflexivity]].
  unfold jobsKept. wsimp. induction (syncJobs w) as [|j l IH]; cbn [map];
    constructor; [|exact IH].
  destruct (where_ j) eqn:E; [now apply H|apply sameJob_refl].
Qed.

Lemma thisJob_nonTerminal job statuses from to j :
  thisJob job statuses from to j = true ->
  Forall (fun s => s = SyncJobStatus.PENDING \/ s = SyncJobStatus.RUNNING) statuses ->
  SyncJob.nonTerminal j = true.
Proof.
  unfold thisJob. rewrite !andb_true_iff. intros (((_ & H) & _) & _) Hs.
  apply existsb_exists in H as (s & Hin & E).
  rewrite Forall_forall in Hs. unfold SyncJob.nonTerminal.
  destruct (Hs s) as [-> | ->]; [now apply list_elem_of_In| |];
    rewrite E; [reflexivity|apply orb_true_r].
Qed.

Lemma keeps_markJob acct job statuses data_ :
  Forall (fun s => s = SyncJobStatus.PENDING \/ s = SyncJobStatus.RUNNING) statuses ->
  (forall j, SyncJob.id (data_ j) = SyncJob.id j /\
             SyncJob.adAccountId (data_ j) = SyncJob.adAccountId j /\
             SyncJob.jobType (data_ j) = SyncJob.jobType j /\
             SyncJob.dateFrom (data_ j) = SyncJob.dateFrom j /\
             SyncJob.dateTo (data_ j) = SyncJob.dateTo j /\
             SyncJob.createdAt (data_ j) = SyncJob.createdAt j) ->
  keeps (syncFrame acct) (markJob job statuses data_).
Proof.
  intros Hs Hd. unfold markJob.
  apply keeps_bind; [apply syncFrame_trans|apply keeps_dateArg|]. intros from.
  apply keeps_bind; [apply syncFrame_trans|apply keeps_dateArg|]. intros to.
  apply keeps_updateMany. intros j Hj.
  destruct (Hd j) as (D1 & D2 & D3 & D4 & D5 & D6).
  repeat split; try assumption.
  intros Hn. rewrite (thisJob_nonTerminal _ _ _ _ _ Hj Hs) in Hn. discriminate.
Qed.

Lemma keeps_adAccount_update acct data_ :
  keeps (syncFrame acct) (Prisma.adAccount_update acct data_).
Proof.
  intros w. unfold Prisma.adAccount_update.
  destruct (adAccounts w !! acct) as [a|]; cbn [snd]; [|apply syncFrame_refl].
  split; [exact (jobsKept_refl w)|]. split; [|apply rowsKept_same; reflexivity].
  split; [|reflexivity]. intros id Hid. wsimp. now rewrite lookup_insert_ne.
Qed.

Lemma keeps_campaign_upsert acct key create update :
  (forall c, Campaign.id (update c) = Campaign.id c /\
             Campaign.status (update c) = Campaign.status c) ->
  keeps (syncFrame acct) (Prisma.campaign_upsert key create update).
Proof.
  intros Hu w. unfold Prisma.campaign_upsert.
  destruct (campaigns w !! key) as [c0|] eqn:E; cbn [snd];
    (apply syncFrame_same; [reflexivity..|]);
    (split; [|split; intros; eauto 7]); intros k c Hk; wsimp;
    destruct (decide (k = key)) as [->|N].
  - rewrite lookup_insert_eq. assert (c = c0) as -> by congruence.
    destruct (Hu c0). eauto.
  - rewrite lookup_insert_ne by congruence. eauto.
  - congruence.
  - rewrite lookup_insert_ne by congruence. eauto.
Qed.

Lemma keeps_adGroup_upsert acct key create update :
  (forall g, AdGroup.id (update g) = AdGroup.id g /\
             AdGroup.campaignId (update g) = AdGroup.campaignId g /\
             AdGroup.status (update g) = AdGroup.status g) ->
  keeps (syncFrame acct) (Prisma.adGroup_upsert key create update).
Proof.
  intros Hu w. unfold Prisma.adGroup_upsert.
  destruct (adGroups w !! key) as [g0|] eqn:E; cbn [snd];
    (apply syncFrame_same; [reflexivity..|]);
    (split; [intros; eauto 7|split; [|intros; eauto 7]]); intros k g Hk; wsimp;
    destruct (decide (k = key)) as [->|N].
  - rewrite lookup_insert_eq. assert (g = g0) as -> by congruence.
    destruct (Hu g0) as (? & ? & ?). eauto 7.
  - rewrite lookup_insert_ne by congruence. eauto 7.
  - congruence.
  - rewrite lookup_insert_ne by congruence. eauto 7.
Qed.

Lemma keeps_upsertFact acct key ms :
  keeps (syncFrame acct) (upsertFact key ms).
Proof.
  intros w. unfold upsertFact, Prisma.metricsFact_upsert.
  destruct (metricsFacts w !! key) as [r0|] eqn:E; cbn [snd];
    (apply syncFrame_same; [reflexivity..|]);
    (split; [intros; eauto 7|split; [intros; eauto 7|]]); intros k r Hk; wsimp;
    destruct (decide (k = key)) as [->|N].
  - rewrite lookup_insert_eq. assert (r = r0) as -> by congruence. eauto.
  - rewrite lookup_insert_ne by congruence. eauto.
  - congruence.
  - rewrite lookup_insert_ne by congruence. eauto.
Qed.

Lemma keeps_updateProgress acct jobId p :
  keeps (syncFrame acct) (Queue.updateProgress jobId p).
Proof.
  intros w. unfold Queue.updateProgress. destruct (queueError w); cbn [snd];
    [apply syncFrame_refl|].
  apply syncFrame_same; try reflexivity. apply rowsKept_same; reflexivity.
Qed.

Lemma keeps_consoleWarn acct line : keeps (syncFrame acct) (consoleWarn line).
Proof.
  intros w. apply syncFrame_same; try reflexivity. apply rowsKept_same; reflexivity.
Qed.

Lemma keeps_delPattern acct id : keeps (syncFrame acct) (Cache.delPattern id).
Proof.
  intros w. unfold Cache.delPattern. destruct (cacheError w); cbn [snd];
    [apply syncFrame_refl|].
  apply syncFrame_same; try reflexivity. apply rowsKept_same; reflexivity.
Qed.

Lemma keeps_countRow acct : keeps (onWorld (syncFrame acct)) countRow.
Proof. intros [w n]. apply syncFrame_refl. Qed.

(** *** The two loops and the handler *)

Section Handler.
Variable fetchCampaignPerformance fetchAdGroupPerformance :
  string -> string -> string -> string -> M World (list GoogleAds.Metrics.t).
Variable job : QueueJob.t.
Variable startTime endTime : Z.

Let acct := SyncJobData.adAccountId (QueueJob.data job).

Hypothesis fetchCampaigns_frame :
  forall a b c d, keeps (syncFrame acct) (fetchCampaignPerformance a b c d).
Hypothesis fetchAdGroups_frame :
  forall a b c d, keeps (syncFrame acct) (fetchAdGroupPerformance a b c d).

Ltac step :=
  first
    [ apply keeps_bind; [apply onWorld_trans| |intros ?]
    | apply keeps_inWorld
    | apply keeps_ret; apply onWorld_refl
    | apply keeps_gets; apply onWorld_refl
    | apply keeps_countRow
    | apply keeps_upsertFact
    | apply keeps_dateArg
    | apply keeps_updateProgress
    | apply keeps_consoleWarn
    | apply keeps_delPattern
    | apply keeps_adAccount_update ].

Lemma keeps_campaignRow metric :
  keeps (onWorld (syncFrame acct)) (campaignRow job metric).
Proof.
  unfold campaignRow. repeat step.
  - apply keeps_campaign_upsert. intros c. split; reflexivity.
  - unfold Prisma.campaign_findUnique. apply keeps_gets, syncFrame_refl.
  - destruct a0; repeat step.
Qed.

Lemma keeps_adGroupRow metric :
  keeps (onWorld (syncFrame acct)) (adGroupRow job metric).
Proof.
  unfold adGroupRow.
  destruct (GoogleAds.Metrics.adGroupId metric) as [[|ch g]|]; repeat step.
  - unfold Prisma.campaign_findUnique. apply keeps_gets, syncFrame_refl.
  - destruct a; repeat step.
    + apply keeps_adGroup_upsert. intros ?. repeat split.
    + unfold Prisma.adGroup_findUnique. apply keeps_gets, syncFrame_refl.
    + destruct a0; repeat step.
Qed.

Lemma keeps_pass :
  keeps (onWorld (syncFrame acct))
    (processSyncJob_pass fetchCampaignPerformance fetchAdGroupPerformance
       job startTime endTime).
Proof.
  unfold processSyncJob_pass. repeat step.
  - apply keeps_markJob; [repeat (constructor; [auto|]); constructor|]. intros j. repeat split.
  - apply fetchCampaigns_frame.
  - apply keeps_forEach; [apply onWorld_refl|apply onWorld_trans|].
    apply keeps_campaignRow.
  - apply keeps_tryCatch; [apply onWorld_trans| |intros _]; repeat step.
    + apply fetchAdGroups_frame.
    + apply keeps_forEach; [apply onWorld_refl|apply onWorld_trans|].
      apply keeps_adGroupRow.
  - apply keeps_markJob; [repeat (constructor; [auto|]); constructor|]. intros j. repeat split.
Qed.

Lemma keeps_catch error :
  keeps (syncFrame acct) (processSyncJob_catch job endTime error).
Proof.
  unfold processSyncJob_catch.
  apply keeps_bind; [apply syncFrame_trans| |intros ?].
  - apply keeps_markJob; [repeat (constructor; [auto|]); constructor|]. intros j. repeat split.
  - apply keeps_bind; [apply syncFrame_trans| |intros ?].
    + apply keeps_adAccount_update.
    + apply keeps_throw, syncFrame_refl.
Qed.

Lemma keeps_processSyncJob :
  keeps (syncFrame acct)
    (processSyncJob fetchCampaignPerformance fetchAdGroupPerformance
       job startTime endTime).
Proof.
  unfold processSyncJob.
  apply keeps_tryCatch; [apply syncFrame_trans| |apply keeps_catch].
  intros w.
  assert (keeps (onWorld (syncFrame acct))
            (processSyncJob_try fetchCampaignPerformance fetchAdGroupPerformance
               job startTime endTime)) as H.
  { unfold processSyncJob_try.
    apply keeps_bind; [apply onWorld_trans|apply keeps_pass|intros ?].
    repeat step. }
  specialize (H (w, O)). unfold onWorld in H. cbn [fst] in H.
  destruct (processSyncJob_try _ _ _ _ _ (w, O)) as [r s]. exact H.
Qed.

End Handler.

End SyncFrameFacts.

(** ** Running the handler step by step *)

Section RunFacts.
Import SyncProcessor.

Lemma bind_Ok {St A B} (c : M St A) (k : A -> M St B) s b s' :
  bind c k s = (Ok b, s') ->
  exists a s1, c s = (Ok a, s1) /\ k a s1 = (Ok b, s').
Proof. unfold bind. destruct (c s) as [[a|e] s1]; [eauto|discriminate]. Qed.

Lemma bind_run {St A B} (c : M St A) (k : A -> M St B) s a s1 :
  c s = (Ok a, s1) -> bind c k s = k a s1.
Proof. intros H. unfold bind. now rewrite H. Qed.

Lemma bind_run_throw {St A B} (c : M St A) (k : A -> M St B) s e s1 :
  c s = (Throw e, s1) -> bind c k s = (Throw e, s1).
Proof. intros H. unfold bind. now rewrite H. Qed.

Lemma inWorld_Ok {A} (c : M World A) s a s' :
  inWorld c s = (Ok a, s') -> c (fst s) = (Ok a, fst s') /\ snd s' = snd s.
Proof.
  unfold inWorld. destruct (c (fst s)) as [r w1]. intros [= -> <-]. auto.
Qed.

Lemma inWorld_run {A} (c : M World A) w n r w1 :
  c w = (r, w1) -> inWorld c (w, n) = (r, (w1, n)).
Proof. intros H. unfold inWorld. cbn [fst snd]. now rewrite H. Qed.

Lemma markJob_run job statuses data_ from to w :
  JsDate.parseDate (SyncJobData.dateFrom (QueueJob.data job)) = Some from ->
  JsDate.parseDate (SyncJobData.dateTo (QueueJob.data job)) = Some to ->
  markJob job statuses data_ w =
    (Ok tt,
     with_syncJobs
       (map (fun j => if thisJob job statuses from to j then data_ j else j)
          (syncJobs w)) w).
Proof.
  intros Hf Ht. unfold markJob, bind, Prisma.dateArg. rewrite Hf, Ht. reflexivity.
Qed.

Lemma markJob_Ok job statuses data_ w w' :
  markJob job statuses data_ w = (Ok tt, w') ->
  exists from to,
    JsDate.parseDate (SyncJobData.dateFrom (QueueJob.data job)) = Some from /\
    JsDate.parseDate (SyncJobData.dateTo (QueueJob.data job)) = Some to /\
    w' = with_syncJobs
           (map (fun j => if thisJob job statuses from to j then data_ j else j)
              (syncJobs w)) w.
Proof.
  unfold markJob, bind, Prisma.dateArg.
  destruct (JsDate.parseDate (SyncJobData.dateFrom _)) as [from|]; [|discriminate].
  destruct (JsDate.parseDate (SyncJobData.dateTo _)) as [to|]; [|discriminate].
  cbn. intros [= <-]. eauto.
Qed.

Lemma adAccount_update_run id data_ w a :
  adAccounts w !! id = Some a ->
  Prisma.adAccount_update id data_ w =
    (Ok tt, with_adAccounts (<[id := data_ a]> (adAccounts w)) w).
Proof. intros H. unfold Prisma.adAccount_update. now rewrite H. Qed.

Lemma adAccount_update_Ok id data_ w w' :
  Prisma.adAccount_update id data_ w = (Ok tt, w') ->
  exists a, adAccounts w !! id = Some a /\
            w' = with_adAccounts (<[id := data_ a]> (adAccounts w)) w.
Proof.
  unfold Prisma.adAccount_update. destruct (adAccounts w !! id) as [a|];
    [|discriminate]. intros [= <-]. eauto.
Qed.

Lemma thisJob_spec job statuses from to j :
  thisJob job statuses from to j = true <->
  SyncJob.adAccountId j = SyncJobData.adAccountId (QueueJob.data job) /\
  existsb (SyncJobStatus.eqb (SyncJob.status j)) statuses = true /\
  SyncJob.dateFrom j = from /\ SyncJob.dateTo j = to.
Proof.
  unfold thisJob. rewrite !andb_true_iff, String.eqb_eq, !Z.eqb_eq. tauto.
Qed.

End RunFacts.

Lemma queryGoogleAds_connectionOnly
    (decrypt encrypt : string -> Result string)
    (oauthRefresh : string -> Result (option string * option Z))
    (Row : Type)
    (searchStream : string -> string -> string -> string -> Result (list Row))
    (canProceed : bool) (developerToken : option string) (now : Z)
    (connectionId customerId query : string) (w : World) :
  let out := GoogleAds.queryGoogleAds decrypt encrypt oauthRefresh Row searchStream
               canProceed developerToken now connectionId customerId query w in
  Frame.connectionOnly connectionId w (snd out) /\
  (canProceed = false ->
   out = (Throw (ErrorObject "Rate limit exceeded. Please try again later."), w)).
Proof.
  intros out. subst out.
  assert (Hsame : Frame.connectionOnly connectionId w w)
    by (split; [now destruct w|reflexivity]).
  assert (Hins : forall c, Frame.connectionOnly connectionId w
            (with_connections (<[connectionId := c]> (connections w)) w)).
  { intros c. split; [now destruct w|]. intros k Hk. cbn.
    now rewrite lookup_insert_ne. }
  assert (Hget : Frame.connectionOnly connectionId w
            (snd (GoogleAds.getValidAccessToken decrypt encrypt oauthRefresh
                    now connectionId w))).
  { unfold GoogleAds.getValidAccessToken, bind at 1, gets.
    destruct (connections w !! connectionId) as [c|] eqn:Hc; [|exact Hsame].
    unfold bind at 1, GoogleAds.liftResult at 1.
    destruct (decrypt (Connection.accessTokenEnc c)); [|exact Hsame].
    unfold bind at 1, GoogleAds.liftResult at 1.
    destruct (decrypt (Connection.refreshTokenEnc c)) as [rt|]; [|exact Hsame].
    destruct (GoogleAds.isExpired now c); [|exact Hsame].
    pose proof (refreshAccessToken_world oauthRefresh now rt w) as Hw.
    unfold tryCatch, bind at 1.
    destruct (GoogleAds.refreshAccessToken oauthRefresh now rt w) as [[r|e] w1];
      cbn [snd] in Hw; subst w1.
    - unfold bind at 1, GoogleAds.liftResult at 1.
      destruct (encrypt (fst r)) as [enc|e].
      + unfold bind, Prisma.connection_update, ret. rewrite Hc. apply Hins.
      + unfold bind, Prisma.connection_update, throw. rewrite Hc. apply Hins.
    - unfold bind, Prisma.connection_update, throw. rewrite Hc. apply Hins. }
  split.
  - unfold GoogleAds.queryGoogleAds. destruct canProceed; cbn [negb]; [|exact Hsame].
    unfold bind.
    destruct (GoogleAds.getValidAccessToken _ _ _ _ _ w) as [[tok|e] w1];
      cbn [snd] in *; [|exact Hget].
    destruct developerToken as [[|ch t]|]; exact Hget.
  - intros ->. reflexivity.
Qed.

(** [queryGoogleAds], with its call of the rate limiter, writes nothing
    but the two Redis keys of the limiter's bucket and the row of the
    connection it was given: every other Redis key, every other
    connection, every other table, the queue and the cache are as
    before, whether it returns or throws.  When the limiter timed out it
    throws and has written nothing at all. *)
Theorem queryGoogleAds_writes_connection_and_bucket_only
    (decrypt encrypt : string -> Result string)
    (oauthRefresh : string -> Result (option string * option Z))
    (Row : Type)
    (searchStream : string -> string -> string -> string -> Result (list Row))
    (developerToken : option string) (clock : list Z) (now : Z)
    (connectionId customerId query : string) (w : World) (redis : gmap string Q) :
  match Fetch.queryGoogleAdsLimited decrypt encrypt oauthRefresh Row searchStream
          developerToken clock now connectionId customerId query (w, redis) with
  | Some (r, (w', redis')) =>
      Frame.connectionOnly connectionId w w' /\
      (forall k, k <> RateLimiter.bucketKey googleAdsRateLimiter ->
                 k <> RateLimiter.lastUpdateKey googleAdsRateLimiter ->
                 redis' !! k = redis !! k) /\
      match RateLimiterCalls.waitForToken googleAdsRateLimiter 1 30000 clock redis with
      | Some (false, _) =>
          r = Throw (ErrorObject "Rate limit exceeded. Please try again later.") /\
          w' = w /\ redis' = redis
      | _ => True
      end
  | None => True
  end.
Proof.
  unfold Fetch.queryGoogleAdsLimited. cbn [fst snd].
  destruct clock as [|start clock]; [exact I|].
  pose proof (waitLoop_outcome googleAdsRateLimiter 1 30000 start clock redis) as W.
  cbn [RateLimiterCalls.waitForToken] in *.
  destruct (RateLimiterCalls.waitLoop googleAdsRateLimiter 1 30000 start clock redis)
    as [[canProceed redis1]|]; [|exact I].
  pose proof (queryGoogleAds_connectionOnly decrypt encrypt oauthRefresh Row
                searchStream canProceed developerToken now connectionId
                customerId query w) as [HC HR].
  cbv zeta in HC, HR.
  destruct (GoogleAds.queryGoogleAds _ _ _ _ _ canProceed _ _ _ _ _ w) as [r w'] eqn:E.
  cbn [snd] in HC. split; [exact HC|]. destruct canProceed.
  - destruct W as (t & _ & Ht). split; [|exact I].
    intros k Hb Hl. unfold RateLimiter.tryAcquire in Ht.
    destruct (Qle_bool _ _); [|discriminate]. injection Ht as <-.
    rewrite lookup_insert_ne by (apply not_eq_sym; exact Hl).
    now rewrite lookup_insert_ne by (apply not_eq_sym; exact Hb).
  - destruct W as [-> _]. split; [reflexivity|].
    specialize (HR eq_refl). now injection HR as <- <-.
Qed.

(** Whatever the two fetches return or throw, as long as they leave job
    rows, accounts, the queue and the warehouse rows alone (as
    [queryGoogleAds] does), one run of [processSyncJob], returning or
    throwing: adds and removes no job row, and changes no job row that was
    COMPLETED, FAILED or CANCELLED; changes no account but the job's own;
    adds nothing to the queue; and deletes no campaign, ad-group or fact
    row, each of which keeps its primary key (campaigns and ad groups
    their status too). *)
Theorem processSyncJob_frame
    (fetchCampaignPerformance fetchAdGroupPerformance :
       string -> string -> string -> string -> M World (list GoogleAds.Metrics.t))
    (job : QueueJob.t) (startTime endTime : Z) (w : World) :
  let acct := SyncJobData.adAccountId (QueueJob.data job) in
  (forall a b c d,
     Frame.keeps (Frame.syncFrame acct) (fetchCampaignPerformance a b c d)) ->
  (forall a b c d,
     Frame.keeps (Frame.syncFrame acct) (fetchAdGroupPerformance a b c d)) ->
  Frame.syncFrame acct w
    (snd (SyncProcessor.processSyncJob fetchCampaignPerformance
            fetchAdGroupPerformance job startTime endTime w)).
Proof.
  intros acct HC HA.
  exact (keeps_processSyncJob fetchCampaignPerformance fetchAdGroupPerformance
           job startTime endTime HC HA w).
Qed.

Lemma processSyncJob_frame_witness :
  Frame.syncFrame Scenario.accountId Cases.cachedWorld
    (snd (SyncProcessor.processSyncJob Scenario.fetchCampaigns
            Scenario.fetchNoAdGroups Scenario.queueJob 1704153600000
            1704153601500 Cases.cachedWorld)).
Proof.
  apply (processSyncJob_frame Scenario.fetchCampaigns Scenario.fetchNoAdGroups
           Scenario.queueJob 1704153600000 1704153601500 Cases.cachedWorld).
  - intros a b c d s. apply syncFrame_refl.
  - intros a b c d s. apply syncFrame_refl.
Defined.

(** When [processSyncJob] returns, whatever the fetches did: the result
    carries the job's two date strings and the elapsed time; the account
    is stored as SYNCED with the end time as [lastSyncedAt]; no job row
    of the account on the job's window is left RUNNING; and the cache
    holds no key of the account's pattern. *)
Theorem processSyncJob_returns
    (fetchCampaignPerformance fetchAdGroupPerformance :
       string -> string -> string -> string -> M World (list GoogleAds.Metrics.t))
    (job : QueueJob.t) (startTime endTime : Z) (w : World)
    (r : SyncProcessor.SyncResult) :
  let acct := SyncJobData.adAccountId (QueueJob.data job) in
  let out := SyncProcessor.processSyncJob fetchCampaignPerformance
               fetchAdGroupPerformance job startTime endTime w in
  fst out = Ok r ->
  SyncProcessor.dateRange r =
    (SyncJobData.dateFrom (QueueJob.data job),
     SyncJobData.dateTo (QueueJob.data job)) /\
  SyncProcessor.duration r = endTime - startTime /\
  (exists a, adAccounts (snd out) !! acct = Some a /\
             AdAccount.syncStatus a = SyncStatus.SYNCED /\
             AdAccount.lastSyncedAt a = Some endTime) /\
  (exists from to,
     JsDate.parseDate (SyncJobData.dateFrom (QueueJob.data job)) = Some from /\
     JsDate.parseDate (SyncJobData.dateTo (QueueJob.data job)) = Some to /\
     Forall (fun j => SyncJob.adAccountId j = acct ->
                      SyncJob.dateFrom j = from -> SyncJob.dateTo j = to ->
                      SyncJob.status j <> SyncJobStatus.RUNNING)
            (syncJobs (snd out))) /\
  (forall a b, cache (snd out) !! ("metrics:" +:+ a +:+ acct +:+ b) = None).
Proof.
  intros acct out Hok. subst out.
  unfold SyncProcessor.processSyncJob, tryCatch in *.
  destruct (SyncProcessor.processSyncJob_try _ _ _ _ _ (w, O))
    as [[r'|e] [w' n']] eqn:E; cbn [fst snd] in *.
  2: { destruct (processSyncJob_catch_throws job endTime e w') as [e' He'].
       rewrite He' in Hok. discriminate. }
  injection Hok as ->.
  unfold SyncProcessor.processSyncJob_try in E.
  apply bind_Ok in E as (res & s1 & Hpass & E).
  apply bind_Ok in E as ([] & s2 & Hdel & E).
  unfold ret in E. injection E as -> ->.
  apply inWorld_Ok in Hdel as [Hdel _]. cbn [fst] in Hdel.
  unfold SyncProcessor.processSyncJob_pass in Hpass.
  do 7 (apply bind_Ok in Hpass as (? & ? & _ & Hpass)).
  cbv zeta in Hpass.
  apply bind_Ok in Hpass as (totalRows & s8 & _ & Hpass).
  apply bind_Ok in Hpass as ([] & s9 & Hmark & Hpass).
  apply bind_Ok in Hpass as ([] & s10 & Hacc & Hpass).
  unfold ret in Hpass. injection Hpass as <- <-.
  apply inWorld_Ok in Hmark as [Hmark _].
  apply inWorld_Ok in Hacc as [Hacc _].
  apply markJob_Ok in Hmark as (from & to & Hfrom & Hto & Hw9).
  apply adAccount_update_Ok in Hacc as (a0 & Ha0 & Hw10).
  unfold Cache.delPattern in Hdel.
  destruct (cacheError (fst s10)); [discriminate|]. injection Hdel as <-.
  rewrite Hw10, Hw9. cbn [SyncProcessor.dateRange SyncProcessor.duration].
  split; [reflexivity|]. split; [reflexivity|]. split; [|split].
  - exists (AdAccount.set_synced endTime a0). cbn.
    rewrite lookup_insert_eq. auto.
  - exists from, to. split; [exact Hfrom|]. split; [exact Hto|]. cbn.
    apply Forall_forall. intros j' Hin.
    apply list_elem_of_In, in_map_iff in Hin as (j & <- & _).
    destruct (SyncProcessor.thisJob job [SyncJobStatus.RUNNING] from to j) eqn:T.
    + intros _ _ _. discriminate.
    + intros H1 H2 H3 H4.
      assert (SyncProcessor.thisJob job [SyncJobStatus.RUNNING] from to j = true)
        as T'; [|congruence].
      apply thisJob_spec. repeat split; try assumption.
      cbn [existsb]. rewrite H4. reflexivity.
  - intros a b. cbn. apply map_lookup_filter_None. right. intros v _. cbn.
    rewrite (proj2 (matchesMetricsOf_glob _ _)) by (now exists a, b).
    discriminate.
Qed.

Lemma processSyncJob_returns_witness :
  let out := SyncProcessor.processSyncJob Scenario.fetchCampaigns
               Scenario.fetchNoAdGroups Scenario.queueJob 1704153600000
               1704153601500 Cases.cachedWorld in
  fst out = Ok (SyncProcessor.mkSyncResult 1 ("2024-01-01", "2024-01-01") 1500) /\
  cache (snd out) !! Cases.accountKey = None /\
  (exists a, adAccounts (snd out) !! Scenario.accountId = Some a /\
             AdAccount.syncStatus a = SyncStatus.SYNCED /\
             AdAccount.lastSyncedAt a = Some 1704153601500).
Proof.
  assert (fst (SyncProcessor.processSyncJob Scenario.fetchCampaigns
                 Scenario.fetchNoAdGroups Scenario.queueJob 1704153600000
                 1704153601500 Cases.cachedWorld)
          = Ok (SyncProcessor.mkSyncResult 1 ("2024-01-01", "2024-01-01") 1500))
    as H by (vm_compute; reflexivity).
  destruct (processSyncJob_returns Scenario.fetchCampaigns
              Scenario.fetchNoAdGroups Scenario.queueJob 1704153600000
              1704153601500 Cases.cachedWorld _ H) as (_ & _ & Ha & _ & Hc).
  split; [exact H|]. split; [|exact Ha].
  exact (Hc (Scenario.organizationId +:+ ":accountIds=") "").
Defined.

(** ** Failed fetches and the two loops *)

Lemma processSyncJob_fetch_failure_at
    (fetchCampaignPerformance fetchAdGroupPerformance :
       string -> string -> string -> string -> M World (list GoogleAds.Metrics.t))
    (job : QueueJob.t) (startTime endTime from to : Z) (w : World)
    (a : AdAccount.t) (error : JsError) (cs : gmap string Connection.t) :
  let data := QueueJob.data job in
  let acct := SyncJobData.adAccountId data in
  let w2 := with_adAccounts
              (<[acct := AdAccount.set_syncStatus SyncStatus.SYNCING a]> (adAccounts w))
              (with_syncJobs
                 (map (fun j => if SyncProcessor.thisJob job [SyncJobStatus.PENDING]
                                     from to j
                                then SyncJob.set_running startTime j else j)
                    (syncJobs w)) w) in
  JsDate.parseDate (SyncJobData.dateFrom data) = Some from ->
  JsDate.parseDate (SyncJobData.dateTo data) = Some to ->
  adAccounts w !! acct = Some a ->
  fetchCampaignPerformance (SyncJobData.connectionId data)
    (SyncJobData.customerId data) (SyncJobData.dateFrom data)
    (SyncJobData.dateTo data) w2
  = (Throw error, with_connections cs w2) ->
  let out := SyncProcessor.processSyncJob fetchCampaignPerformance
               fetchAdGroupPerformance job startTime endTime w in
  fst out = Throw error /\
  connections (snd out) = cs /\
  adAccounts (snd out) =
    <[acct := AdAccount.set_syncStatus SyncStatus.ERROR a]> (adAccounts w) /\
  syncJobs (snd out) =
    map (fun j =>
           if SyncProcessor.thisJob job
                [SyncJobStatus.PENDING; SyncJobStatus.RUNNING] from to j
           then SyncJob.set_failed endTime (messageOr "Unknown error" error)
                  (if SyncJobStatus.eqb (SyncJob.status j) SyncJobStatus.PENDING
                   then SyncJob.set_running startTime j else j)
           else j)
        (syncJobs w) /\
  campaigns (snd out) = campaigns w /\
  adGroups (snd out) = adGroups w /\
  metricsFacts (snd out) = metricsFacts w /\
  syncQueue (snd out) = syncQueue w /\
  cache (snd out) = cache w.
Proof.
  intros data acct w2' Hfrom Hto Ha Hf out. subst out data acct.
  unfold SyncProcessor.processSyncJob, tryCatch,
    SyncProcessor.processSyncJob_try.
  set (w1 := with_syncJobs
               (map (fun j => if SyncProcessor.thisJob job [SyncJobStatus.PENDING]
                                   from to j
                              then SyncJob.set_running startTime j else j)
                  (syncJobs w)) w).
  set (w2 := with_adAccounts
               (<[SyncJobData.adAccountId (QueueJob.data job) :=
                    AdAccount.set_syncStatus SyncStatus.SYNCING a]> (adAccounts w1))
               w1).
  change w2' with w2 in Hf. clear w2'.
  assert (SyncProcessor.processSyncJob_pass fetchCampaignPerformance
            fetchAdGroupPerformance job startTime endTime (w, O)
          = (Throw error, (with_connections cs w2, O))) as Hpass.
  { unfold SyncProcessor.processSyncJob_pass.
    rewrite (bind_run _ _ _ tt (w1, O))
      by (apply inWorld_run, markJob_run; assumption).
    rewrite (bind_run _ _ _ tt (w2, O))
      by (apply inWorld_run, adAccount_update_run; exact Ha).
    apply bind_run_throw, inWorld_run. exact Hf. }
  rewrite (bind_run_throw _ _ _ _ _ Hpass). cbn [fst snd].
  unfold SyncProcessor.processSyncJob_catch.
  erewrite bind_run by (apply markJob_run; eassumption).
  erewrite bind_run
    by (apply adAccount_update_run; cbn; apply lookup_insert_eq).
  unfold throw. clear Hpass Hf. subst w2 w1. cbn [fst snd]. wsimp.
  split; [reflexivity|]. split; [reflexivity|]. split; [|split; [|repeat split]].
  - now rewrite insert_insert_eq.
  - rewrite map_map. apply map_ext. intros j.
    destruct (SyncProcessor.thisJob job [SyncJobStatus.PENDING] from to j) eqn:T1.
    + pose proof T1 as T1'. apply thisJob_spec in T1' as (E1 & E2 & E3 & E4).
      cbn [existsb] in E2. rewrite orb_false_r in E2. rewrite E2.
      assert (SyncProcessor.thisJob job
                [SyncJobStatus.PENDING; SyncJobStatus.RUNNING] from to
                (SyncJob.set_running startTime j) = true) as ->
        by (apply thisJob_spec; repeat split; assumption).
      assert (SyncProcessor.thisJob job
                [SyncJobStatus.PENDING; SyncJobStatus.RUNNING] from to j = true) as ->
        by (apply thisJob_spec; repeat split; try assumption;
            cbn [existsb]; now rewrite E2).
      reflexivity.
    + destruct (SyncProcessor.thisJob job
                  [SyncJobStatus.PENDING; SyncJobStatus.RUNNING] from to j) eqn:T2;
        [|reflexivity].
      destruct (SyncJobStatus.eqb (SyncJob.status j) SyncJobStatus.PENDING) eqn:P;
        [|reflexivity].
      apply thisJob_spec in T2 as (E1 & E2 & E3 & E4).
      assert (SyncProcessor.thisJob job [SyncJobStatus.PENDING] from to j = true)
        as T; [|congruence].
      apply thisJob_spec. repeat split; try assumption.
      cbn [existsb]. now rewrite P.
Qed.


(** When the campaign fetch throws (leaving the store as it was, but for
    connection rows, which a failed token refresh rewrites), the handler
    throws that same error; the account is stored with status ERROR; the
    job rows of the account on the job's window that were PENDING or
    RUNNING are FAILED, with the end time and the error's message (a row
    that was PENDING also got the start time); every other job row and
    the warehouse, queue and cache are untouched. *)
Theorem processSyncJob_fetch_failure
    (fetchCampaignPerformance fetchAdGroupPerformance :
       string -> string -> string -> string -> M World (list GoogleAds.Metrics.t))
    (job : QueueJob.t) (startTime endTime from to : Z) (w : World)
    (a : AdAccount.t) (error : JsError) :
  let data := QueueJob.data job in
  let acct := SyncJobData.adAccountId data in
  JsDate.parseDate (SyncJobData.dateFrom data) = Some from ->
  JsDate.parseDate (SyncJobData.dateTo data) = Some to ->
  adAccounts w !! acct = Some a ->
  (forall w', exists cs,
     fetchCampaignPerformance (SyncJobData.connectionId data)
       (SyncJobData.customerId data) (SyncJobData.dateFrom data)
       (SyncJobData.dateTo data) w'
     = (Throw error, with_connections cs w')) ->
  let out := SyncProcessor.processSyncJob fetchCampaignPerformance
               fetchAdGroupPerformance job startTime endTime w in
  fst out = Throw error /\
  adAccounts (snd out) =
    <[acct := AdAccount.set_syncStatus SyncStatus.ERROR a]> (adAccounts w) /\
  syncJobs (snd out) =
    map (fun j =>
           if SyncProcessor.thisJob job
                [SyncJobStatus.PENDING; SyncJobStatus.RUNNING] from to j
           then SyncJob.set_failed endTime (messageOr "Unknown error" error)
                  (if SyncJobStatus.eqb (SyncJob.status j) SyncJobStatus.PENDING
                   then SyncJob.set_running startTime j else j)
           else j)
        (syncJobs w) /\
  campaigns (snd out) = campaigns w /\
  adGroups (snd out) = adGroups w /\
  metricsFacts (snd out) = metricsFacts w /\
  syncQueue (snd out) = syncQueue w /\
  cache (snd out) = cache w.
Proof.
  intros data acct Hfrom Hto Ha Hfetch out.
  destruct (Hfetch (with_adAccounts
              (<[acct := AdAccount.set_syncStatus SyncStatus.SYNCING a]> (adAccounts w))
              (with_syncJobs
                 (map (fun j => if SyncProcessor.thisJob job [SyncJobStatus.PENDING]
                                     from to j
                                then SyncJob.set_running startTime j else j)
                    (syncJobs w)) w))) as [cs Hf].
  destruct (processSyncJob_fetch_failure_at fetchCampaignPerformance
              fetchAdGroupPerformance job startTime endTime from to w a error cs
              Hfrom Hto Ha Hf) as (H1 & _ & H).
  split; [exact H1|exact H].
Qed.

Lemma processSyncJob_fetch_failure_witness :
  let out := SyncProcessor.processSyncJob Cases.fetchFails Scenario.fetchNoAdGroups
               Scenario.queueJob 1704153600000 1704153601500 Cases.cachedWorld in
  fst out = Throw (ErrorObject "Google Ads API error: UNAUTHENTICATED") /\
  adAccounts (snd out) =
    <[Scenario.accountId :=
        AdAccount.set_syncStatus SyncStatus.ERROR Scenario.account]>
      (adAccounts Cases.cachedWorld) /\
  syncJobs (snd out) =
    [SyncJob.set_failed 1704153601500 "Google Ads API error: UNAUTHENTICATED"
       (SyncJob.set_running 1704153600000 Scenario.pendingJob)].
Proof.
  destruct (processSyncJob_fetch_failure Cases.fetchFails Scenario.fetchNoAdGroups
              Scenario.queueJob 1704153600000 1704153601500
              Scenario.jan01 Scenario.jan01 Cases.cachedWorld Scenario.account
              (ErrorObject "Google Ads API error: UNAUTHENTICATED"))
    as (H1 & H2 & H3 & _).
  - reflexivity.
  - reflexivity.
  - reflexivity.
  - intros w'. exists (connections w'). now destruct w'.
  - split; [exact H1|]. split; [exact H2|exact H3].
Defined.

(** The first loop over rows whose dates all parse never throws and
    counts every row (its [if (!campaign) continue] is never taken);
    afterwards each row has its campaign and a fact row at campaign
    grain under that campaign's id. *)
Theorem campaign_pass_counts_every_row
    (job : QueueJob.t) (rows : list GoogleAds.Metrics.t) (w : World) (n : nat) :
  Forall (fun m => is_Some (JsDate.parseDate (GoogleAds.Metrics.date m))) rows ->
  let data := QueueJob.data job in
  let acct := SyncJobData.adAccountId data in
  let out := forEach rows (SyncProcessor.campaignRow job) (w, n) in
  fst out = Ok tt /\
  snd (snd out) = (n + length rows)%nat /\
  Forall (fun m => exists c d r,
            campaigns (fst (snd out)) !! (acct, GoogleAds.Metrics.campaignId m)
              = Some c /\
            JsDate.parseDate (GoogleAds.Metrics.date m) = Some d /\
            metricsFacts (fst (snd out))
              !! (d, SyncJobData.provider data, acct, Campaign.id c, None, None)
              = Some r)
         rows.
Proof.
  intros H data acct. subst data acct. cbv zeta.
  revert w n. induction H as [|m rows [d Hd] Hrows IH]; intros w n.
  - cbn. repeat split; [lia|constructor].
  - cbn [forEach].
    destruct (campaignRow_run job m d w n Hd) as (w1 & (c & Hc & Hid) & _ & E).
    rewrite (bind_run _ _ _ tt _ E).
    set (key := (d, SyncJobData.provider (QueueJob.data job),
                 SyncJobData.adAccountId (QueueJob.data job),
                 match campaigns w !! (SyncJobData.adAccountId (QueueJob.data job),
                                       GoogleAds.Metrics.campaignId m) with
                 | Some c0 => Campaign.id c0
                 | None => nextId w
                 end, @None N, @None N)) in *.
    set (w2 := snd (SyncProcessor.upsertFact key (SyncProcessor.measuresOf m) w1)).
    destruct (IH w2 (S n)) as (I1 & I2 & I3).
    split; [exact I1|]. split; [rewrite I2; cbn [length]; lia|].
    constructor; [|exact I3].
    pose proof (keeps_forEach (Frame.onWorld
                  (Frame.syncFrame (SyncJobData.adAccountId (QueueJob.data job))))
                  (onWorld_refl _) (onWorld_trans _) rows
                  (SyncProcessor.campaignRow job) (keeps_campaignRow job) (w2, S n))
      as (_ & _ & (KC & _ & KF)).
    cbn [fst] in KC, KF.
    assert (campaigns w2 !! (SyncJobData.adAccountId (QueueJob.data job),
                             GoogleAds.Metrics.campaignId m) = Some c) as Hc2
      by (subst w2; now rewrite upsertFact_campaigns).
    destruct (KC _ _ Hc2) as (c' & Hc' & Hid' & _).
    destruct (upsertFact_lookup key (SyncProcessor.measuresOf m) w1)
      as (r & Hr & _ & _).
    fold w2 in Hr. destruct (KF _ _ Hr) as (r' & Hr' & _).
    exists c', d, r'. split; [exact Hc'|]. split; [exact Hd|].
    rewrite Hid', Hid. exact Hr'.
Qed.

Lemma campaign_pass_counts_every_row_witness :
  let out := forEach Scenario.campaignRows
               (SyncProcessor.campaignRow Scenario.queueJob)
               (Cases.quietWorld, O) in
  fst out = Ok tt /\ snd (snd out) = 1%nat.
Proof.
  destruct (campaign_pass_counts_every_row Scenario.queueJob Scenario.campaignRows
              Cases.quietWorld O) as (H1 & H2 & _).
  - repeat constructor. vm_compute. eauto.
  - split; [exact H1|exact H2].
Defined.

(** The second loop skips, without writing or counting anything, every
    row that has no ad-group id or whose campaign is not in the
    warehouse. *)
Theorem adGroup_pass_skips_orphans
    (job : QueueJob.t) (rows : list GoogleAds.Metrics.t) (w : World) (n : nat) :
  let acct := SyncJobData.adAccountId (QueueJob.data job) in
  Forall (fun m => GoogleAds.Metrics.adGroupId m = None \/
                   GoogleAds.Metrics.adGroupId m = Some "" \/
                   campaigns w !! (acct, GoogleAds.Metrics.campaignId m) = None)
         rows ->
  forEach rows (SyncProcessor.adGroupRow job) (w, n) = (Ok tt, (w, n)).
Proof.
  intros acct H. subst acct. induction H as [|m rows Hm Hrows IH]; [reflexivity|].
  cbn [forEach].
  assert (SyncProcessor.adGroupRow job m (w, n) = (Ok tt, (w, n))) as E.
  { unfold SyncProcessor.adGroupRow.
    destruct (GoogleAds.Metrics.adGroupId m) as [[|ch g]|]; try reflexivity.
    destruct Hm as [Hm|[Hm|Hm]]; try discriminate.
    unfold bind at 1, SyncProcessor.inWorld at 1, Prisma.campaign_findUnique, gets.
    cbn [fst snd]. now rewrite Hm. }
  now rewrite (bind_run _ _ _ tt _ E).
Qed.

Lemma adGroup_pass_skips_orphans_witness :
  forEach [Cases.orphanRow; Cases.unnamedRow]
    (SyncProcessor.adGroupRow Scenario.queueJob) (Cases.quietWorld, O)
  = (Ok tt, (Cases.quietWorld, O)).
Proof.
  apply (adGroup_pass_skips_orphans Scenario.queueJob
           [Cases.orphanRow; Cases.unnamedRow] Cases.quietWorld O).
  constructor; [right; right; reflexivity|].
  constructor; [left; reflexivity|constructor].
Defined.

(** ** A run in which only the ad-group fetch fails *)

Section WarehouseFacts.
Import Frame SyncProcessor.

Lemma warehouseOnly_refl w : warehouseOnly w w.
Proof. now destruct w. Qed.

Lemma warehouseOnly_trans w1 w2 w3 :
  warehouseOnly w1 w2 -> warehouseOnly w2 w3 -> warehouseOnly w1 w3.
Proof.
  destruct w1, w2, w3. unfold warehouseOnly. cbn.
  intros [= -> -> -> -> -> -> -> -> ->] [= -> -> -> -> -> -> -> -> ->].
  reflexivity.
Qed.

Lemma warehouseOnly_fields w w' :
  warehouseOnly w w' ->
  connections w' = connections w /\ adAccounts w' = adAccounts w /\
  syncJobs w' = syncJobs w /\ syncQueue w' = syncQueue w /\
  progress w' = progress w /\ queueError w' = queueError w /\
  cache w' = cache w /\ cacheError w' = cacheError w /\
  console w' = console w.
Proof.
  destruct w, w'. unfold warehouseOnly. cbn.
  intros [= -> -> -> -> -> -> -> -> ->]. repeat split.
Qed.

Lemma onWarehouse_refl (s : World * nat) : onWorld warehouseOnly s s.
Proof. apply warehouseOnly_refl. Qed.

Lemma onWarehouse_trans (x y z : World * nat) :
  onWorld warehouseOnly x y -> onWorld warehouseOnly y z ->
  onWorld warehouseOnly x z.
Proof. apply warehouseOnly_trans. Qed.

Lemma campaignRow_warehouse job metric :
  keeps (onWorld warehouseOnly) (campaignRow job metric).
Proof.
  unfold campaignRow.
  apply keeps_bind; [apply onWarehouse_trans| |intros _].
  { apply keeps_inWorld. intros w. unfold Prisma.campaign_upsert.
    destruct (campaigns w !! _); now destruct w. }
  apply keeps_bind; [apply onWarehouse_trans| |intros campaign].
  { apply keeps_inWorld, keeps_gets, warehouseOnly_refl. }
  destruct campaign as [c|]; [|apply keeps_ret, onWarehouse_refl].
  apply keeps_bind; [apply onWarehouse_trans| |intros d].
  { apply keeps_inWorld. intros w. rewrite dateArg_state.
    apply warehouseOnly_refl. }
  apply keeps_bind; [apply onWarehouse_trans| |intros _].
  { apply keeps_inWorld. intros w.
    unfold upsertFact, Prisma.metricsFact_upsert.
    destruct (metricsFacts w !! _); now destruct w. }
  intros [w n]. apply warehouseOnly_refl.
Qed.

Lemma campaign_pass_run job rows :
  Forall (fun m => is_Some (JsDate.parseDate (GoogleAds.Metrics.date m))) rows ->
  forall w n, exists w',
    forEach rows (campaignRow job) (w, n) = (Ok tt, (w', (n + length rows)%nat)) /\
    warehouseOnly w w'.
Proof.
  induction 1 as [|m rows [d Hd] Hrows IH]; intros w n.
  - exists w. cbn. rewrite Nat.add_0_r. split; [reflexivity|apply warehouseOnly_refl].
  - cbn [forEach].
    pose proof (campaignRow_warehouse job m (w, n)) as HW.
    destruct (campaignRow_run job m d w n Hd) as (w1 & _ & _ & E).
    rewrite (bind_run _ _ _ tt _ E). rewrite E in HW.
    unfold onWorld in HW. cbn [fst snd] in HW.
    match type of HW with warehouseOnly _ ?x => set (w2 := x) in * end.
    destruct (IH w2 (S n)) as (w' & E' & HW').
    exists w'. split.
    + rewrite E'. cbn [length]. now rewrite Nat.add_succ_r.
    + eapply warehouseOnly_trans; eassumption.
Qed.

Lemma campaign_pass_adGroups job rows :
  keeps (onWorld (fun x y : World => adGroups y = adGroups x))
    (forEach rows (campaignRow job)).
Proof.
  assert (T : forall x y z : World * nat,
            onWorld (fun x y : World => adGroups y = adGroups x) x y ->
            onWorld (fun x y : World => adGroups y = adGroups x) y z ->
            onWorld (fun x y : World => adGroups y = adGroups x) x z)
    by (unfold onWorld; intros; congruence).
  apply keeps_forEach; [reflexivity|exact T|]. intros metric.
  unfold campaignRow.
  apply keeps_bind; [exact T| |intros _].
  { apply keeps_inWorld. intros w. unfold Prisma.campaign_upsert.
    destruct (campaigns w !! _); reflexivity. }
  apply keeps_bind; [exact T| |intros campaign].
  { apply keeps_inWorld. intros w. reflexivity. }
  destruct campaign as [c|]; [|intros s; reflexivity].
  apply keeps_bind; [exact T| |intros d].
  { apply keeps_inWorld. intros w. now rewrite dateArg_state. }
  apply keeps_bind; [exact T| |intros _].
  { apply keeps_inWorld. intros w.
    unfold upsertFact, Prisma.metricsFact_upsert.
    destruct (metricsFacts w !! _); reflexivity. }
  intros [w n]. reflexivity.
Qed.

Lemma updateProgress_run jobId p w :
  queueError w = None ->
  Queue.updateProgress jobId p w =
    (Ok tt, with_progress (<[jobId := p]> (progress w)) w).
Proof. intros H. unfold Queue.updateProgress. now rewrite H. Qed.

Lemma tryCatch_run_throw {St A} (c : M St A) h s e s1 :
  c s = (Throw e, s1) -> tryCatch c h s = h e s1.
Proof. intros H. unfold tryCatch. now rewrite H. Qed.

Lemma thisJob_either job from to j :
  thisJob job [SyncJobStatus.PENDING; SyncJobStatus.RUNNING] from to j =
  thisJob job [SyncJobStatus.PENDING] from to j
  || thisJob job [SyncJobStatus.RUNNING] from to j.
Proof.
  unfold thisJob. cbn [existsb].
  destruct (String.eqb _ _), (SyncJobStatus.eqb _ SyncJobStatus.PENDING),
    (SyncJobStatus.eqb _ SyncJobStatus.RUNNING), (_ =? from), (_ =? to);
    reflexivity.
Qed.

End WarehouseFacts.

Lemma processSyncJob_adGroup_failure_run
    (fetchCampaignPerformance fetchAdGroupPerformance :
       string -> string -> string -> string -> M World (list GoogleAds.Metrics.t))
    (job : QueueJob.t) (startTime endTime from to : Z) (w : World)
    (a : AdAccount.t) (rows : list GoogleAds.Metrics.t) (error : JsError)
    (P : gmap string Connection.t -> Prop) :
  let data := QueueJob.data job in
  let acct := SyncJobData.adAccountId data in
  JsDate.parseDate (SyncJobData.dateFrom data) = Some from ->
  JsDate.parseDate (SyncJobData.dateTo data) = Some to ->
  adAccounts w !! acct = Some a ->
  queueError w = None ->
  cacheError w = None ->
  (forall w', connections w' = connections w ->
     fetchCampaignPerformance (SyncJobData.connectionId data)
       (SyncJobData.customerId data) (SyncJobData.dateFrom data)
       (SyncJobData.dateTo data) w' = (Ok rows, w')) ->
  Forall (fun m => is_Some (JsDate.parseDate (GoogleAds.Metrics.date m))) rows ->
  (forall w', connections w' = connections w -> exists cs,
     P cs /\
     fetchAdGroupPerformance (SyncJobData.connectionId data)
       (SyncJobData.customerId data) (SyncJobData.dateFrom data)
       (SyncJobData.dateTo data) w'
     = (Throw error, with_connections cs w')) ->
  let out := SyncProcessor.processSyncJob fetchCampaignPerformance
               fetchAdGroupPerformance job startTime endTime w in
  fst out = Ok (SyncProcessor.mkSyncResult (length rows)
                  (SyncJobData.dateFrom data, SyncJobData.dateTo data)
                  (endTime - startTime)) /\
  console (snd out) = console w ++ ["Failed to fetch ad group metrics:"] /\
  syncJobs (snd out) =
    map (fun j =>
           if SyncProcessor.thisJob job
                [SyncJobStatus.PENDING; SyncJobStatus.RUNNING] from to j
           then SyncJob.set_completed endTime (length rows) (endTime - startTime)
                  (if SyncJobStatus.eqb (SyncJob.status j) SyncJobStatus.PENDING
                   then SyncJob.set_running startTime j else j)
           else j)
        (syncJobs w) /\
  adAccounts (snd out) = <[acct := AdAccount.set_synced endTime a]> (adAccounts w) /\
  progress (snd out) !! QueueJob.id job = Some 100 /\
  adGroups (snd out) = adGroups w /\
  P (connections (snd out)).
Proof.
  intros data acct Hfrom Hto Ha Hq Hc HfC Hrows HfA out. subst out data acct.
  set (acct := SyncJobData.adAccountId (QueueJob.data job)) in *.
  set (w1 := with_syncJobs
               (map (fun j => if SyncProcessor.thisJob job [SyncJobStatus.PENDING]
                                   from to j
                              then SyncJob.set_running startTime j else j)
                  (syncJobs w)) w).
  set (w2 := with_adAccounts
               (<[acct := AdAccount.set_syncStatus SyncStatus.SYNCING a]>
                  (adAccounts w1)) w1).
  destruct (campaign_pass_run job rows Hrows w2 O) as (w3 & Hloop & HW).
  apply warehouseOnly_fields in HW
    as (K1 & K2 & K3 & K4 & K5 & K6 & K7 & K8 & K9).
  set (w4 := with_progress (<[QueueJob.id job := 50]> (progress w3)) w3).
  destruct (HfA w4 K1) as (cs & HP & Hf).
  set (w5 := with_console (console (with_connections cs w4)
                           ++ ["Failed to fetch ad group metrics:"])
               (with_connections cs w4)).
  set (w6 := with_progress (<[QueueJob.id job := 100]> (progress w5)) w5).
  set (done := SyncJob.set_completed endTime (length rows) (endTime - startTime)).
  set (w7 := with_syncJobs
               (map (fun j => if SyncProcessor.thisJob job [SyncJobStatus.RUNNING]
                                   from to j
                              then done j else j)
                  (syncJobs w6)) w6).
  set (w8 := with_adAccounts
               (<[acct := AdAccount.set_synced endTime
                            (AdAccount.set_syncStatus SyncStatus.SYNCING a)]>
                  (adAccounts w7)) w7).
  assert (SyncProcessor.processSyncJob_pass fetchCampaignPerformance
            fetchAdGroupPerformance job startTime endTime (w, O)
          = (Ok (SyncProcessor.mkSyncResult (length rows)
                   (SyncJobData.dateFrom (QueueJob.data job),
                    SyncJobData.dateTo (QueueJob.data job))
                   (endTime - startTime)),
             (w8, length rows))) as Hpass.
  { unfold SyncProcessor.processSyncJob_pass.
    rewrite (bind_run _ _ _ tt (w1, O))
      by (apply inWorld_run, markJob_run; assumption).
    rewrite (bind_run _ _ _ tt (w2, O))
      by (apply inWorld_run, adAccount_update_run; exact Ha).
    rewrite (bind_run _ _ _ rows (w2, O))
      by (apply inWorld_run, HfC; reflexivity).
    rewrite (bind_run _ _ _ tt (w3, length rows)) by exact Hloop.
    rewrite (bind_run _ _ _ tt (w4, length rows))
      by (apply inWorld_run, updateProgress_run; now rewrite K6).
    rewrite (bind_run _ _ _ tt (w5, length rows)).
    2: { erewrite tryCatch_run_throw
           by (apply bind_run_throw, inWorld_run; exact Hf).
         reflexivity. }
    rewrite (bind_run _ _ _ tt (w6, length rows))
      by (apply inWorld_run, updateProgress_run; cbn; now rewrite K6).
    cbv zeta.
    rewrite (bind_run _ _ _ (length rows) (w6, length rows)) by reflexivity.
    rewrite (bind_run _ _ _ tt (w7, length rows))
      by (apply inWorld_run, markJob_run; assumption).
    rewrite (bind_run _ _ _ tt (w8, length rows)).
    2: { apply inWorld_run, adAccount_update_run. cbn. rewrite K2. cbn.
         apply lookup_insert_eq. }
    reflexivity. }
  unfold SyncProcessor.processSyncJob, tryCatch, SyncProcessor.processSyncJob_try.
  rewrite (bind_run _ _ _ _ _ Hpass).
  assert (cacheError w8 = None) as Hc8 by (cbn; now rewrite K8).
  unfold bind, SyncProcessor.inWorld, Cache.delPattern, ret. cbn [fst snd].
  rewrite Hc8. cbn [fst snd].
  split; [reflexivity|].
  split; [|split; [|split; [|split; [|split]]]].
  1-4: subst w8 w7 w6 w5 w4; wsimp; rewrite ?K9, ?K3, ?K2, ?K5; subst w2 w1; wsimp.
  - reflexivity.
  - rewrite map_map. apply map_ext. intros j. rewrite thisJob_either.
    destruct (SyncProcessor.thisJob job [SyncJobStatus.PENDING] from to j) eqn:T1.
    + pose proof T1 as T1'. apply thisJob_spec in T1' as (E1 & E2 & E3 & E4).
      cbn [existsb] in E2. rewrite orb_false_r in E2. rewrite E2.
      assert (SyncProcessor.thisJob job [SyncJobStatus.RUNNING] from to
                (SyncJob.set_running startTime j) = true) as ->
        by (apply thisJob_spec; repeat split; assumption).
      reflexivity.
    + cbn [orb].
      destruct (SyncProcessor.thisJob job [SyncJobStatus.RUNNING] from to j) eqn:T2;
        [|reflexivity].
      apply thisJob_spec in T2 as (E1 & E2 & E3 & E4).
      cbn [existsb] in E2. rewrite orb_false_r in E2.
      destruct (SyncJob.status j); try discriminate. reflexivity.
  - now rewrite insert_insert_eq.
  - apply lookup_insert_eq.
  - pose proof (campaign_pass_adGroups job rows (w2, O)) as HG.
    rewrite Hloop in HG. unfold Frame.onWorld in HG. cbn [fst snd] in HG.
    subst w8 w7 w6 w5 w4. wsimp. rewrite HG. reflexivity.
  - exact HP.
Qed.

(** A failure of the ad-group fetch does not fail the sync.  With dates
    that parse, the account present, the queue and cache clients up and a
    campaign fetch that returns rows with parseable dates: the handler
    returns, counting exactly the campaign rows; it logs one warning;
    the job rows of the account on the job's window that were PENDING or
    RUNNING are COMPLETED with that count and the duration; the account is
    SYNCED; progress reads 100; and no ad group was written. *)
Theorem processSyncJob_adGroup_failure_swallowed
    (fetchCampaignPerformance fetchAdGroupPerformance :
       string -> string -> string -> string -> M World (list GoogleAds.Metrics.t))
    (job : QueueJob.t) (startTime endTime from to : Z) (w : World)
    (a : AdAccount.t) (rows : list GoogleAds.Metrics.t) (error : JsError) :
  let data := QueueJob.data job in
  let acct := SyncJobData.adAccountId data in
  JsDate.parseDate (SyncJobData.dateFrom data) = Some from ->
  JsDate.parseDate (SyncJobData.dateTo data) = Some to ->
  adAccounts w !! acct = Some a ->
  queueError w = None ->
  cacheError w = None ->
  (forall w',
     fetchCampaignPerformance (SyncJobData.connectionId data)
       (SyncJobData.customerId data) (SyncJobData.dateFrom data)
       (SyncJobData.dateTo data) w' = (Ok rows, w')) ->
  Forall (fun m => is_Some (JsDate.parseDate (GoogleAds.Metrics.date m))) rows ->
  (forall w', exists cs,
     fetchAdGroupPerformance (SyncJobData.connectionId data)
       (SyncJobData.customerId data) (SyncJobData.dateFrom data)
       (SyncJobData.dateTo data) w'
     = (Throw error, with_connections cs w')) ->
  let out := SyncProcessor.processSyncJob fetchCampaignPerformance
               fetchAdGroupPerformance job startTime endTime w in
  fst out = Ok (SyncProcessor.mkSyncResult (length rows)
                  (SyncJobData.dateFrom data, SyncJobData.dateTo data)
                  (endTime - startTime)) /\
  console (snd out) = console w ++ ["Failed to fetch ad group metrics:"] /\
  syncJobs (snd out) =
    map (fun j =>
           if SyncProcessor.thisJob job
                [SyncJobStatus.PENDING; SyncJobStatus.RUNNING] from to j
           then SyncJob.set_completed endTime (length rows) (endTime - startTime)
                  (if SyncJobStatus.eqb (SyncJob.status j) SyncJobStatus.PENDING
                   then SyncJob.set_running startTime j else j)
           else j)
        (syncJobs w) /\
  adAccounts (snd out) = <[acct := AdAccount.set_synced endTime a]> (adAccounts w) /\
  progress (snd out) !! QueueJob.id job = Some 100 /\
  adGroups (snd out) = adGroups w.
Proof.
  intros data acct Hfrom Hto Ha Hq Hc HfC Hrows HfA out.
  destruct (processSyncJob_adGroup_failure_run fetchCampaignPerformance
              fetchAdGroupPerformance job startTime endTime from to w a rows error
              (fun _ => True) Hfrom Hto Ha Hq Hc (fun w' _ => HfC w') Hrows)
    as (H1 & H2 & H3 & H4 & H5 & H6 & _).
  - intros w' _. destruct (HfA w') as [cs Hf]. exists cs. split; [exact I|exact Hf].
  - repeat split; assumption.
Qed.

Lemma processSyncJob_adGroup_failure_swallowed_witness :
  let out := SyncProcessor.processSyncJob Scenario.fetchCampaigns Cases.fetchFails
               Scenario.queueJob 1704153600000 1704153601500 Cases.cachedWorld in
  fst out = Ok (SyncProcessor.mkSyncResult 1 ("2024-01-01", "2024-01-01") 1500) /\
  console (snd out) = ["Failed to fetch ad group metrics:"] /\
  syncJobs (snd out) =
    [SyncJob.set_completed 1704153601500 1 1500
       (SyncJob.set_running 1704153600000 Scenario.pendingJob)].
Proof.
  destruct (processSyncJob_adGroup_failure_swallowed Scenario.fetchCampaigns
              Cases.fetchFails Scenario.queueJob 1704153600000 1704153601500
              Scenario.jan01 Scenario.jan01 Cases.cachedWorld Scenario.account
              Scenario.campaignRows
              (ErrorObject "Google Ads API error: UNAUTHENTICATED"))
    as (H1 & H2 & H3 & _).
  - reflexivity.
  - reflexivity.
  - reflexivity.
  - reflexivity.
  - reflexivity.
  - intros w'. reflexivity.
  - repeat constructor. vm_compute. eauto.
  - intros w'. exists (connections w'). now destruct w'.
  - split; [exact H1|]. split; [exact H2|exact H3].
Defined.

(** ** A failed token refresh, and what the sync makes of it *)

Section RefreshFailureFacts.
Import GoogleAds.

Lemma refreshAccessToken_outcome oauthRefresh now refreshToken (w w' : World) :
  fst (refreshAccessToken oauthRefresh now refreshToken w')
  = fst (refreshAccessToken oauthRefresh now refreshToken w).
Proof.
  unfold refreshAccessToken, bind, liftResult.
  destruct (oauthRefresh refreshToken) as [[[[|ch s]|] e]|err]; reflexivity.
Qed.

End RefreshFailureFacts.

(** C6, amended: when the stored access token is expired (or expires
    within five minutes) and the refresh-token exchange fails,
    [getValidAccessToken] stores the connection with status EXPIRED and
    the error's message, throws that same error instead of returning the
    decrypted token, and [queryGoogleAds] passes the error on without
    reaching the API.  A sync whose campaign fetch meets this failure
    throws the same error, with the connection EXPIRED, the account in
    status ERROR and the job rows of its window FAILED with the error's
    message.  A sync whose ad-group fetch meets it (after a campaign
    fetch that went through) does not: it logs a warning and returns,
    with the connection EXPIRED, the job rows of its window COMPLETED and
    the account SYNCED. *)
Theorem C6_failed_refresh_expires_connection
    (decrypt encrypt : string -> Result string)
    (oauthRefresh : string -> Result (option string * option Z))
    (Row : Type)
    (searchStream : string -> string -> string -> string -> Result (list Row))
    (now : Z) (connectionId : string) (w : World) (c : Connection.t)
    (accessToken refreshToken : string) (error : JsError)
    (developerToken : option string) (customerId query : string) :
  connections w !! connectionId = Some c ->
  decrypt (Connection.accessTokenEnc c) = Ok accessToken ->
  decrypt (Connection.refreshTokenEnc c) = Ok refreshToken ->
  GoogleAds.isExpired now c = true ->
  fst (GoogleAds.refreshAccessToken oauthRefresh now refreshToken w) = Throw error ->
  let out := GoogleAds.getValidAccessToken decrypt encrypt oauthRefresh
               now connectionId w in
  fst out = Throw error /\
  (exists c',
     connections (snd out) !! connectionId = Some c' /\
     Connection.status c' = ConnectionStatus.EXPIRED /\
     Connection.errorMessage c' = Some (messageOr "Token refresh failed" error) /\
     Connection.accessTokenEnc c' = Connection.accessTokenEnc c /\
     Connection.refreshTokenEnc c' = Connection.refreshTokenEnc c) /\
  snd out = with_connections
              (<[connectionId := GoogleAds.expired error c]> (connections w)) w /\
  GoogleAds.queryGoogleAds decrypt encrypt oauthRefresh Row searchStream
    true developerToken now connectionId customerId query w
  = (Throw error, snd out) /\
  (forall (campaignMetrics : Row -> GoogleAds.Metrics.t)
         (fetchAdGroupPerformance :
            string -> string -> string -> string -> M World (list GoogleAds.Metrics.t))
         (job : QueueJob.t) (startTime endTime from to : Z) (a : AdAccount.t),
    SyncJobData.connectionId (QueueJob.data job) = connectionId ->
    JsDate.parseDate (SyncJobData.dateFrom (QueueJob.data job)) = Some from ->
    JsDate.parseDate (SyncJobData.dateTo (QueueJob.data job)) = Some to ->
    adAccounts w !! SyncJobData.adAccountId (QueueJob.data job) = Some a ->
    let sync :=
      SyncProcessor.processSyncJob
        (Fetch.fetchCampaignPerformance decrypt encrypt oauthRefresh Row
           searchStream campaignMetrics developerToken true now)
        fetchAdGroupPerformance job startTime endTime w in
    fst sync = Throw error /\
    connections (snd sync) !! connectionId = Some (GoogleAds.expired error c) /\
    adAccounts (snd sync) !! SyncJobData.adAccountId (QueueJob.data job)
      = Some (AdAccount.set_syncStatus SyncStatus.ERROR a) /\
    syncJobs (snd sync) =
      map (fun j =>
             if SyncProcessor.thisJob job
                  [SyncJobStatus.PENDING; SyncJobStatus.RUNNING] from to j
             then SyncJob.set_failed endTime (messageOr "Unknown error" error)
                    (if SyncJobStatus.eqb (SyncJob.status j) SyncJobStatus.PENDING
                     then SyncJob.set_running startTime j else j)
             else j)
          (syncJobs w)) /\
  forall (adGroupMetrics : Row -> GoogleAds.Metrics.t)
         (fetchCampaignPerformance :
            string -> string -> string -> string -> M World (list GoogleAds.Metrics.t))
         (job : QueueJob.t) (startTime endTime from to : Z) (a : AdAccount.t)
         (rows : list GoogleAds.Metrics.t),
    SyncJobData.connectionId (QueueJob.data job) = connectionId ->
    JsDate.parseDate (SyncJobData.dateFrom (QueueJob.data job)) = Some from ->
    JsDate.parseDate (SyncJobData.dateTo (QueueJob.data job)) = Some to ->
    adAccounts w !! SyncJobData.adAccountId (QueueJob.data job) = Some a ->
    queueError w = None ->
    cacheError w = None ->
    (forall w', connections w' = connections w ->
       fetchCampaignPerformance (SyncJobData.connectionId (QueueJob.data job))
         (SyncJobData.customerId (QueueJob.data job))
         (SyncJobData.dateFrom (QueueJob.data job))
         (SyncJobData.dateTo (QueueJob.data job)) w' = (Ok rows, w')) ->
    Forall (fun m => is_Some (JsDate.parseDate (GoogleAds.Metrics.date m))) rows ->
    let sync :=
      SyncProcessor.processSyncJob fetchCampaignPerformance
        (Fetch.fetchAdGroupPerformance decrypt encrypt oauthRefresh Row
           searchStream adGroupMetrics developerToken true now)
        job startTime endTime w in
    fst sync = Ok (SyncProcessor.mkSyncResult (length rows)
                     (SyncJobData.dateFrom (QueueJob.data job),
                      SyncJobData.dateTo (QueueJob.data job))
                     (endTime - startTime)) /\
    connections (snd sync) !! connectionId = Some (GoogleAds.expired error c) /\
    console (snd sync) = console w ++ ["Failed to fetch ad group metrics:"] /\
    adAccounts (snd sync) !! SyncJobData.adAccountId (QueueJob.data job)
      = Some (AdAccount.set_synced endTime a) /\
    syncJobs (snd sync) =
      map (fun j =>
             if SyncProcessor.thisJob job
                  [SyncJobStatus.PENDING; SyncJobStatus.RUNNING] from to j
             then SyncJob.set_completed endTime (length rows) (endTime - startTime)
                    (if SyncJobStatus.eqb (SyncJob.status j) SyncJobStatus.PENDING
                     then SyncJob.set_running startTime j else j)
             else j)
          (syncJobs w).
Proof.
  intros Hc Ha Hr He Hf out.
  pose proof (getValidAccessToken_refresh_fails decrypt encrypt oauthRefresh
                now connectionId w c accessToken refreshToken error
                Hc Ha Hr He Hf) as H.
  subst out. rewrite H. cbn [fst snd].
  split; [reflexivity|]. split; [|split; [reflexivity|split; [|split]]].
  - exists (GoogleAds.expired error c). cbn. rewrite lookup_insert_eq.
    repeat split.
  - unfold GoogleAds.queryGoogleAds. cbn [negb]. unfold bind. now rewrite H.
  - intros campaignMetrics fetchA job startTime endTime from to a Hj Hfrom Hto Hacc.
    set (w2 := with_adAccounts
                 (<[SyncJobData.adAccountId (QueueJob.data job) :=
                      AdAccount.set_syncStatus SyncStatus.SYNCING a]> (adAccounts w))
                 (with_syncJobs
                    (map (fun j => if SyncProcessor.thisJob job
                                        [SyncJobStatus.PENDING] from to j
                                   then SyncJob.set_running startTime j else j)
                       (syncJobs w)) w)).
    assert (Hf2 : fst (GoogleAds.refreshAccessToken oauthRefresh now refreshToken w2)
                  = Throw error)
      by (rewrite <- Hf; apply refreshAccessToken_outcome).
    pose proof (getValidAccessToken_refresh_fails decrypt encrypt oauthRefresh
                  now connectionId w2 c accessToken refreshToken error
                  Hc Ha Hr He Hf2) as H2.
    destruct (processSyncJob_fetch_failure_at
                (Fetch.fetchCampaignPerformance decrypt encrypt oauthRefresh Row
                   searchStream campaignMetrics developerToken true now)
                fetchA job startTime endTime from to w a error
                (<[connectionId := GoogleAds.expired error c]> (connections w))
                Hfrom Hto Hacc)
      as (S1 & S2 & S3 & S4 & _).
    { fold w2. unfold Fetch.fetchCampaignPerformance, bind at 1,
        GoogleAds.queryGoogleAds. cbn [negb]. unfold bind at 1.
      rewrite Hj, H2. reflexivity. }
    split; [exact S1|]. split; [|split; [|exact S4]].
    + rewrite S2. apply lookup_insert_eq.
    + rewrite S3. apply lookup_insert_eq.
  - intros adGroupMetrics fetchC job startTime endTime from to a rows
      Hj Hfrom Hto Hacc Hq Hcache HfC Hrows.
    destruct (processSyncJob_adGroup_failure_run fetchC
                (Fetch.fetchAdGroupPerformance decrypt encrypt oauthRefresh Row
                   searchStream adGroupMetrics developerToken true now)
                job startTime endTime from to w a rows error
                (fun cs => cs = <[connectionId := GoogleAds.expired error c]>
                                  (connections w))
                Hfrom Hto Hacc Hq Hcache HfC Hrows)
      as (S1 & S2 & S3 & S4 & _ & _ & S7).
    { intros w' Hw'. eexists. split; [reflexivity|].
      assert (Hc' : connections w' !! connectionId = Some c) by now rewrite Hw'.
      assert (Hf' : fst (GoogleAds.refreshAccessToken oauthRefresh now refreshToken w')
                    = Throw error)
        by (rewrite <- Hf; apply refreshAccessToken_outcome).
      pose proof (getValidAccessToken_refresh_fails decrypt encrypt oauthRefresh
                    now connectionId w' c accessToken refreshToken error
                    Hc' Ha Hr He Hf') as H'.
      unfold Fetch.fetchAdGroupPerformance, bind at 1, GoogleAds.queryGoogleAds.
      cbn [negb]. unfold bind at 1. rewrite Hj, H', Hw'. reflexivity. }
    split; [exact S1|]. split; [|split; [exact S2|split; [|exact S3]]].
    + rewrite S7. apply lookup_insert_eq.
    + rewrite S4. apply lookup_insert_eq.
Qed.

Lemma C6_witness :
  let out := GoogleAds.getValidAccessToken Scenario.noCrypt Scenario.noCrypt
               Scenario.revoked 1704070700000 Scenario.connectionId
               Cases.expiringWorld in
  fst out = Throw (ErrorObject "invalid_grant") /\
  (exists c',
     connections (snd out) !! Scenario.connectionId = Some c' /\
     Connection.status c' = ConnectionStatus.EXPIRED /\
     Connection.errorMessage c' =
       Some (messageOr "Token refresh failed" (ErrorObject "invalid_grant"))) /\
  GoogleAds.queryGoogleAds Scenario.noCrypt Scenario.noCrypt Scenario.revoked
    unit Scenario.noRows true (Some "dev-token") 1704070700000
    Scenario.connectionId "1234567890" "SELECT campaign.id FROM campaign"
    Cases.expiringWorld
  = (Throw (ErrorObject "invalid_grant"), snd out) /\
  let sync :=
    SyncProcessor.processSyncJob
      (Fetch.fetchCampaignPerformance Scenario.noCrypt Scenario.noCrypt
         Scenario.revoked unit Scenario.noRows Cases.noMetrics (Some "dev-token")
         true 1704070700000)
      Scenario.fetchNoAdGroups Scenario.queueJob 1704070700000 1704070701000
      Cases.expiringWorld in
  (fst sync = Throw (ErrorObject "invalid_grant") /\
   syncJobs (snd sync) =
     [SyncJob.set_failed 1704070701000 "invalid_grant"
        (SyncJob.set_running 1704070700000 Cases.expiringJob)]) /\
  let swallowed :=
    SyncProcessor.processSyncJob Scenario.fetchCampaigns
      (Fetch.fetchAdGroupPerformance Scenario.noCrypt Scenario.noCrypt
         Scenario.revoked unit Scenario.noRows Cases.noMetrics (Some "dev-token")
         true 1704070700000)
      Scenario.queueJob 1704070700000 1704070701000 Cases.expiringWorld in
  fst swallowed
    = Ok (SyncProcessor.mkSyncResult 1 ("2024-01-01", "2024-01-01") 1000) /\
  console (snd swallowed)
    = console Cases.expiringWorld ++ ["Failed to fetch ad group metrics:"].
Proof.
  destruct (C6_failed_refresh_expires_connection Scenario.noCrypt Scenario.noCrypt
              Scenario.revoked unit Scenario.noRows 1704070700000
              Scenario.connectionId Cases.expiringWorld Scenario.connection
              "enc:access" "enc:refresh" (ErrorObject "invalid_grant")
              (Some "dev-token") "1234567890" "SELECT campaign.id FROM campaign")
    as (H1 & (c' & L1 & L2 & L3 & _) & _ & H4 & H5 & H6).
  - reflexivity.
  - reflexivity.
  - reflexivity.
  - reflexivity.
  - reflexivity.
  - split; [exact H1|]. split; [exists c'; auto|]. split; [exact H4|].
    destruct (H5 Cases.noMetrics Scenario.fetchNoAdGroups Scenario.queueJob
                1704070700000 1704070701000 Scenario.jan01 Scenario.jan01
                Scenario.account eq_refl eq_refl eq_refl eq_refl)
      as (S1 & _ & _ & S4).
    split; [split; [exact S1|exact S4]|].
    destruct (H6 Cases.noMetrics Scenario.fetchCampaigns Scenario.queueJob
                1704070700000 1704070701000 Scenario.jan01 Scenario.jan01
                Scenario.account Scenario.campaignRows
                eq_refl eq_refl eq_refl eq_refl eq_refl eq_refl)
      as (T1 & _ & T3 & _).
    + intros w' _. reflexivity.
    + repeat constructor. vm_compute. eauto.
    + split; [exact T1|exact T3].
Defined.

(** C6, as stated, fails for the callers: a sync during which the token
    comes within five minutes of its expiry has its campaign fetch served
    with the stored token, and its ad-group fetch met by the failed
    refresh.  [getValidAccessToken] stores the connection as EXPIRED and
    throws, but [processSyncJob] catches the error of the ad-group fetch:
    it logs a warning and returns, with the job COMPLETED and the account
    SYNCED. *)
Lemma C6_refresh_failure_swallowed_by_sync :
  fst (GoogleAds.getValidAccessToken Scenario.noCrypt Scenario.noCrypt
         Scenario.revoked 1704070700000 Scenario.connectionId Cases.expiringWorld)
    = Throw (ErrorObject "invalid_grant") /\
  let out := SyncProcessor.processSyncJob Cases.fetchCampaignsEarly
               Cases.fetchAdGroupsLate Scenario.queueJob 1704067200000
               1704070701000 Cases.expiringWorld in
  fst out = Ok (SyncProcessor.mkSyncResult 0 ("2024-01-01", "2024-01-01") 3501000) /\
  connections (snd out) !! Scenario.connectionId
    = Some (GoogleAds.expired (ErrorObject "invalid_grant") Scenario.connection) /\
  adAccounts (snd out) !! Scenario.accountId
    = Some (AdAccount.set_synced 1704070701000 Scenario.account) /\
  syncJobs (snd out) =
    [SyncJob.set_completed 1704070701000 0 3501000
       (SyncJob.set_running 1704067200000 Cases.expiringJob)] /\
  console (snd out) = ["Failed to fetch ad group metrics:"].
Proof. vm_compute. repeat split. Qed.

(** ** The job rows after a run that returns *)

Section JobRowsFacts.
Import Frame SyncProcessor.

Lemma keeps_weaken {St A} (R R' : St -> St -> Prop) (c : M St A) :
  (forall s s', R s s' -> R' s s') -> keeps R c -> keeps R' c.
Proof. intros H Hc s. apply H, Hc. Qed.

Lemma adGroupRow_warehouse job metric :
  keeps (onWorld warehouseOnly) (adGroupRow job metric).
Proof.
  unfold adGroupRow.
  destruct (GoogleAds.Metrics.adGroupId metric) as [[|ch g]|];
    try (apply keeps_ret, onWarehouse_refl).
  apply keeps_bind; [apply onWarehouse_trans| |intros campaign].
  { apply keeps_inWorld, keeps_gets, warehouseOnly_refl. }
  destruct campaign as [c|]; [|apply keeps_ret, onWarehouse_refl].
  apply keeps_bind; [apply onWarehouse_trans| |intros _].
  { apply keeps_inWorld. intros w. unfold Prisma.adGroup_upsert.
    destruct (adGroups w !! _); now destruct w. }
  apply keeps_bind; [apply onWarehouse_trans| |intros adGroup].
  { apply keeps_inWorld, keeps_gets, warehouseOnly_refl. }
  destruct adGroup as [g'|]; [|apply keeps_ret, onWarehouse_refl].
  apply keeps_bind; [apply onWarehouse_trans| |intros d].
  { apply keeps_inWorld. intros w. rewrite dateArg_state.
    apply warehouseOnly_refl. }
  apply keeps_bind; [apply onWarehouse_trans| |intros _].
  { apply keeps_inWorld. intros w.
    unfold upsertFact, Prisma.metricsFact_upsert.
    destruct (metricsFacts w !! _); now destruct w. }
  intros [w n]. apply warehouseOnly_refl.
Qed.

Lemma warehouseOnly_jobs (s s' : World * nat) :
  onWorld warehouseOnly s s' -> syncJobs (fst s') = syncJobs (fst s).
Proof. intros H. now apply warehouseOnly_fields in H. Qed.

Lemma run_state {St A} (c : M St A) s a s' : c s = (Ok a, s') -> snd (c s) = s'.
Proof. now intros ->. Qed.

Section Pass.
Variable fetchCampaignPerformance fetchAdGroupPerformance :
  string -> string -> string -> string -> M World (list GoogleAds.Metrics.t).
Variable job : QueueJob.t.
Variable startTime endTime : Z.

Hypothesis fetchCampaigns_jobs : forall a b c d w,
  syncJobs (snd (fetchCampaignPerformance a b c d w)) = syncJobs w.
Hypothesis fetchAdGroups_jobs : forall a b c d w,
  syncJobs (snd (fetchAdGroupPerformance a b c d w)) = syncJobs w.

Lemma inWorld_jobs {A} (c : M World A) :
  (forall w, syncJobs (snd (c w)) = syncJobs w) ->
  forall s, syncJobs (fst (snd (inWorld c s))) = syncJobs (fst s).
Proof.
  intros H [w n]. unfold inWorld. cbn [fst snd]. specialize (H w).
  destruct (c w) as [r w1]. exact H.
Qed.

Lemma adGroup_try_jobs s :
  syncJobs (fst (snd (tryCatch
    (adGroupMetrics <- inWorld (fetchAdGroupPerformance
                         (SyncJobData.connectionId (QueueJob.data job))
                         (SyncJobData.customerId (QueueJob.data job))
                         (SyncJobData.dateFrom (QueueJob.data job))
                         (SyncJobData.dateTo (QueueJob.data job))) ;;
     forEach adGroupMetrics (adGroupRow job))
    (fun err => inWorld (consoleWarn "Failed to fetch ad group metrics:")) s)))
  = syncJobs (fst s).
Proof.
  pose (J := fun x y : World * nat => syncJobs (fst y) = syncJobs (fst x)).
  assert (T : forall x y z, J x y -> J y z -> J x z)
    by (unfold J; intros; congruence).
  change (J s (snd (tryCatch
    (adGroupMetrics <- inWorld (fetchAdGroupPerformance
                         (SyncJobData.connectionId (QueueJob.data job))
                         (SyncJobData.customerId (QueueJob.data job))
                         (SyncJobData.dateFrom (QueueJob.data job))
                         (SyncJobData.dateTo (QueueJob.data job))) ;;
     forEach adGroupMetrics (adGroupRow job))
    (fun err => inWorld (consoleWarn "Failed to fetch ad group metrics:")) s))).
  revert s. apply keeps_tryCatch; [exact T| |intros e].
  - apply keeps_bind; [exact T| |intros rows].
    + intros s. apply inWorld_jobs, fetchAdGroups_jobs.
    + apply (keeps_weaken (onWorld warehouseOnly)); [apply warehouseOnly_jobs|].
      apply keeps_forEach;
        [apply onWarehouse_refl|apply onWarehouse_trans|apply adGroupRow_warehouse].
  - intros s. apply inWorld_jobs. reflexivity.
Qed.

Lemma pass_jobs w res s :
  processSyncJob_pass fetchCampaignPerformance fetchAdGroupPerformance job
    startTime endTime (w, O) = (Ok res, s) ->
  exists from to,
    JsDate.parseDate (SyncJobData.dateFrom (QueueJob.data job)) = Some from /\
    JsDate.parseDate (SyncJobData.dateTo (QueueJob.data job)) = Some to /\
    syncJobs (fst s) =
      map (fun j => if thisJob job [SyncJobStatus.RUNNING] from to j
                    then SyncJob.set_completed endTime (rowsProcessed res)
                           (duration res) j
                    else j)
        (map (fun j => if thisJob job [SyncJobStatus.PENDING] from to j
                       then SyncJob.set_running startTime j else j)
           (syncJobs w)).
Proof.
  intros Hpass. unfold processSyncJob_pass in Hpass.
  apply bind_Ok in Hpass as ([] & s1 & H1 & Hpass).
  apply bind_Ok in Hpass as ([] & s2 & H2 & Hpass).
  apply bind_Ok in Hpass as (rows & s3 & H3 & Hpass).
  apply bind_Ok in Hpass as ([] & s4 & H4 & Hpass).
  apply bind_Ok in Hpass as ([] & s5 & H5 & Hpass).
  apply bind_Ok in Hpass as ([] & s6 & H6 & Hpass).
  apply bind_Ok in Hpass as ([] & s7 & H7 & Hpass).
  cbv zeta in Hpass.
  apply bind_Ok in Hpass as (totalRows & s8 & H8 & Hpass).
  apply bind_Ok in Hpass as ([] & s9 & H9 & Hpass).
  apply bind_Ok in Hpass as ([] & s10 & H10 & Hpass).
  unfold ret in Hpass. injection Hpass as <- <-.
  unfold gets in H8. injection H8 as <- <-.
  apply inWorld_Ok in H1 as [H1 _]. cbn [fst] in H1.
  apply markJob_Ok in H1 as (from & to & Hfrom & Hto & E1).
  apply inWorld_Ok in H9 as [H9 _].
  apply markJob_Ok in H9 as (from' & to' & Hfrom' & Hto' & E9).
  assert (from' = from) as -> by congruence.
  assert (to' = to) as -> by congruence.
  apply inWorld_Ok in H10 as [H10 _].
  apply adAccount_update_Ok in H10 as (a10 & _ & E10).
  exists from, to. split; [exact Hfrom|]. split; [exact Hto|].
  rewrite E10, E9. cbn [syncJobs with_adAccounts with_syncJobs rowsProcessed duration].
  f_equal.
  apply run_state in H2, H3, H4, H5, H6, H7.
  rewrite <- H7, inWorld_jobs
    by (intros w0; unfold Queue.updateProgress; now destruct (queueError w0)).
  rewrite <- H6, adGroup_try_jobs.
  rewrite <- H5, inWorld_jobs
    by (intros w0; unfold Queue.updateProgress; now destruct (queueError w0)).
  rewrite <- H4.
  rewrite (warehouseOnly_jobs _ _
             (keeps_forEach (onWorld warehouseOnly) onWarehouse_refl
                onWarehouse_trans rows (campaignRow job)
                (campaignRow_warehouse job) s3)).
  rewrite <- H3, inWorld_jobs by (intros w0; apply fetchCampaigns_jobs).
  rewrite <- H2, inWorld_jobs
    by (intros w0; unfold Prisma.adAccount_update;
        now destruct (adAccounts w0 !! _)).
  rewrite E1. reflexivity.
Qed.

End Pass.

End JobRowsFacts.

Lemma processSyncJob_jobs_after_return
    (fetchCampaignPerformance fetchAdGroupPerformance :
       string -> string -> string -> string -> M World (list GoogleAds.Metrics.t))
    (job : QueueJob.t) (startTime endTime : Z) (w : World)
    (r : SyncProcessor.SyncResult) :
  (forall a b c d w',
     syncJobs (snd (fetchCampaignPerformance a b c d w')) = syncJobs w') ->
  (forall a b c d w',
     syncJobs (snd (fetchAdGroupPerformance a b c d w')) = syncJobs w') ->
  let out := SyncProcessor.processSyncJob fetchCampaignPerformance
               fetchAdGroupPerformance job startTime endTime w in
  fst out = Ok r ->
  exists from to,
    JsDate.parseDate (SyncJobData.dateFrom (QueueJob.data job)) = Some from /\
    JsDate.parseDate (SyncJobData.dateTo (QueueJob.data job)) = Some to /\
    syncJobs (snd out) =
      map (fun j =>
             if SyncProcessor.thisJob job
                  [SyncJobStatus.PENDING; SyncJobStatus.RUNNING] from to j
             then SyncJob.set_completed endTime (SyncProcessor.rowsProcessed r)
                    (SyncProcessor.duration r)
                    (if SyncJobStatus.eqb (SyncJob.status j) SyncJobStatus.PENDING
                     then SyncJob.set_running startTime j else j)
             else j)
          (syncJobs w).
Proof.
  intros HC HA out Hok. subst out.
  unfold SyncProcessor.processSyncJob, tryCatch in *.
  destruct (SyncProcessor.processSyncJob_try _ _ _ _ _ (w, O))
    as [[r'|e] [w' n']] eqn:E; cbn [fst snd] in *.
  2: { destruct (processSyncJob_catch_throws job endTime e w') as [e' He'].
       rewrite He' in Hok. discriminate. }
  injection Hok as ->.
  unfold SyncProcessor.processSyncJob_try in E.
  apply bind_Ok in E as (res & s1 & Hpass & E).
  apply bind_Ok in E as ([] & s2 & Hdel & E).
  unfold ret in E. injection E as -> ->.
  apply inWorld_Ok in Hdel as [Hdel _]. cbn [fst] in Hdel.
  destruct (pass_jobs fetchCampaignPerformance fetchAdGroupPerformance job
              startTime endTime HC HA w r s1 Hpass)
    as (from & to & Hfrom & Hto & Hjobs).
  exists from, to. split; [exact Hfrom|]. split; [exact Hto|].
  assert (syncJobs w' = syncJobs (fst s1)) as ->.
  { unfold Cache.delPattern in Hdel.
    destruct (cacheError (fst s1)); [discriminate|]. now injection Hdel as <-. }
  rewrite Hjobs, map_map. apply map_ext. intros j. rewrite thisJob_either.
  destruct (SyncProcessor.thisJob job [SyncJobStatus.PENDING] from to j) eqn:T1.
  - pose proof T1 as T1'. apply thisJob_spec in T1' as (E1 & E2 & E3 & E4).
    cbn [existsb] in E2. rewrite orb_false_r in E2. rewrite E2.
    assert (SyncProcessor.thisJob job [SyncJobStatus.RUNNING] from to
              (SyncJob.set_running startTime j) = true) as ->
      by (apply thisJob_spec; repeat split; assumption).
    reflexivity.
  - cbn [orb].
    destruct (SyncProcessor.thisJob job [SyncJobStatus.RUNNING] from to j) eqn:T2;
      [|reflexivity].
    apply thisJob_spec in T2 as (E1 & E2 & E3 & E4).
    cbn [existsb] in E2. rewrite orb_false_r in E2.
    destruct (SyncJob.status j); try discriminate. reflexivity.
Qed.

(** Whenever [processSyncJob] returns, with fetches that write no job
    row: the job rows of the account on the job's window that were
    PENDING or RUNNING are COMPLETED, with the end time, the result's row
    count and its duration (a row that was PENDING also has the start
    time), and every other job row is as it was. *)
Theorem processSyncJob_completes_jobs
    (fetchCampaignPerformance fetchAdGroupPerformance :
       string -> string -> string -> string -> M World (list GoogleAds.Metrics.t))
    (job : QueueJob.t) (startTime endTime : Z) (w : World)
    (r : SyncProcessor.SyncResult) :
  (forall a b c d w',
     syncJobs (snd (fetchCampaignPerformance a b c d w')) = syncJobs w') ->
  (forall a b c d w',
     syncJobs (snd (fetchAdGroupPerformance a b c d w')) = syncJobs w') ->
  let out := SyncProcessor.processSyncJob fetchCampaignPerformance
               fetchAdGroupPerformance job startTime endTime w in
  fst out = Ok r ->
  exists from to,
    JsDate.parseDate (SyncJobData.dateFrom (QueueJob.data job)) = Some from /\
    JsDate.parseDate (SyncJobData.dateTo (QueueJob.data job)) = Some to /\
    syncJobs (snd out) =
      map (fun j =>
             if SyncProcessor.thisJob job
                  [SyncJobStatus.PENDING; SyncJobStatus.RUNNING] from to j
             then SyncJob.set_completed endTime (SyncProcessor.rowsProcessed r)
                    (SyncProcessor.duration r)
                    (if SyncJobStatus.eqb (SyncJob.status j) SyncJobStatus.PENDING
                     then SyncJob.set_running startTime j else j)
             else j)
          (syncJobs w).
Proof.
  intros HC HA out Hok.
  exact (processSyncJob_jobs_after_return fetchCampaignPerformance
           fetchAdGroupPerformance job startTime endTime w r HC HA Hok).
Qed.

Lemma processSyncJob_completes_jobs_witness :
  syncJobs (snd (SyncProcessor.processSyncJob Scenario.fetchCampaigns
                   Scenario.fetchNoAdGroups Scenario.queueJob 1704153600000
                   1704153601500 Cases.cachedWorld))
  = [SyncJob.set_completed 1704153601500 1 1500
       (SyncJob.set_running 1704153600000 Scenario.pendingJob)].
Proof.
  destruct (processSyncJob_completes_jobs Scenario.fetchCampaigns
              Scenario.fetchNoAdGroups Scenario.queueJob 1704153600000
              1704153601500 Cases.cachedWorld
              (SyncProcessor.mkSyncResult 1 ("2024-01-01", "2024-01-01") 1500))
    as (from & to & Hfrom & Hto & H).
  - intros a b c d w'. reflexivity.
  - intros a b c d w'. reflexivity.
  - vm_compute. reflexivity.
  - rewrite H. vm_compute in Hfrom, Hto.
    injection Hfrom as <-. injection Hto as <-. reflexivity.
Defined.

(** ** [splitDateRange] on local time *)

Section ZonedFacts.
Import JsDate SyncProcessor.

Lemma daySpans_length m : 1 <= m -> forall n a b,
  a <= b + 1 -> b - a + 1 < Z.of_nat n ->
  Z.of_nat (length (daySpans m n a b)) = (b - a + m) / m.
Proof.
  intros Hm. induction n as [|n IH]; intros a b Hab Hn; [lia|].
  cbn [daySpans]. destruct (Z.leb_spec a b) as [L|G].
  - cbn [length]. rewrite Nat2Z.inj_succ.
    destruct (Z_le_gt_dec (a + m - 1) b) as [F|P].
    + rewrite Z.min_l by lia. rewrite IH by lia.
      replace (b - a + m) with ((b - (a + m - 1 + 1) + m) + 1 * m) by lia.
      rewrite Z.div_add by lia. lia.
    + rewrite Z.min_r by lia. rewrite IH by lia.
      replace (b - (b + 1) + m) with (m - 1) by lia.
      rewrite (Z.div_small (m - 1)) by lia.
      replace (b - a + m) with ((b - a) + 1 * m) by lia.
      rewrite Z.div_add by lia. rewrite Z.div_small by lia. lia.
  - cbn [length]. replace (b - a + m) with (m - 1) by lia.
    now rewrite Z.div_small by lia.
Qed.

Lemma MakeDay_shift d k :
  MakeDay (YearFromDay d) (MonthFromDay d) (DateFromDay d + k) = d + k.
Proof. pose proof (MakeDay_inverse d) as H. unfold MakeDay in *. lia. Qed.

(** In a zone without daylight saving, [setDate(getDate() + k)] moves the
    time value by [k] days, up to the limit of [Date]. *)
Lemma addDays_fixed offset t k :
  Zoned.addDays (Zoned.fixed offset) t k = Zoned.TimeClip (t + k * msPerDay).
Proof.
  unfold Zoned.addDays, Zoned.setDate, Zoned.getDate, Zoned.LocalTime, Zoned.UTC,
    Zoned.TimeWithinDay, Zoned.fixed. cbn [Zoned.offsetOfUTC Zoned.offsetOfLocal].
  rewrite MakeDay_shift. f_equal. unfold Day, msPerDay.
  pose proof (Z.div_mod (t + offset) 86400000 ltac:(lia)). lia.
Qed.

Lemma TimeClip_in_range t :
  - Zoned.maxTime <= t <= Zoned.maxTime -> Zoned.TimeClip t = Some t.
Proof.
  intros H. unfold Zoned.TimeClip.
  destruct (Z.leb_spec (Z.abs t) Zoned.maxTime); [reflexivity|lia].
Qed.

(** With a chunk size of at least one day, and as long as no date leaves
    the range of [Date], the loop in a zone without daylight saving is
    the loop on whole days. *)
Lemma splitLoop_fixed offset m end_ :
  1 <= m -> end_ + m * msPerDay <= Zoned.maxTime ->
  forall fuel chunkStart chunks,
    - Zoned.maxTime <= chunkStart ->
    Zoned.splitLoop (Zoned.fixed offset) fuel (Some chunkStart) end_ m chunks
    = option_map Ok (splitLoop fuel chunkStart end_ m chunks).
Proof.
  intros Hm He. induction fuel as [|fuel IH]; intros cs chunks Hcs; [reflexivity|].
  cbn [Zoned.splitLoop splitLoop]. destruct (Z.leb_spec cs end_); [|reflexivity].
  rewrite addDays_fixed, TimeClip_in_range by (unfold msPerDay in *; lia).
  unfold addDays.
  destruct (Z.ltb_spec end_ (cs + (m - 1) * msPerDay));
    rewrite addDays_fixed, TimeClip_in_range by (unfold msPerDay in *; lia);
    apply IH; unfold msPerDay in *; lia.
Qed.

Lemma parsed_in_range s t m :
  parseDate s = Some t -> 0 <= m <= Zoned.maxChunkDays ->
  - Zoned.maxTime + msPerDay <= t /\ t + m * msPerDay <= Zoned.maxTime.
Proof.
  intros H Hm. destruct (parseDate_range _ _ H) as (d & -> & Hd).
  assert (DayFromYear 0 = -719528) as E0 by (vm_compute; reflexivity).
  assert (DayFromYear 10000 = 2932897) as E1 by (vm_compute; reflexivity).
  rewrite E0, E1 in Hd.
  unfold Zoned.maxTime, Zoned.maxChunkDays, msPerDay in *. lia.
Qed.

Lemma splitDateRange_fixed offset fuel startDate endDate m :
  1 <= m <= Zoned.maxChunkDays ->
  Zoned.splitDateRange (Zoned.fixed offset) fuel startDate endDate m
  = option_map Ok (splitDateRange fuel startDate endDate m).
Proof.
  intros Hm. unfold Zoned.splitDateRange, splitDateRange.
  destruct (parseDate startDate) as [start|] eqn:Hs; [|reflexivity].
  destruct (parseDate endDate) as [end_|] eqn:He; [|reflexivity].
  pose proof (parsed_in_range _ _ m Hs ltac:(lia)) as [H1 _].
  pose proof (parsed_in_range _ _ m He ltac:(lia)) as [_ H2].
  apply splitLoop_fixed; unfold msPerDay in *; lia.
Qed.

Lemma zoned_splitLoop_more_fuel zone : forall n k cs e m chunks r,
  Zoned.splitLoop zone n cs e m chunks = Some r ->
  Zoned.splitLoop zone (n + k) cs e m chunks = Some r.
Proof.
  induction n as [|n IH]; intros k cs e m chunks r H; [discriminate|].
  cbn [Nat.add Zoned.splitLoop] in *.
  destruct cs as [cs|]; [|exact H].
  destruct (cs <=? e); [|exact H].
  destruct (Zoned.addDays zone cs (m - 1)); [|exact H]. now apply IH.
Qed.

Lemma zoned_splitDateRange_more_fuel zone n k s e m r :
  Zoned.splitDateRange zone n s e m = Some r ->
  Zoned.splitDateRange zone (n + k) s e m = Some r.
Proof.
  unfold Zoned.splitDateRange.
  destruct (parseDate s), (parseDate e); auto using zoned_splitLoop_more_fuel.
Qed.

(** With a chunk size of zero the start of the next chunk is the start of
    this one. *)
Lemma splitLoop_zero_size offset end_ chunkStart :
  chunkStart <= end_ ->
  - Zoned.maxTime + msPerDay <= chunkStart <= Zoned.maxTime ->
  forall fuel chunks,
    Zoned.splitLoop (Zoned.fixed offset) fuel (Some chunkStart) end_ 0 chunks = None.
Proof.
  intros Hle Hr. induction fuel as [|fuel IH]; intros chunks; [reflexivity|].
  cbn [Zoned.splitLoop]. destruct (Z.leb_spec chunkStart end_); [|lia].
  rewrite addDays_fixed, TimeClip_in_range by (unfold msPerDay in *; lia).
  destruct (Z.ltb_spec end_ (chunkStart + (0 - 1) * msPerDay));
    [unfold msPerDay in *; lia|].
  rewrite addDays_fixed, TimeClip_in_range by (unfold msPerDay in *; lia).
  replace (chunkStart + (0 - 1) * msPerDay + 1 * msPerDay) with chunkStart by lia.
  apply IH.
Qed.

End ZonedFacts.

(** C4 on the code: in a process on New York time, the range
    2024-03-01..2024-03-30 split at 30 days per chunk comes back as the
    single chunk 2024-03-01..2024-03-29.  The chunk end is stepped on
    local time, across the change to daylight saving, and read back in
    UTC an hour short of the end date; the last day of the range is in no
    chunk. *)
Theorem C4_local_time_split_loses_last_day (k : nat) :
  Zoned.splitDateRange Zoned.newYork2024 (2 + k) "2024-03-01" "2024-03-30" 30
    = Some (Ok [SyncProcessor.mkChunk "2024-03-01" "2024-03-29"]) /\
  JsDate.parseDate "2024-03-01" = Some (19783 * JsDate.msPerDay) /\
  JsDate.parseDate "2024-03-30" = Some (19812 * JsDate.msPerDay) /\
  SyncProcessor.chunkDays (SyncProcessor.mkChunk "2024-03-01" "2024-03-29")
    = Some (19783, 19811) /\
  ~ SyncProcessor.covers [(19783, 19811)] 19783 19812.
Proof.
  split; [|repeat split].
  - apply zoned_splitDateRange_more_fuel. vm_compute. reflexivity.
  - intros H. destruct (proj2 (H 19812) ltac:(lia)) as (sp & [<-|[]] & Hin).
    unfold SyncProcessor.inSpan in Hin. cbn in Hin. lia.
Qed.

(** C10 on the code: in a process on New York time, 2024 split at 30
    days per chunk contains the chunk 2024-10-26..2024-11-25, of 31
    days: after the change to daylight saving the chunks start at 23:00
    UTC, and the chunk that crosses the change back ends at 00:00 UTC of
    the following day. *)
Theorem C10_local_time_chunk_exceeds_size (k : nat) :
  Zoned.splitDateRange Zoned.newYork2024 (14 + k) "2024-01-01" "2024-12-31" 30
    = Some (Ok Cases.chunks_2024_newYork) /\
  In (SyncProcessor.mkChunk "2024-10-26" "2024-11-25") Cases.chunks_2024_newYork /\
  SyncProcessor.chunkDays (SyncProcessor.mkChunk "2024-10-26" "2024-11-25")
    = Some (20022, 20052) /\
  20052 - 20022 + 1 = 31.
Proof.
  split; [|repeat split].
  - apply zoned_splitDateRange_more_fuel. vm_compute. reflexivity.
  - unfold Cases.chunks_2024_newYork. cbn. auto 20.
Qed.

(** In a zone without daylight saving, for a start date not after the end
    date and a chunk size of at least one day (and at most 90 million, so
    that no date leaves the range of [Date]), [splitDateRange] returns
    ceil(days / maxDaysPerChunk) chunks, where days counts both ends of
    the range. *)
Theorem splitDateRange_chunk_count
    (offset : Z) (startDate endDate : string) (start end_ m : Z) (fuel : nat) :
  JsDate.parseDate startDate = Some start ->
  JsDate.parseDate endDate = Some end_ ->
  1 <= m <= Zoned.maxChunkDays ->
  start <= end_ ->
  (Z.to_nat (JsDate.Day end_ - JsDate.Day start) + 2 <= fuel)%nat ->
  exists chunks,
    Zoned.splitDateRange (Zoned.fixed offset) fuel startDate endDate m
      = Some (Ok chunks) /\
    let days := JsDate.Day end_ - JsDate.Day start + 1 in
    Z.of_nat (length chunks) = (days + m - 1) / m.
Proof.
  intros Hs He Hm Hle Hf. rewrite splitDateRange_fixed by exact Hm.
  destruct (splitDateRange_spans startDate endDate start end_ m fuel Hs He
              ltac:(lia) Hf) as (E & _ & _ & _).
  rewrite E. eexists. split; [reflexivity|]. cbv zeta. rewrite length_map.
  destruct (parseDate_range _ _ Hs) as (a & -> & Ha).
  destruct (parseDate_range _ _ He) as (b & -> & Hb).
  rewrite !Day_of_days in *. unfold JsDate.msPerDay in Hle.
  rewrite daySpans_length by lia. f_equal. lia.
Qed.

Lemma splitDateRange_chunk_count_witness :
  exists chunks,
    Zoned.splitDateRange (Zoned.fixed 19800000) 100 "2023-10-01" "2024-01-01" 30
      = Some (Ok chunks) /\
    Z.of_nat (length chunks) = 4.
Proof.
  destruct (splitDateRange_chunk_count 19800000 "2023-10-01" "2024-01-01"
              1696118400000 1704067200000 30 100) as (chunks & E & L).
  - reflexivity.
  - reflexivity.
  - vm_compute. split; discriminate.
  - lia.
  - vm_compute. lia.
  - exists chunks. split; [exact E|]. exact L.
Defined.

(** In a zone without daylight saving, with a chunk size of zero and a
    start date not after the end date, the loop never ends: each chunk
    ends the day before its start, and the next chunk starts where this
    one did. *)
Theorem splitDateRange_zero_size_never_returns
    (offset : Z) (startDate endDate : string) (start end_ : Z) (fuel : nat) :
  JsDate.parseDate startDate = Some start ->
  JsDate.parseDate endDate = Some end_ ->
  start <= end_ ->
  Zoned.splitDateRange (Zoned.fixed offset) fuel startDate endDate 0 = None.
Proof.
  intros Hs He Hle. unfold Zoned.splitDateRange. rewrite Hs, He.
  pose proof (parsed_in_range _ _ 0 Hs ltac:(unfold Zoned.maxChunkDays; lia)).
  apply splitLoop_zero_size; [exact Hle|lia].
Qed.

Lemma splitDateRange_zero_size_never_returns_witness :
  Zoned.splitDateRange Zoned.utc 1000 "2024-01-01" "2024-01-01" 0 = None.
Proof.
  apply (splitDateRange_zero_size_never_returns 0 "2024-01-01" "2024-01-01"
           1704067200000 1704067200000 1000).
  - reflexivity.
  - reflexivity.
  - lia.
Defined.

(** In a zone without daylight saving, for two date strings that parse,
    with the start not after the end, and a chunk size between 1 and 90
    million days, [splitDateRange] returns a non-empty list of chunks
    whose day spans are contiguous, pairwise disjoint, and together
    exactly the days from the start date to the end date. *)
Theorem splitDateRange_tiles_in_fixed_zone
    (offset : Z) (startDate endDate : string) (start end_ m : Z) (fuel : nat) :
  JsDate.parseDate startDate = Some start ->
  JsDate.parseDate endDate = Some end_ ->
  start <= end_ ->
  1 <= m <= Zoned.maxChunkDays ->
  (Z.to_nat (JsDate.Day end_ - JsDate.Day start) + 2 <= fuel)%nat ->
  exists chunks spans,
    Zoned.splitDateRange (Zoned.fixed offset) fuel startDate endDate m
      = Some (Ok chunks) /\
    chunks <> [] /\
    Forall2 (fun c sp => SyncProcessor.chunkDays c = Some sp) chunks spans /\
    Forall (fun sp => fst sp <= snd sp) spans /\
    SyncProcessor.contiguous spans /\
    SyncProcessor.nonOverlapping spans /\
    SyncProcessor.covers spans (JsDate.Day start) (JsDate.Day end_).
Proof.
  intros Hs He Hle Hm Hf. rewrite splitDateRange_fixed by exact Hm.
  destruct (splitDateRange_spans _ _ _ _ _ _ Hs He (proj1 Hm) Hf)
    as (Hr & Hd & Ht & _).
  specialize (Ht Hle). rewrite Hr.
  eexists _, _. split; [reflexivity|]. split; [|split; [exact Hd|]].
  - inversion Ht as [E|a c l ? ? ? E1 E2].
    + rewrite (parseDate_days _ _ Hs), (parseDate_days _ _ He) in Hle.
      unfold JsDate.msPerDay in Hle. lia.
    + discriminate.
  - split; [|split; [|split]].
    + eapply Forall_impl; [exact (tiling_within _ _ _ _ Ht)|]. simpl; intros; lia.
    + exact (tiling_contiguous _ _ _ _ Ht).
    + exact (tiling_nonOverlapping _ _ _ _ Ht).
    + exact (proj2 (tiling_covers _ _ _ _ Ht)).
Qed.

Lemma splitDateRange_tiles_in_fixed_zone_witness :
  exists chunks spans,
    Zoned.splitDateRange Zoned.utc 11 "2024-01-01" "2024-01-10" 3 = Some (Ok chunks) /\
    chunks <> [] /\
    Forall2 (fun c sp => SyncProcessor.chunkDays c = Some sp) chunks spans /\
    Forall (fun sp => fst sp <= snd sp) spans /\
    SyncProcessor.contiguous spans /\
    SyncProcessor.nonOverlapping spans /\
    SyncProcessor.covers spans (JsDate.Day 1704067200000) (JsDate.Day 1704844800000).
Proof.
  apply (splitDateRange_tiles_in_fixed_zone 0 "2024-01-01" "2024-01-10"
           1704067200000 1704844800000 3 11).
  - reflexivity.
  - reflexivity.
  - lia.
  - vm_compute. split; discriminate.
  - vm_compute. lia.
Defined.

(** In a zone without daylight saving, with a chunk size between 1 and 90
    million days, every chunk returned spans at most that many calendar
    days, both ends included, and a start date after the end date gives
    the empty list. *)
Theorem splitDateRange_chunks_bounded_in_fixed_zone
    (offset : Z) (startDate endDate : string) (start end_ m : Z) (fuel : nat) :
  JsDate.parseDate startDate = Some start ->
  JsDate.parseDate endDate = Some end_ ->
  1 <= m <= Zoned.maxChunkDays ->
  (Z.to_nat (JsDate.Day end_ - JsDate.Day start) + 2 <= fuel)%nat ->
  exists chunks spans,
    Zoned.splitDateRange (Zoned.fixed offset) fuel startDate endDate m
      = Some (Ok chunks) /\
    Forall2 (fun c sp => SyncProcessor.chunkDays c = Some sp) chunks spans /\
    Forall (fun sp => 1 <= snd sp - fst sp + 1 <= m) spans /\
    (end_ < start -> chunks = []).
Proof.
  intros Hs He Hm Hf. rewrite splitDateRange_fixed by exact Hm.
  destruct (splitDateRange_spans _ _ _ _ _ _ Hs He (proj1 Hm) Hf)
    as (Hr & Hd & Ht & Hinv).
  rewrite Hr. eexists _, _. split; [reflexivity|]. split; [exact Hd|]. split.
  - destruct (Z_le_gt_dec start end_) as [L|G].
    + eapply Forall_impl; [exact (tiling_within _ _ _ _ (Ht L))|]. simpl; intros; lia.
    + rewrite Hinv by lia. constructor.
  - intros G. now rewrite Hinv.
Qed.

Lemma splitDateRange_chunks_bounded_in_fixed_zone_witness :
  exists chunks spans,
    Zoned.splitDateRange Zoned.utc 11 "2024-01-01" "2024-01-10" 3 = Some (Ok chunks) /\
    length chunks = 4%nat /\
    Forall2 (fun c sp => SyncProcessor.chunkDays c = Some sp) chunks spans /\
    Forall (fun sp => 1 <= snd sp - fst sp + 1 <= 3) spans.
Proof.
  destruct (splitDateRange_chunks_bounded_in_fixed_zone 0 "2024-01-01" "2024-01-10"
              1704067200000 1704844800000 3 11) as (chunks & spans & E & F & B & _).
  - reflexivity.
  - reflexivity.
  - vm_compute. split; discriminate.
  - vm_compute. lia.
  - exists chunks, spans. split; [exact E|]. split; [|split; assumption].
    vm_compute in E. injection E as <-. reflexivity.
Defined.

(** ** More on the REST handlers *)

Section RoutesMore.
Import SyncRoutes.
Variable isUuid : string -> bool.

Lemma find_Forall_none {A} (f : A -> bool) (l : list A) :
  Forall (fun x => f x = false) l -> List.find f l = None.
Proof. induction 1 as [|x l Hx Hl IH]; cbn; [reflexivity|now rewrite Hx]. Qed.

Lemma existsb_Forall_false {A} (f : A -> bool) (l : list A) :
  Forall (fun x => f x = false) l -> existsb f l = false.
Proof. induction 1 as [|x l Hx Hl IH]; cbn; [reflexivity|now rewrite Hx]. Qed.

Lemma parseDate_isDateOnly s t : JsDate.parseDate s = Some t -> isDateOnly s = true.
Proof.
  unfold JsDate.parseDate, isDateOnly.
  repeat (destruct s as [|? s]; try discriminate).
  destruct (Ascii.eqb _ "-"%char) eqn:E1; [|discriminate].
  destruct (Ascii.eqb a6 "-"%char) eqn:E2; [|discriminate]. cbn [andb].
  unfold JsDate.num2, isDigit.
  repeat (match goal with |- context [JsDate.digitVal ?c] =>
            destruct (JsDate.digitVal c); cbn [mbind option_bind];
              [|discriminate] end).
  reflexivity.
Qed.

(** The run of the handler up to the queue, for a request that passes
    every check. *)
Lemma manualSync_try_stores now req w a c from to :
  isUuid (accountId (body req)) = true ->
  adAccounts w !! accountId (body req) = Some a ->
  AdAccount.organizationId a = organizationId req ->
  AdAccount.isEnabled a = true ->
  connections w !! AdAccount.connectionId a = Some c ->
  Connection.status c = ConnectionStatus.ACTIVE ->
  Forall (fun j => isRecentJob now (accountId (body req)) j = false) (syncJobs w) ->
  JsDate.parseDate (dateFrom (body req)) = Some from ->
  JsDate.parseDate (dateTo (body req)) = Some to ->
  manualSync_try isUuid now req w =
    (Queue.addSyncJob
       (SyncJobData.mk manual_sync (accountId (body req))
          (AdAccount.connectionId a) (AdAccount.externalId a)
          (dateFrom (body req)) (dateTo (body req)) (AdAccount.provider a)
          (organizationId req) (Some (userId req)))
       None (Some 1) (Some (nextId w)) ;;
     ret (mkResponse 201
            (QueuedJson (nextId w) SyncJobStatus.PENDING from to)))
      (with_adAccounts
         (<[accountId (body req) :=
              AdAccount.set_syncStatus SyncStatus.SYNCING a]> (adAccounts w))
         (with_syncJobs
            (syncJobs w ++
             [SyncJob.mk (nextId w) (accountId (body req)) "MANUAL_SYNC"
                SyncJobStatus.PENDING from to now None None None None])
            (with_nextId (nextId w + 1)%N w))).
Proof.
  intros Hu Ha Ho He Hc Hs Hr Hf Ht.
  unfold manualSync_try, manualSyncSchema_parse.
  rewrite Hu, (parseDate_isDateOnly _ _ Hf), (parseDate_isDateOnly _ _ Ht).
  cbn [andb]. unfold bind at 1, ret at 1.
  unfold bind at 1, findAccount, gets. rewrite Ha, Ho, String.eqb_refl, He.
  cbn [andb]. rewrite Hc. unfold isActive. rewrite Hs. cbn [negb].
  unfold bind at 1, Prisma.syncJob_findFirst, gets.
  rewrite (find_Forall_none _ _ Hr).
  unfold bind at 1, Prisma.dateArg. rewrite Hf. unfold ret at 1.
  unfold bind at 1. rewrite Ht. unfold ret at 1.
  unfold bind at 1, Prisma.syncJob_create, bind at 1, Prisma.newId.
  unfold bind at 1, modify, ret at 1.
  unfold bind at 1, Prisma.adAccount_update. cbn [adAccounts with_syncJobs with_nextId].
  rewrite Ha. reflexivity.
Qed.

End RoutesMore.

(** The handler of POST /api/sync/manual never throws: it answers with
    201, 400, 404 or 500; and an answer of 400 or 404 comes with nothing
    written (the queue client's errors being no validation errors). *)
Theorem manualSync_always_answers
    (isUuid : string -> bool) (now : Z) (req : SyncRoutes.Request) (w : World) :
  (forall m, queueError w <> Some (ZodError m)) ->
  let out := SyncRoutes.manualSync isUuid now req w in
  exists r,
    fst out = Ok r /\
    (SyncRoutes.status r = 201 \/ SyncRoutes.status r = 400 \/
     SyncRoutes.status r = 404 \/ SyncRoutes.status r = 500) /\
    (SyncRoutes.status r = 400 \/ SyncRoutes.status r = 404 -> snd out = w).
Proof.
  intros Hz out. subst out.
  assert (exists st js w',
            SyncRoutes.manualSync isUuid now req w
              = (Ok (SyncRoutes.mkResponse st js), w') /\
            (st = 201 \/ st = 400 \/ st = 404 \/ st = 500) /\
            (st = 400 \/ st = 404 -> w' = w)) as (st & js & w' & E & H1 & H2);
    [|rewrite E; eexists; split; [reflexivity|split; assumption]].
  assert (R : forall st js w',
            (st = 201 \/ st = 400 \/ st = 404 \/ st = 500) ->
            (st = 400 \/ st = 404 -> w' = w) ->
            exists st0 js0 w0,
              (Ok (SyncRoutes.mkResponse st js), w')
                = (Ok (SyncRoutes.mkResponse st0 js0), w0) /\
              (st0 = 201 \/ st0 = 400 \/ st0 = 404 \/ st0 = 500) /\
              (st0 = 400 \/ st0 = 404 -> w0 = w)).
  { intros st js w' H1 H2. exists st, js, w'. auto. }
  unfold SyncRoutes.manualSync, tryCatch, SyncRoutes.manualSync_try,
    SyncRoutes.manualSyncSchema_parse.
  unfold bind at 1.
  destruct (isUuid _ && SyncRoutes.isDateOnly _ && SyncRoutes.isDateOnly _);
    cbn [throw ret SyncRoutes.manualSync_catch]; [|apply R; auto].
  unfold bind at 1, SyncRoutes.findAccount, gets.
  destruct (adAccounts w !! _) as [a|] eqn:Ha; [|apply R; auto].
  destruct (String.eqb _ _ && AdAccount.isEnabled a); [|apply R; auto].
  destruct (connections w !! AdAccount.connectionId a) as [c|];
    cbn [throw SyncRoutes.manualSync_catch ret]; [|apply R; auto; lia].
  destruct (negb (SyncRoutes.isActive c)); cbn [ret]; [apply R; auto|].
  unfold bind at 1, Prisma.syncJob_findFirst, gets.
  destruct (find _ (syncJobs w)); cbn [ret]; [apply R; auto|].
  unfold bind at 1, Prisma.dateArg.
  destruct (JsDate.parseDate (SyncRoutes.dateFrom _));
    cbn [throw ret SyncRoutes.manualSync_catch]; [|apply R; auto; lia].
  unfold bind at 1.
  destruct (JsDate.parseDate (SyncRoutes.dateTo _));
    cbn [throw ret SyncRoutes.manualSync_catch]; [|apply R; auto; lia].
  unfold bind at 1, Prisma.syncJob_create, bind at 1, Prisma.newId.
  unfold bind at 1, modify, ret at 1.
  unfold bind at 1, Prisma.adAccount_update.
  cbn [adAccounts with_syncJobs with_nextId]. rewrite Ha.
  unfold bind at 1, Queue.addSyncJob. wsimp.
  destruct (queueError w) as [[m|m|v]|] eqn:Hq;
    cbn [SyncRoutes.manualSync_catch ret]; try (apply R; auto; lia).
  - now destruct (Hz m).
  - cbn [SyncJob.id].
    destruct (existsb _ (syncQueue w)); cbn [ret]; apply R; auto; lia.
Qed.

Lemma manualSync_always_answers_witness :
  exists r,
    fst (SyncRoutes.manualSync Scenario.isUuid Scenario.tenMinutesLater
           Scenario.request Cases.queueDownWorld) = Ok r /\
    SyncRoutes.status r = 500.
Proof.
  destruct (manualSync_always_answers Scenario.isUuid Scenario.tenMinutesLater
              Scenario.request Cases.queueDownWorld) as (r & E & _ & _).
  - intros m. discriminate.
  - exists r. split; [exact E|]. vm_compute in E. now injection E as <-.
Defined.

(** A request that passes every check, with the queue up: the answer is
    201 with the new job's id; one PENDING job row with the parsed window
    and the request time is added; the account is stored as SYNCING; and
    one task is queued under the job row's id, with priority 1 and the
    two date strings of the request. *)
Theorem manualSync_accepts
    (isUuid : string -> bool) (now : Z) (req : SyncRoutes.Request) (w : World)
    (a : AdAccount.t) (c : Connection.t) (from to : Z) :
  let b := SyncRoutes.body req in
  let acct := SyncRoutes.accountId b in
  isUuid acct = true ->
  adAccounts w !! acct = Some a ->
  AdAccount.organizationId a = SyncRoutes.organizationId req ->
  AdAccount.isEnabled a = true ->
  connections w !! AdAccount.connectionId a = Some c ->
  Connection.status c = ConnectionStatus.ACTIVE ->
  Forall (fun j => SyncRoutes.isRecentJob now acct j = false) (syncJobs w) ->
  JsDate.parseDate (SyncRoutes.dateFrom b) = Some from ->
  JsDate.parseDate (SyncRoutes.dateTo b) = Some to ->
  queueError w = None ->
  Forall (fun q => QueueJob.id q <> nextId w) (syncQueue w) ->
  let out := SyncRoutes.manualSync isUuid now req w in
  fst out = Ok (SyncRoutes.mkResponse 201
                  (SyncRoutes.QueuedJson (nextId w) SyncJobStatus.PENDING from to)) /\
  syncJobs (snd out) =
    syncJobs w ++ [SyncJob.mk (nextId w) acct "MANUAL_SYNC" SyncJobStatus.PENDING
                     from to now None None None None] /\
  adAccounts (snd out) =
    <[acct := AdAccount.set_syncStatus SyncStatus.SYNCING a]> (adAccounts w) /\
  syncQueue (snd out) =
    syncQueue w ++
    [QueueJob.mk (nextId w)
       (SyncJobData.mk manual_sync acct (AdAccount.connectionId a)
          (AdAccount.externalId a) (SyncRoutes.dateFrom b) (SyncRoutes.dateTo b)
          (AdAccount.provider a) (SyncRoutes.organizationId req)
          (Some (SyncRoutes.userId req)))
       (Some 1) None].
Proof.
  intros b acct Hu Ha Ho He Hc Hs Hr Hf Ht Hq Hfresh out. subst out b acct.
  unfold SyncRoutes.manualSync, tryCatch.
  rewrite (manualSync_try_stores isUuid now req w a c from to) by assumption.
  unfold bind, Queue.addSyncJob. cbn [queueError with_adAccounts with_syncJobs
    with_nextId]. rewrite Hq. cbn [syncQueue].
  rewrite existsb_Forall_false.
  - cbn. repeat split.
  - eapply Forall_impl; [exact Hfresh|]. cbn. intros q Hne.
    now apply N.eqb_neq.
Qed.

Lemma manualSync_accepts_witness :
  let out := SyncRoutes.manualSync Scenario.isUuid Scenario.tenMinutesLater
               Scenario.request Scenario.staleWorld in
  fst out = Ok (SyncRoutes.mkResponse 201
                  (SyncRoutes.QueuedJson 1 SyncJobStatus.PENDING
                     Scenario.jan01 Scenario.jan07)) /\
  length (syncJobs (snd out)) = 2%nat /\
  length (syncQueue (snd out)) = 1%nat.
Proof.
  destruct (manualSync_accepts Scenario.isUuid Scenario.tenMinutesLater
              Scenario.request Scenario.staleWorld Scenario.account
              Scenario.connection Scenario.jan01 Scenario.jan07)
    as (H1 & H2 & _ & H4).
  - reflexivity.
  - reflexivity.
  - reflexivity.
  - reflexivity.
  - reflexivity.
  - reflexivity.
  - repeat constructor.
  - reflexivity.
  - reflexivity.
  - reflexivity.
  - constructor.
  - split; [exact H1|]. split; [now rewrite H2|now rewrite H4].
Defined.

(** The same request with the queue down: the answer is 500, but the
    PENDING job row and the SYNCING status written before stay, with no
    task queued; and for the next five minutes the same request is
    turned down because of that row. *)
Theorem manualSync_queue_down_leaves_job
    (isUuid : string -> bool) (now : Z) (req : SyncRoutes.Request) (w : World)
    (a : AdAccount.t) (c : Connection.t) (from to : Z) (message : string) :
  let b := SyncRoutes.body req in
  let acct := SyncRoutes.accountId b in
  isUuid acct = true ->
  adAccounts w !! acct = Some a ->
  AdAccount.organizationId a = SyncRoutes.organizationId req ->
  AdAccount.isEnabled a = true ->
  connections w !! AdAccount.connectionId a = Some c ->
  Connection.status c = ConnectionStatus.ACTIVE ->
  Forall (fun j => SyncRoutes.isRecentJob now acct j = false) (syncJobs w) ->
  JsDate.parseDate (SyncRoutes.dateFrom b) = Some from ->
  JsDate.parseDate (SyncRoutes.dateTo b) = Some to ->
  queueError w = Some (ErrorObject message) ->
  let out := SyncRoutes.manualSync isUuid now req w in
  fst out = Ok (SyncRoutes.mkResponse 500
                  (SyncRoutes.ErrorJson "Failed to trigger sync" None)) /\
  syncJobs (snd out) =
    syncJobs w ++ [SyncJob.mk (nextId w) acct "MANUAL_SYNC" SyncJobStatus.PENDING
                     from to now None None None None] /\
  adAccounts (snd out) =
    <[acct := AdAccount.set_syncStatus SyncStatus.SYNCING a]> (adAccounts w) /\
  syncQueue (snd out) = syncQueue w /\
  forall now', now' - SyncRoutes.recentWindow <= now ->
    SyncRoutes.rejectedWithoutJob (snd out)
      (SyncRoutes.manualSync isUuid now' req (snd out)).
Proof.
  intros b acct Hu Ha Ho He Hc Hs Hr Hf Ht Hq out. subst b acct.
  assert (out = (Ok (SyncRoutes.mkResponse 500
                      (SyncRoutes.ErrorJson "Failed to trigger sync" None)),
                 with_adAccounts
                   (<[SyncRoutes.accountId (SyncRoutes.body req) :=
                        AdAccount.set_syncStatus SyncStatus.SYNCING a]>
                      (adAccounts w))
                   (with_syncJobs
                      (syncJobs w ++
                       [SyncJob.mk (nextId w)
                          (SyncRoutes.accountId (SyncRoutes.body req))
                          "MANUAL_SYNC" SyncJobStatus.PENDING from to now
                          None None None None])
                      (with_nextId (nextId w + 1)%N w)))) as E.
  { subst out. unfold SyncRoutes.manualSync, tryCatch.
    rewrite (manualSync_try_stores isUuid now req w a c from to) by assumption.
    unfold bind, Queue.addSyncJob. wsimp. rewrite Hq. reflexivity. }
  rewrite E. cbn [fst snd]. repeat (split; [reflexivity|]).
  intros now' Hnow.
  eapply (manualSync_recent_job_rejected isUuid now' req).
  - wsimp. apply in_or_app. right. left. reflexivity.
  - unfold SyncRoutes.isRecentJob. cbn [SyncJob.adAccountId SyncJob.createdAt].
    rewrite String.eqb_refl. cbn [andb].
    apply andb_true_iff. split; [reflexivity|apply Z.leb_le; exact Hnow].
Qed.

Lemma manualSync_queue_down_leaves_job_witness :
  let out := SyncRoutes.manualSync Scenario.isUuid Scenario.tenMinutesLater
               Scenario.request Cases.queueDownWorld in
  length (syncJobs (snd out)) = 1%nat /\
  syncQueue (snd out) = [] /\
  SyncRoutes.rejectedWithoutJob (snd out)
    (SyncRoutes.manualSync Scenario.isUuid (Scenario.tenMinutesLater + 60000)
       Scenario.request (snd out)).
Proof.
  destruct (manualSync_queue_down_leaves_job Scenario.isUuid
              Scenario.tenMinutesLater Scenario.request Cases.queueDownWorld
              Scenario.account Scenario.connection Scenario.jan01 Scenario.jan07
              "Connection is closed.")
    as (_ & H2 & _ & H4 & H5).
  - reflexivity.
  - reflexivity.
  - reflexivity.
  - reflexivity.
  - reflexivity.
  - reflexivity.
  - constructor.
  - reflexivity.
  - reflexivity.
  - reflexivity.
  - split; [now rewrite H2|]. split; [exact H4|].
    apply H5. vm_compute. discriminate.
Defined.

(** ** From the request to the worker *)

Section PipelineFacts.
Import SyncRoutes.
Variable isUuid : string -> bool.

Lemma manualSync_run now req w a c from to :
  isUuid (accountId (body req)) = true ->
  adAccounts w !! accountId (body req) = Some a ->
  AdAccount.organizationId a = organizationId req ->
  AdAccount.isEnabled a = true ->
  connections w !! AdAccount.connectionId a = Some c ->
  Connection.status c = ConnectionStatus.ACTIVE ->
  Forall (fun j => isRecentJob now (accountId (body req)) j = false) (syncJobs w) ->
  JsDate.parseDate (dateFrom (body req)) = Some from ->
  JsDate.parseDate (dateTo (body req)) = Some to ->
  queueError w = None ->
  Forall (fun q => QueueJob.id q <> nextId w) (syncQueue w) ->
  snd (manualSync isUuid now req w) =
    with_syncQueue
      (syncQueue w ++
       [QueueJob.mk (nextId w)
          (SyncJobData.mk manual_sync (accountId (body req))
             (AdAccount.connectionId a) (AdAccount.externalId a)
             (dateFrom (body req)) (dateTo (body req)) (AdAccount.provider a)
             (organizationId req) (Some (userId req)))
          (Some 1) None])
      (with_adAccounts
         (<[accountId (body req) :=
              AdAccount.set_syncStatus SyncStatus.SYNCING a]> (adAccounts w))
         (with_syncJobs
            (syncJobs w ++
             [SyncJob.mk (nextId w) (accountId (body req)) "MANUAL_SYNC"
                SyncJobStatus.PENDING from to now None None None None])
            (with_nextId (nextId w + 1)%N w))).
Proof.
  intros Hu Ha Ho He Hc Hs Hr Hf Ht Hq Hfresh.
  unfold manualSync, tryCatch.
  rewrite (manualSync_try_stores isUuid now req w a c from to) by assumption.
  unfold bind, Queue.addSyncJob. wsimp. rewrite Hq.
  rewrite existsb_Forall_false; [reflexivity|].
  eapply Forall_impl; [exact Hfresh|]. cbn. intros q Hne. now apply N.eqb_neq.
Qed.

End PipelineFacts.

(** The job row that an accepted manual-sync request creates is the row
    the worker completes: when [processSyncJob] then returns on the task
    the request queued (its fetches writing no job row), that row is
    stored as COMPLETED with the start and end times and the result's row
    count and duration. *)
Theorem manual_sync_job_completed_by_worker
    (isUuid : string -> bool) (now : Z) (req : SyncRoutes.Request) (w : World)
    (a : AdAccount.t) (c : Connection.t) (from to : Z)
    (fetchCampaignPerformance fetchAdGroupPerformance :
       string -> string -> string -> string -> M World (list GoogleAds.Metrics.t))
    (startTime endTime : Z) (r : SyncProcessor.SyncResult) :
  let b := SyncRoutes.body req in
  let acct := SyncRoutes.accountId b in
  isUuid acct = true ->
  adAccounts w !! acct = Some a ->
  AdAccount.organizationId a = SyncRoutes.organizationId req ->
  AdAccount.isEnabled a = true ->
  connections w !! AdAccount.connectionId a = Some c ->
  Connection.status c = ConnectionStatus.ACTIVE ->
  Forall (fun j => SyncRoutes.isRecentJob now acct j = false) (syncJobs w) ->
  JsDate.parseDate (SyncRoutes.dateFrom b) = Some from ->
  JsDate.parseDate (SyncRoutes.dateTo b) = Some to ->
  queueError w = None ->
  Forall (fun q => QueueJob.id q <> nextId w) (syncQueue w) ->
  (forall a b c d w',
     syncJobs (snd (fetchCampaignPerformance a b c d w')) = syncJobs w') ->
  (forall a b c d w',
     syncJobs (snd (fetchAdGroupPerformance a b c d w')) = syncJobs w') ->
  let w1 := snd (SyncRoutes.manualSync isUuid now req w) in
  exists task,
    syncQueue w1 = syncQueue w ++ [task] /\
    QueueJob.id task = nextId w /\
    (fst (SyncProcessor.processSyncJob fetchCampaignPerformance
            fetchAdGroupPerformance task startTime endTime w1) = Ok r ->
     In (SyncJob.mk (nextId w) acct "MANUAL_SYNC" SyncJobStatus.COMPLETED from to
           now (Some startTime) (Some endTime) None
           (Some (SyncProcessor.rowsProcessed r, SyncProcessor.duration r)))
        (syncJobs (snd (SyncProcessor.processSyncJob fetchCampaignPerformance
                          fetchAdGroupPerformance task startTime endTime w1)))).
Proof.
  intros b acct Hu Ha Ho He Hc Hs Hr Hf Ht Hq Hfresh HC HA w1. subst b acct.
  assert (E := manualSync_run isUuid now req w a c from to
                 Hu Ha Ho He Hc Hs Hr Hf Ht Hq Hfresh).
  fold w1 in E.
  eexists (QueueJob.mk (nextId w) _ (Some 1) None).
  split; [rewrite E; reflexivity|]. split; [reflexivity|].
  intros Hok.
  destruct (processSyncJob_jobs_after_return _ _ _ _ _ _ _ HC HA Hok)
    as (from' & to' & Hfrom' & Hto' & Hjobs).
  cbn [QueueJob.data SyncJobData.dateFrom SyncJobData.dateTo] in Hfrom', Hto'.
  assert (from' = from) as -> by congruence.
  assert (to' = to) as -> by congruence.
  rewrite Hjobs, E. wsimp. rewrite map_app. apply in_or_app. right. left.
  match goal with |- context [SyncProcessor.thisJob ?j ?st from to ?row] =>
    assert (SyncProcessor.thisJob j st from to row = true) as ->
      by (apply thisJob_spec; repeat split)
  end.
  reflexivity.
Qed.

Lemma manual_sync_job_completed_by_worker_witness :
  let w1 := snd (SyncRoutes.manualSync Scenario.isUuid Scenario.tenMinutesLater
                   Scenario.request Cases.quietWorld) in
  exists task,
    syncQueue w1 = [task] /\
    In (SyncJob.mk 0 Scenario.accountId "MANUAL_SYNC" SyncJobStatus.COMPLETED
          Scenario.jan01 Scenario.jan07 Scenario.tenMinutesLater
          (Some 1704715900000) (Some 1704715901500) None (Some (1%nat, 1500)))
       (syncJobs (snd (SyncProcessor.processSyncJob Scenario.fetchCampaigns
                         Scenario.fetchNoAdGroups task 1704715900000
                         1704715901500 w1))).
Proof.
  destruct (manual_sync_job_completed_by_worker Scenario.isUuid
              Scenario.tenMinutesLater Scenario.request Cases.quietWorld
              Scenario.account Scenario.connection Scenario.jan01 Scenario.jan07
              Scenario.fetchCampaigns Scenario.fetchNoAdGroups
              1704715900000 1704715901500
              (SyncProcessor.mkSyncResult 1 ("2024-01-01", "2024-01-07") 1500))
    as (task & Hqueue & Hid & Hrun).
  - reflexivity.
  - reflexivity.
  - reflexivity.
  - reflexivity.
  - reflexivity.
  - reflexivity.
  - constructor.
  - reflexivity.
  - reflexivity.
  - reflexivity.
  - constructor.
  - intros a b c d w'. reflexivity.
  - intros a b c d w'. reflexivity.
  - exists task. split; [exact Hqueue|].
    apply Hrun. injection Hqueue as <-. vm_compute. reflexivity.
Defined.

(** ** Cancelling a job, removing an account, scheduling *)

(** DELETE /api/sync/jobs/:id either finds a PENDING or RUNNING job with
    that id on an account of the caller's organization, answers 200 and
    stores that job as CANCELLED with the time, changing no other row and
    nothing outside the job table (the queued task stays in the queue);
    or finds none, answers 404 and changes nothing. *)
Theorem cancelJob_outcome (now : Z) (organizationId : string) (id : N) (w : World) :
  let out := AdminRoutes.cancelJob now organizationId id w in
  (exists j,
     In j (syncJobs w) /\
     AdminRoutes.cancellable w id organizationId j = true /\
     fst out = Ok (AdminRoutes.mkResponse 200
                     (AdminRoutes.SuccessJson (Some "Job cancelled"))) /\
     syncJobs (snd out) =
       map (fun j' => if N.eqb (SyncJob.id j') id
                      then AdminRoutes.cancelled now j' else j')
           (syncJobs w) /\
     with_syncJobs (syncJobs w) (snd out) = w) \/
  (Forall (fun j => AdminRoutes.cancellable w id organizationId j = false)
          (syncJobs w) /\
   out = (Ok (AdminRoutes.mkResponse 404
                (AdminRoutes.ErrorJson "Job not found or already completed")), w)).
Proof.
  intros out.
  destruct (find (AdminRoutes.cancellable w id organizationId) (syncJobs w))
    as [j|] eqn:F.
  - left. pose proof F as F'. apply find_some in F' as [Hin Hc]. exists j.
    split; [exact Hin|]. split; [exact Hc|].
    assert (SyncJob.id j = id) as Hid.
    { unfold AdminRoutes.cancellable in Hc.
      apply andb_true_iff in Hc as [Hc _]. apply andb_true_iff in Hc as [Hc _].
      now apply N.eqb_eq. }
    assert (out = (Ok (AdminRoutes.mkResponse 200
                         (AdminRoutes.SuccessJson (Some "Job cancelled"))),
                   with_syncJobs
                     (map (fun j' => if N.eqb (SyncJob.id j') id
                                     then AdminRoutes.cancelled now j' else j')
                        (syncJobs w)) w)) as E.
    { subst out. unfold AdminRoutes.cancelJob, tryCatch, bind at 1,
        Prisma.syncJob_findFirst, gets. rewrite F.
      unfold bind, AdminRoutes.syncJob_update. rewrite Hid.
      assert (existsb (fun j0 => N.eqb (SyncJob.id j0) id) (syncJobs w) = true)
        as ->; [|reflexivity].
      apply existsb_exists. exists j. split; [exact Hin|now apply N.eqb_eq]. }
    rewrite E. cbn [fst snd]. repeat split. now destruct w.
  - right. split.
    + apply Forall_forall. intros j Hin.
      apply list_elem_of_In in Hin. exact (find_none _ _ F j Hin).
    + subst out. unfold AdminRoutes.cancelJob, tryCatch, bind,
        Prisma.syncJob_findFirst, gets. now rewrite F.
Qed.

(** DELETE /api/accounts/:id by the account's organization disables the
    account and removes nothing: the row stays, with [isEnabled] false,
    and every other table, the job rows and the queue are untouched.
    A manual sync then asked for that account is answered 404 and writes
    nothing. *)
Theorem deleted_account_rejects_manual_sync
    (isUuid : string -> bool) (now : Z) (req : SyncRoutes.Request) (w : World)
    (a : AdAccount.t) :
  let b := SyncRoutes.body req in
  let acct := SyncRoutes.accountId b in
  adAccounts w !! acct = Some a ->
  AdAccount.organizationId a = SyncRoutes.organizationId req ->
  isUuid acct = true ->
  SyncRoutes.isDateOnly (SyncRoutes.dateFrom b) = true ->
  SyncRoutes.isDateOnly (SyncRoutes.dateTo b) = true ->
  let out := AdminRoutes.deleteAccount (SyncRoutes.organizationId req) acct w in
  out = (Ok (AdminRoutes.mkResponse 200 (AdminRoutes.SuccessJson None)),
         with_adAccounts
           (<[acct := AdminRoutes.set_isEnabled false a]> (adAccounts w)) w) /\
  SyncRoutes.manualSync isUuid now req (snd out) =
    (Ok (SyncRoutes.mkResponse 404 (SyncRoutes.ErrorJson "Account not found" None)),
     snd out).
Proof.
  intros b acct Ha Ho Hu Hf Ht out. subst b acct.
  assert (out = (Ok (AdminRoutes.mkResponse 200 (AdminRoutes.SuccessJson None)),
                 with_adAccounts
                   (<[SyncRoutes.accountId (SyncRoutes.body req) :=
                        AdminRoutes.set_isEnabled false a]> (adAccounts w)) w)) as E.
  { subst out. unfold AdminRoutes.deleteAccount, tryCatch, bind at 1, gets.
    rewrite Ha, Ho, String.eqb_refl.
    unfold bind, Prisma.adAccount_update. now rewrite Ha. }
  split; [exact E|]. rewrite E. cbn [snd].
  unfold SyncRoutes.manualSync, tryCatch, SyncRoutes.manualSync_try,
    SyncRoutes.manualSyncSchema_parse.
  rewrite Hu, Hf, Ht. cbn [andb]. unfold bind at 1, ret at 1.
  unfold bind at 1, SyncRoutes.findAccount, gets. wsimp.
  rewrite lookup_insert_eq. cbn [AdminRoutes.set_isEnabled AdAccount.isEnabled
    AdAccount.organizationId]. rewrite andb_false_r. reflexivity.
Qed.

Lemma deleted_account_rejects_manual_sync_witness :
  let out := AdminRoutes.deleteAccount Scenario.organizationId Scenario.accountId
               Cases.quietWorld in
  fst out = Ok (AdminRoutes.mkResponse 200 (AdminRoutes.SuccessJson None)) /\
  SyncRoutes.manualSync Scenario.isUuid Scenario.tenMinutesLater Scenario.request
    (snd out) =
    (Ok (SyncRoutes.mkResponse 404 (SyncRoutes.ErrorJson "Account not found" None)),
     snd out).
Proof.
  destruct (deleted_account_rejects_manual_sync Scenario.isUuid
              Scenario.tenMinutesLater Scenario.request Cases.quietWorld
              Scenario.account) as (H1 & H2).
  - reflexivity.
  - reflexivity.
  - reflexivity.
  - reflexivity.
  - reflexivity.
  - split; [exact (f_equal fst H1)|exact H2].
Defined.

Section ScheduleFacts.
Import Schedule.

Lemma Day_shift t k : JsDate.Day (t + k * JsDate.msPerDay) = JsDate.Day t + k.
Proof.
  unfold JsDate.Day, JsDate.msPerDay. now rewrite Z.div_add by lia.
Qed.

Lemma year_in_range t :
  0 <= JsDate.YearFromDay (JsDate.Day t) <= 9999 ->
  - Zoned.maxTime <= t <= Zoned.maxTime.
Proof.
  intros H. pose proof (YearFromDay_spec (JsDate.Day t)) as [H1 H2].
  pose proof (DayFromYear_mono 0 (JsDate.YearFromDay (JsDate.Day t)) ltac:(lia)).
  pose proof (DayFromYear_mono (JsDate.YearFromDay (JsDate.Day t) + 1) 10000
                ltac:(lia)).
  assert (JsDate.DayFromYear 0 = -719528) as E0 by (vm_compute; reflexivity).
  assert (JsDate.DayFromYear 10000 = 2932897) as E1 by (vm_compute; reflexivity).
  unfold JsDate.Day, JsDate.msPerDay, Zoned.maxTime in *.
  pose proof (Z.div_mod t 86400000 ltac:(lia)).
  pose proof (Z.mod_pos_bound t 86400000 ltac:(lia)). lia.
Qed.

Lemma intraday_loop_up todayStr : forall (l : list (string * AdAccount.t)) w,
  queueError w = None ->
  exists w',
    forEach l (fun kv =>
      tryCatch
        (Queue.addSyncJob (intradayJob todayStr kv) None None None)
        (fun error => consoleLog "Failed to queue intraday sync for account"))
      w = (Ok tt, w') /\
    syncJobs w' = syncJobs w /\
    adAccounts w' = adAccounts w /\
    map QueueJob.data (syncQueue w') =
      map QueueJob.data (syncQueue w) ++ map (intradayJob todayStr) l.
Proof.
  induction l as [|kv l IH]; intros w Hq.
  - exists w. cbn. rewrite app_nil_r. repeat split.
  - cbn [forEach].
    set (w1 := with_syncQueue
                 (syncQueue w ++
                  [QueueJob.mk (nextId w) (intradayJob todayStr kv) None None])
                 (with_nextId (nextId w + 1)%N w)).
    rewrite (bind_run _ _ _ tt w1)
      by (unfold tryCatch, Queue.addSyncJob; now rewrite Hq).
    destruct (IH w1 Hq) as (w' & E & I3 & I4 & I6).
    exists w'. split; [exact E|]. split; [exact I3|]. split; [exact I4|].
    rewrite I6. subst w1. wsimp. rewrite map_app. cbn [map QueueJob.data].
    now rewrite <- app_assoc.
Qed.

Lemma intraday_loop_down todayStr e : forall (l : list (string * AdAccount.t)) w,
  queueError w = Some e ->
  exists w',
    forEach l (fun kv =>
      tryCatch
        (Queue.addSyncJob (intradayJob todayStr kv) None None None)
        (fun error => consoleLog "Failed to queue intraday sync for account"))
      w = (Ok tt, w') /\
    with_console (console w) w' = w /\
    length (console w') = (length (console w) + length l)%nat.
Proof.
  induction l as [|kv l IH]; intros w Hq.
  - exists w. cbn. rewrite Nat.add_0_r. repeat split. now destruct w.
  - cbn [forEach].
    set (w1 := with_console
                 (console w ++ ["Failed to queue intraday sync for account"]) w).
    rewrite (bind_run _ _ _ tt w1)
      by (unfold tryCatch, Queue.addSyncJob; now rewrite Hq).
    destruct (IH w1 Hq) as (w' & E & I2 & I3).
    exists w'. split; [exact E|]. split.
    + subst w1. destruct w, w'. cbn in *. now injection I2 as -> -> -> -> -> -> -> -> -> -> -> ->.
    + rewrite I3. subst w1. wsimp. rewrite length_app. cbn [length]. lia.
Qed.

End ScheduleFacts.

(** In a zone without daylight saving and with the queue up,
    [scheduleInitialSync] queues exactly one task, of type
    backfill_range, whose two date strings are the day [daysBack] days
    before today and today (for days in the years 0 to 9999): a window of
    [daysBack + 1] days in a single task, whatever its length.  It writes
    no job row. *)
Theorem scheduleInitialSync_one_task
    (offset now : Z) (id : string) (account : AdAccount.t) (daysBack : Z)
    (w : World) :
  queueError w = None ->
  0 <= JsDate.YearFromDay (JsDate.Day now - daysBack) <= 9999 ->
  0 <= JsDate.YearFromDay (JsDate.Day now) <= 9999 ->
  let out := Schedule.scheduleInitialSync (Zoned.fixed offset) now id account
               daysBack w in
  fst out = Ok tt /\
  syncJobs (snd out) = syncJobs w /\
  exists task,
    syncQueue (snd out) = syncQueue w ++ [task] /\
    SyncJobData.type (QueueJob.data task) = backfill_range /\
    SyncJobData.adAccountId (QueueJob.data task) = id /\
    JsDate.parseDate (SyncJobData.dateFrom (QueueJob.data task))
      = Some ((JsDate.Day now - daysBack) * JsDate.msPerDay) /\
    JsDate.parseDate (SyncJobData.dateTo (QueueJob.data task))
      = Some (JsDate.Day now * JsDate.msPerDay).
Proof.
  intros Hq Hy1 Hy2 out. subst out.
  assert (JsDate.Day (now + - daysBack * JsDate.msPerDay) = JsDate.Day now - daysBack)
    as HD by (rewrite Day_shift; lia).
  unfold Schedule.scheduleInitialSync.
  rewrite addDays_fixed, TimeClip_in_range
    by (apply year_in_range; now rewrite HD).
  unfold Queue.addSyncJob. rewrite Hq.
  cbn [fst snd]. wsimp. split; [reflexivity|]. split; [reflexivity|].
  eexists. split; [reflexivity|]. cbn [QueueJob.data SyncJobData.type
    SyncJobData.adAccountId SyncJobData.dateFrom SyncJobData.dateTo].
  split; [reflexivity|]. split; [reflexivity|].
  unfold Schedule.formatDate.
  rewrite !parseDate_toISODate by (rewrite ?HD; assumption).
  rewrite HD. split; reflexivity.
Qed.

Lemma scheduleInitialSync_one_task_witness :
  let out := Schedule.scheduleInitialSync Zoned.utc 1704153600000 Scenario.accountId
               Scenario.account 90 Cases.quietWorld in
  fst out = Ok tt /\
  map (fun q => (SyncJobData.dateFrom (QueueJob.data q),
                 SyncJobData.dateTo (QueueJob.data q))) (syncQueue (snd out))
    = [("2023-10-04", "2024-01-02")].
Proof.
  destruct (scheduleInitialSync_one_task 0 1704153600000 Scenario.accountId
              Scenario.account 90 Cases.quietWorld) as (H1 & _ & _).
  - reflexivity.
  - vm_compute. split; discriminate.
  - vm_compute. split; discriminate.
  - split; [exact H1|reflexivity].
Defined.

(** [triggerIntradaySync] throws only when the store rejects its query
    for the accounts, which is awaited outside any [try]: then the error
    is the store's and nothing but the opening line of the console was
    written.  Otherwise it returns, whatever the queue does, and writes
    no job row and no account: with the queue up it adds one task per
    enabled account on an ACTIVE connection, each for today only; with
    the queue down it adds none, and only the console grows, by one line
    per such account after the opening line. *)
Theorem triggerIntradaySync_outcome
    (storeError : option JsError) (now : Z) (w : World) :
  let out := Schedule.triggerIntradaySync storeError now w in
  let accounts := List.filter (fun kv => Schedule.eligible w (snd kv))
                    (map_to_list (adAccounts w)) in
  match storeError with
  | Some error =>
      out = (Throw error,
             with_console (console w ++ ["Triggering intraday sync..."]) w)
  | None =>
      fst out = Ok tt /\
      syncJobs (snd out) = syncJobs w /\
      adAccounts (snd out) = adAccounts w /\
      match queueError w with
      | None =>
          map QueueJob.data (syncQueue (snd out)) =
            map QueueJob.data (syncQueue w)
            ++ map (Schedule.intradayJob (Schedule.formatDate now)) accounts
      | Some _ =>
          with_console (console w) (snd out) = w /\
          length (console (snd out))
          = (length (console w) + 1 + length accounts)%nat
      end
  end.
Proof.
  intros out accounts. destruct storeError as [error|]; [reflexivity|].
  set (w1 := with_console (console w ++ ["Triggering intraday sync..."]) w).
  assert (forall w', forEach accounts (fun kv =>
            tryCatch
              (Queue.addSyncJob
                 (Schedule.intradayJob (Schedule.formatDate now) kv) None None None)
              (fun error =>
                 Schedule.consoleLog "Failed to queue intraday sync for account"))
            w1 = (Ok tt, w') -> out = (Ok tt, w')) as Hout.
  { intros w' E. subst out.
    unfold Schedule.triggerIntradaySync, bind at 1, Schedule.consoleLog at 1, modify.
    unfold bind at 1, Schedule.findEligible, gets. exact E. }
  destruct (queueError w) as [e|] eqn:Hq.
  - destruct (intraday_loop_down (Schedule.formatDate now) e accounts w1 Hq)
      as (w' & E & I2 & I3).
    rewrite (Hout w' E). cbn [fst snd].
    subst w1. destruct w, w'. cbn in *.
    injection I2 as -> -> -> -> -> -> -> -> -> -> -> ->.
    repeat split. rewrite I3, length_app. cbn [length]. lia.
  - destruct (intraday_loop_up (Schedule.formatDate now) accounts w1 Hq)
      as (w' & E & I3 & I4 & I6).
    rewrite (Hout w' E). cbn [fst snd].
    split; [reflexivity|]. split; [exact I3|]. split; [exact I4|]. exact I6.
Qed.
